(** * Verification of the notebooks' training harness and dataset adapter

    The development embeds two pieces of the repository:

    - [PennFudanDataset] of [exercise/ex3-object-detection.ipynb]
      ([__init__], [__getitem__], [__len__]) together with the train/test
      split made with [torch.utils.data.Subset];
    - [train] and [test] of the CIFAR-10 notebook and of
      [exercise/ex1-FashionMNIST.ipynb] (the two notebooks define the same
      two functions, up to the reporting cadence of [train]);
    - the cells that call these loops, in module [Driver]: the epochs
      driver of both notebooks and the CIFAR-10 notebook's training loop
      that logs to TensorBoard;
    - the class tables of [exercise/ex3-object-detection.ipynb], in module
      [Classes].

    The Python, numpy and torch primitives these functions call
    ([sorted], list indexing and slicing, [os.path.join], [np.unique],
    [np.where], [np.min], tensor columns, [DataLoader]) are modelled after
    their documented behaviour, exceptions included: see the modules [Py]
    and [Np] and the loader of [Harness].

    Numbers.  Python integers are [Z]; pixel values (8-bit unsigned) are
    [N] and are only compared; the entries of the float32 tensors [boxes]
    and [area] are whole numbers and are kept as [Z], rounded the way
    float32 rounds them (module [Float32]); losses and scores are
    elements of an arbitrary type with the operations of the class
    [Harness.Arith]. *)

From Stdlib Require Import ZArith NArith QArith Strings.String Strings.Ascii.
From Stdlib Require Import Structures.OrderedTypeEx.
From stdpp Require Import base tactics option list list_numbers strings sorting gmap.

Set Default Proof Using "Type".
Local Open Scope Z_scope.

(** ** Python runtime: exceptions, indexing, slicing, sorting *)

Module Py.

(** The exception classes the modelled code can raise. *)
Inductive exn : Set :=
| IndexError
| ValueError
| ZeroDivisionError
| FileNotFoundError.

#[global] Instance exn_eq_dec : EqDecision exn.
Proof. solve_decision. Defined.

(** The outcome of a Python expression: a value, or a raised exception. *)
Inductive result (A : Type) : Type :=
| Ok (a : A)
| Raise (e : exn).
Arguments Ok {A} a.
Arguments Raise {A} e.

#[global] Instance result_ret : MRet result := @Ok.
#[global] Instance result_bind : MBind result := λ A B f r,
  match r with
  | Ok a => f a
  | Raise e => Raise e
  end.

(** [l[i]] for a Python list: negative indices count from the end, and
    an index outside [-len(l), len(l))] raises [IndexError]. *)
Definition index {A} (l : list A) (i : Z) : result A :=
  let n := Z.of_nat (length l) in
  let j := if decide (i < 0) then i + n else i in
  if decide (0 ≤ j < n) then
    match l !! Z.to_nat j with
    | Some x => Ok x
    | None => Raise IndexError
    end
  else Raise IndexError.

(** Bounds of a slice are clamped, never raised on. *)
Definition clamp {A} (l : list A) (k : Z) : nat :=
  let n := Z.of_nat (length l) in
  Z.to_nat (Z.max 0 (Z.min n (if decide (k < 0) then k + n else k))).

(** [l[:k]] and [l[k:]]. *)
Definition slice_to {A} (l : list A) (k : Z) : list A := take (clamp l k) l.
Definition slice_from {A} (l : list A) (k : Z) : list A := drop (clamp l k) l.

(** Python compares [str] values lexicographically, code point by code
    point. *)
Definition str_le (s1 s2 : string) : Prop := String.leb s1 s2 = true.

#[global] Instance str_le_dec s1 s2 : Decision (str_le s1 s2).
Proof. unfold str_le. apply _. Defined.

(** [sorted(l)] on a list of strings.  Python's sort is a stable merge
    sort. *)
Definition sorted (l : list string) : list string := merge_sort str_le l.

(** [os.path.join(a, b)] (POSIX). *)
Definition starts_with_sep (s : string) : bool :=
  match s with
  | String c _ => bool_decide (c = "/"%char)
  | EmptyString => false
  end.

Fixpoint ends_with_sep (s : string) : bool :=
  match s with
  | EmptyString => false
  | String c EmptyString => bool_decide (c = "/"%char)
  | String _ s' => ends_with_sep s'
  end.

Definition path_join (a b : string) : string :=
  if starts_with_sep b then b
  else if bool_decide (a = EmptyString) || ends_with_sep a
       then String.append a b
       else String.append a (String "/"%char b).

End Py.

(** ** numpy and torch array primitives used by the dataset adapter *)

Module Np.
Import Py.

(** A two-dimensional array as the list of its rows. *)
Abbreviation array2 A := (list (list A)).

(** [np.unique(a)]: the flattened array is sorted, then an element is
    kept when it differs from its predecessor. *)
Fixpoint keep_changes (prev : N) (l : list N) : list N :=
  match l with
  | [] => []
  | x :: l' =>
      if decide (x = prev) then keep_changes prev l'
      else x :: keep_changes x l'
  end.

Definition unique_sorted (l : list N) : list N :=
  match l with
  | [] => []
  | x :: l' => x :: keep_changes x l'
  end.

Definition unique (a : array2 N) : list N :=
  unique_sorted (merge_sort N.le (mjoin a)).

(** [a == ids[:, None, None]]: one boolean grid per id. *)
Definition eq_scalar (a : array2 N) (id : N) : array2 bool :=
  (λ row : list N, (λ v : N, bool_decide (v = id)) <$> row) <$> a.

Definition eq_broadcast (a : array2 N) (ids : list N) : list (array2 bool) :=
  eq_scalar a <$> ids.

(** [np.where(m)]: the coordinates of the true entries in row-major
    order, as the pair (row indices, column indices). *)
Fixpoint where_row (r c : nat) (row : list bool) : list (nat * nat) :=
  match row with
  | [] => []
  | b :: row' => (if b then [(r, c)] else []) ++ where_row r (S c) row'
  end.

Fixpoint where_rows (r : nat) (m : array2 bool) : list (nat * nat) :=
  match m with
  | [] => []
  | row :: m' => where_row r 0 row ++ where_rows (S r) m'
  end.

Definition where_ (m : array2 bool) : list Z * list Z :=
  let ps := where_rows 0 m in
  ((λ p, Z.of_nat (fst p)) <$> ps, (λ p, Z.of_nat (snd p)) <$> ps).

(** [np.min] and [np.max] raise [ValueError] on an empty array. *)
Definition min (l : list Z) : result Z :=
  match l with
  | [] => Raise ValueError
  | x :: l' => Ok (foldl Z.min x l')
  end.

Definition max (l : list Z) : result Z :=
  match l with
  | [] => Raise ValueError
  | x :: l' => Ok (foldl Z.max x l')
  end.

End Np.

(** ** float32 on whole numbers

    The tensors [boxes] and [area] of the dataset adapter have dtype
    [torch.float32], and every number they hold is whole: a pixel
    coordinate, a difference or a product of such.  A float32 keeps 24
    significant bits, so a whole number of magnitude up to 2^24 is stored
    as it is, and a larger one is rounded to the nearest number with 24
    significant bits, a tie going to the even significand.  (Overflow to
    infinity starts at 2^128; the coordinates of an array are below 2^63
    and their products below 2^126.) *)

Module Float32.

Definition round (z : Z) : Z :=
  let a := Z.abs z in
  if decide (a < 2 ^ 24) then z
  else
    let ulp := 2 ^ (Z.log2 a - 23) in
    let q := a / ulp in
    let r := a `mod` ulp in
    let q' := if decide (2 * r < ulp) then q
              else if decide (ulp < 2 * r) then q + 1
              else if Z.even q then q else q + 1 in
    Z.sgn z * (q' * ulp).

(** [a - b] and [a * b] on float32 values. *)
Definition sub (a b : Z) : Z := round (a - b).
Definition mul (a b : Z) : Z := round (a * b).

End Float32.

(** ** The Penn-Fudan dataset adapter *)

Module PennFudan.
Import Py.

(** One row [[xmin, ymin, xmax, ymax]]: of the Python list [boxes],
    where the entries are numpy integers, and of the float32 tensor made
    from it. *)
Record Box : Set := mkBox { xmin : Z; ymin : Z; xmax : Z; ymax : Z }.

#[global] Instance Box_eq_dec : EqDecision Box.
Proof. solve_decision. Defined.

(** The [target] dictionary, one field per key.  The [masks] tensor
    holds 0 and 1 as 8-bit integers; the embedding keeps booleans. *)
Record Target : Type := mkTarget {
  boxes : list Box;
  labels : list Z;
  masks : list (Np.array2 bool);
  image_id : list Z;
  area : list Z;
  iscrowd : list Z
}.

(** [boxes[:, k]]: [torch.as_tensor([])] is one-dimensional, so a column
    of the empty [boxes] tensor cannot be taken. *)
Definition column (proj : Box → Z) (bs : list Box) : result (list Z) :=
  match bs with
  | [] => Raise IndexError
  | _ => Ok (proj <$> bs)
  end.

(** The body of the loop over the instances: the bounding box of one
    boolean mask. *)
Definition bounding_box (m : Np.array2 bool) : result Box :=
  let pos := Np.where_ m in
  x0 ← Np.min (snd pos);
  x1 ← Np.max (snd pos);
  y0 ← Np.min (fst pos);
  y1 ← Np.max (fst pos);
  Ok (mkBox x0 y0 x1 y1).

(** [for i in range(num_objs): ... boxes.append(...)]. *)
Fixpoint get_boxes (ms : list (Np.array2 bool)) : result (list Box) :=
  match ms with
  | [] => Ok []
  | m :: ms' =>
      b ← bounding_box m;
      bs ← get_boxes ms';
      Ok (b :: bs)
  end.

(** [torch.as_tensor(boxes, dtype=torch.float32)] on one row. *)
Definition as_float32 (b : Box) : Box :=
  mkBox (Float32.round (xmin b)) (Float32.round (ymin b))
        (Float32.round (xmax b)) (Float32.round (ymax b)).

(** The part of [__getitem__] that follows the computation of
    [obj_ids]: the boolean masks, the boxes and the [target]
    dictionary.  [area] is computed on the float32 tensor, in
    float32. *)
Definition target_of_ids (idx : Z) (mask : Np.array2 N) (obj_ids : list N)
    : result Target :=
  let ms := Np.eq_broadcast mask obj_ids in
  let num_objs := length obj_ids in
  bs ← get_boxes ms;
  let bs := as_float32 <$> bs in
  let lbls := replicate num_objs 1 in
  c3 ← column ymax bs;
  c1 ← column ymin bs;
  c2 ← column xmax bs;
  c0 ← column xmin bs;
  let ar := zip_with Float32.mul (zip_with Float32.sub c3 c1)
                                 (zip_with Float32.sub c2 c0) in
  let crowd := replicate num_objs 0 in
  Ok {| boxes := bs; labels := lbls; masks := ms; image_id := [idx];
        area := ar; iscrowd := crowd |}.

(** The part of [__getitem__] from the decoded mask array on:
    [obj_ids = np.unique(mask)[1:]], then the above. *)
Definition build_target (idx : Z) (mask : Np.array2 N) : result Target :=
  target_of_ids idx mask (drop 1 (Np.unique mask)).

Section Dataset.
(** The decoded RGB image is opaque to the adapter. *)
Context {Img : Type}.

(** What the adapter reads from the file system: a directory listing
    in the order [os.listdir] enumerates it, an image decoded and
    converted to RGB, an image decoded into a numpy array. *)
Record FileSystem : Type := mkFS {
  listdir : string → result (list string);
  open_rgb : string → result Img;
  open_array : string → result (Np.array2 N)
}.

Record PennFudanDataset : Type := mkDataset {
  self_root : string;
  self_transforms : option (Img * Target → Img * Target);
  self_imgs : list string;
  self_masks : list string
}.

Definition __init__ (fs : FileSystem) (root : string)
    (transforms : option (Img * Target → Img * Target))
    : result PennFudanDataset :=
  l1 ← listdir fs (path_join root "PNGImages");
  l2 ← listdir fs (path_join root "PedMasks");
  Ok {| self_root := root; self_transforms := transforms;
        self_imgs := sorted l1; self_masks := sorted l2 |}.

Definition __len__ (self : PennFudanDataset) : nat :=
  length (self_imgs self).

(** [__getitem__] up to the transform hook. *)
Definition load_sample (fs : FileSystem) (self : PennFudanDataset)
    (idx : Z) : result (Img * Target) :=
  img_name ← index (self_imgs self) idx;
  let img_path := path_join (path_join (self_root self) "PNGImages") img_name in
  mask_name ← index (self_masks self) idx;
  let mask_path := path_join (path_join (self_root self) "PedMasks") mask_name in
  img ← open_rgb fs img_path;
  mask ← open_array fs mask_path;
  target ← build_target idx mask;
  Ok (img, target).

Definition apply_transforms (self : PennFudanDataset)
    (s : Img * Target) : Img * Target :=
  match self_transforms self with
  | Some f => f s
  | None => s
  end.

Definition __getitem__ (fs : FileSystem) (self : PennFudanDataset)
    (idx : Z) : result (Img * Target) :=
  s ← load_sample fs self idx;
  Ok (apply_transforms self s).

(** [torch.utils.data.Subset]. *)
Record Subset : Type := mkSubset {
  sub_dataset : PennFudanDataset;
  sub_indices : list Z
}.

Definition subset_len (s : Subset) : nat := length (sub_indices s).

Definition subset_getitem (fs : FileSystem) (s : Subset) (i : Z)
    : result (Img * Target) :=
  j ← index (sub_indices s) i;
  __getitem__ fs (sub_dataset s) j.

(** The split of the notebook: [indices[:-50]] trains, [indices[-50:]]
    evaluates. *)
Definition split (dataset dataset_test : PennFudanDataset)
    (indices : list Z) : Subset * Subset :=
  (mkSubset dataset (slice_to indices (-50)),
   mkSubset dataset_test (slice_from indices (-50))).

(** The calls a data loader makes on the dataset object during a run.
    Neither method assigns to a field of [self]. *)
Inductive call : Type :=
| CallLen
| CallGetItem (idx : Z).

Inductive response : Type :=
| RespLen (n : nat)
| RespItem (r : result (Img * Target)).

Definition exec (fs : FileSystem) (self : PennFudanDataset) (c : call)
    : PennFudanDataset * response :=
  match c with
  | CallLen => (self, RespLen (__len__ self))
  | CallGetItem idx => (self, RespItem (__getitem__ fs self idx))
  end.

Fixpoint run (fs : FileSystem) (self : PennFudanDataset) (cs : list call)
    : PennFudanDataset * list response :=
  match cs with
  | [] => (self, [])
  | c :: cs' =>
      let '(self1, r) := exec fs self c in
      let '(self2, rs) := run fs self1 cs' in
      (self2, r :: rs)
  end.

End Dataset.
Arguments FileSystem : clear implicits.
Arguments PennFudanDataset : clear implicits.
Arguments Subset : clear implicits.

(** *** Vocabulary of the specification *)

(** Entry [(r, c)] of a boolean mask is true. *)
Definition pixel (m : Np.array2 bool) (r c : nat) : Prop :=
  ∃ row, m !! r = Some row ∧ row !! c = Some true.

(** A mask without any true pixel. *)
Definition degenerate (m : Np.array2 bool) : Prop := ∀ r c, ¬ pixel m r c.

(** [b] is the tight bounding box of [m]: each side touches a true
    pixel and every true pixel lies within the sides. *)
Definition tight_box (m : Np.array2 bool) (b : Box) : Prop :=
  (∃ r c, pixel m r c ∧ xmin b = Z.of_nat c) ∧
  (∃ r c, pixel m r c ∧ xmax b = Z.of_nat c) ∧
  (∃ r c, pixel m r c ∧ ymin b = Z.of_nat r) ∧
  (∃ r c, pixel m r c ∧ ymax b = Z.of_nat r) ∧
  (∀ r c, pixel m r c →
          xmin b ≤ Z.of_nat c ≤ xmax b ∧ ymin b ≤ Z.of_nat r ≤ ymax b).

(** Height times width of a row of the [boxes] tensor, as [area]
    computes it. *)
Definition box_area (b : Box) : Z :=
  Float32.mul (Float32.sub (ymax b) (ymin b)) (Float32.sub (xmax b) (xmin b)).

(** The transform hook of a dataset, if it has one, hands the target
    on as it got it (as a conversion of the image alone does). *)
Definition keeps_target {Img} (self : PennFudanDataset Img) : Prop :=
  ∀ s, (apply_transforms self s).2 = s.2.

(** The distinct colours of a mask image other than the background
    colour 0. *)
Definition nonbg_colors (mask : Np.array2 N) : list N :=
  remove_dups (filter (λ v, v ≠ 0%N) (mjoin mask)).

(** The files at position [k] of the two listings exist and decode to
    [img] and [mask]. *)
Definition decodes_at {Img} (fs : FileSystem Img)
    (self : PennFudanDataset Img) (k : nat) (img : Img)
    (mask : Np.array2 N) : Prop :=
  ∃ a b,
    self_imgs self !! k = Some a ∧ self_masks self !! k = Some b ∧
    open_rgb fs (path_join (path_join (self_root self) "PNGImages") a) = Ok img ∧
    open_array fs (path_join (path_join (self_root self) "PedMasks") b) = Ok mask.

(** Index [idx] is within the Python index range of a dataset whose
    two listings have equal length, and the files it addresses decode
    to [img] and [mask]. *)
Definition serves {Img} (fs : FileSystem Img)
    (self : PennFudanDataset Img) (idx : Z) (img : Img)
    (mask : Np.array2 N) : Prop :=
  let L := Z.of_nat (__len__ self) in
  - L ≤ idx < L ∧
  length (self_masks self) = length (self_imgs self) ∧
  decodes_at fs self (Z.to_nat (idx `mod` L)) img mask.

End PennFudan.

(** ** The training and evaluation loops *)

Module Harness.
Import Py.

(** Arithmetic of the host's floating-point numbers.  The loops are
    embedded over any implementation of these operations, so what is
    proved of them does not depend on rounding. *)
Class Arith (F : Type) : Type := mkArith {
  of_nat : nat → F;
  add : F → F → F;
  mul : F → F → F;
  div : F → F → F;
  ltb : F → F → bool
}.

(** Tensors with their autograd record: a batch of predictions exposes
    one row of class scores per sample (at least one class), a loss
    exposes its value and the gradient its [backward()] accumulates. *)
Class Autograd (F G Pred Loss : Type) : Type := mkAutograd {
  logits : Pred → list (F * list F);
  item : Loss → F;
  gradient : Loss → G;
  zero : G;
  accumulate : G → G → G
}.

(** [row.argmax()]: the index of the first maximal entry. *)
Fixpoint argmax_from {F} `{Arith F} (best_i : nat) (best : F) (i : nat)
    (row : list F) : nat :=
  match row with
  | [] => best_i
  | v :: row' =>
      if ltb best v then argmax_from i v (S i) row'
      else argmax_from best_i best (S i) row'
  end.

Definition argmax {F} `{Arith F} (row : F * list F) : nat :=
  argmax_from 0 (fst row) 1 (snd row).

(** [(a == y).type(torch.float).sum().item()].  The sum of zeros and
    ones is an integer that a float holds exactly; it is kept as a
    natural number. *)
Definition count_equal (a y : list nat) : nat :=
  sum_list (zip_with (λ i j, if decide (i = j) then 1%nat else 0%nat) a y).

(** [torch.utils.data.BatchSampler] with [drop_last=False]. *)
Fixpoint batch_sampler (batch_size : nat) (batch : list nat)
    (sampler : list nat) : list (list nat) :=
  match sampler with
  | [] => match batch with [] => [] | _ => [batch] end
  | idx :: rest =>
      let batch' := batch ++ [idx] in
      if decide (length batch' = batch_size)
      then batch' :: batch_sampler batch_size [] rest
      else batch_sampler batch_size batch' rest
  end.

Section Loops.
Context {F : Type} `{Arith F}.
Context {X P G O Pred Loss : Type} `{Autograd F G Pred Loss}.

(** The three collaborators a loop is handed: the network's forward
    function (of the parameters, the train/eval mode and a batch of
    inputs), the objective, and the optimizer's update rule. *)
Record Model : Type := mkModel { forward : P → bool → list X → Pred }.
Record Objective : Type := mkObjective { loss_of : Pred → list nat → Loss }.
Record Optimizer : Type := mkOptimizer { update : O → P → G → P * O }.

(** What the loops print and which collaborator calls they make, in
    program order. *)
Inductive event : Type :=
| EvTrain
| EvEval
| EvForward
| EvLoss
| EvZeroGrad
| EvBackward
| EvStep
| EvPrintProgress (loss : F) (current size : nat)
| EvPrintTest (accuracy_pct avg_loss : F).

(** The mutable state shared by the model and the optimizer (the
    optimizer is built on [model.parameters()], the very tensors the
    model reads): the parameters with their gradient buffers, the
    optimizer's own state and the model's mode flag.  [trace] records
    the calls and the printed lines in program order. *)
Record World : Type := mkWorld {
  params : P;
  grads : G;
  opt_state : O;
  training : bool;
  trace : list event
}.

Definition M (A : Type) : Type := World → result A * World.

Definition retM {A} (a : A) : M A := λ w, (Ok a, w).
Definition bindM {A B} (m : M A) (k : A → M B) : M B := λ w,
  match m w with
  | (Ok a, w') => k a w'
  | (Raise e, w') => (Raise e, w')
  end.
Definition raiseM {A} (e : exn) : M A := λ w, (Raise e, w).

Notation "x <~ m ;; k" := (bindM m (λ x, k))
  (at level 100, m at next level, right associativity).
Notation "m ;;; k" := (bindM m (λ _, k))
  (at level 100, right associativity).

Definition emit (e : event) (w : World) : World :=
  mkWorld (params w) (grads w) (opt_state w) (training w) (trace w ++ [e]).

Definition print (e : event) : M unit := λ w, (Ok (), emit e w).

(** [model.train()] and [model.eval()]. *)
Definition set_mode (b : bool) : M unit := λ w,
  (Ok (), emit (if b then EvTrain else EvEval)
            (mkWorld (params w) (grads w) (opt_state w) b (trace w))).

(** [model(X)]. *)
Definition call_model (model : Model) (X_ : list X) : M Pred := λ w,
  (Ok (forward model (params w) (training w) X_), emit EvForward w).

(** [loss_fn(pred, y)]. *)
Definition call_loss (loss_fn : Objective) (pred : Pred) (y : list nat)
    : M Loss := λ w, (Ok (loss_of loss_fn pred y), emit EvLoss w).

(** [optimizer.zero_grad()]. *)
Definition zero_grad : M unit := λ w,
  (Ok (), emit EvZeroGrad
            (mkWorld (params w) zero (opt_state w) (training w) (trace w))).

(** [loss.backward()]. *)
Definition backward (l : Loss) : M unit := λ w,
  (Ok (), emit EvBackward
            (mkWorld (params w) (accumulate (grads w) (gradient l))
                     (opt_state w) (training w) (trace w))).

(** [optimizer.step()]. *)
Definition step (optimizer : Optimizer) : M unit := λ w,
  let '(p, o) := update optimizer (opt_state w) (params w) (grads w) in
  (Ok (), emit EvStep (mkWorld p (grads w) o (training w) (trace w))).

(** [a / n] for a Python number [a] and an [int] [n]. *)
Definition truediv (a : F) (n : nat) : M F :=
  if decide (n = 0%nat) then raiseM ZeroDivisionError
  else retM (div a (of_nat n)).

(** [torch.utils.data.DataLoader(dataset, batch_size, shuffle)] over a
    labelled dataset.  The constructor refuses [batch_size = 0], and
    with [shuffle=True] an empty dataset, which the random sampler it
    builds does not accept. *)
Record DataLoader : Type := mkDataLoader {
  dataset : list (X * nat);
  batch_size : nat;
  shuffle : bool
}.

Definition DataLoader_init (ds : list (X * nat)) (bs : nat) (sh : bool)
    : result DataLoader :=
  match sh, ds with
  | true, [] => Raise ValueError
  | _, _ =>
      if decide (bs = 0%nat) then Raise ValueError
      else Ok (mkDataLoader ds bs sh)
  end.

(** [len(dataloader)]. *)
Definition len (dl : DataLoader) : nat :=
  ((length (dataset dl) + batch_size dl - 1) / batch_size dl)%nat.

(** The order in which one pass visits the dataset: index order, or
    with [shuffle=True] the permutation [draw] that the random sampler
    takes from the global generator for this pass. *)
Definition sampler (dl : DataLoader) (draw : list nat) : list nat :=
  if shuffle dl then draw else seq 0 (length (dataset dl)).

(** Fetching and collating one batch: the inputs and the labels. *)
Definition collate (dl : DataLoader) (idxs : list nat)
    : list X * list nat :=
  let samples := omap (λ i, dataset dl !! i) idxs in
  (fst <$> samples, snd <$> samples).

(** The batches of one pass, [for X, y in dataloader]. *)
Definition iter (dl : DataLoader) (draw : list nat)
    : list (list X * list nat) :=
  collate dl <$> batch_sampler (batch_size dl) [] (sampler dl draw).

(** The body of [train]'s loop, from batch number [batch] on.  Moving
    a batch to the device, [X.to(device)], changes no value and is
    left out. *)
Fixpoint train_loop (K size : nat) (model : Model) (loss_fn : Objective)
    (optimizer : Optimizer) (batch : nat)
    (batches : list (list X * list nat)) : M unit :=
  match batches with
  | [] => retM ()
  | (X_, y) :: rest =>
      pred <~ call_model model X_ ;;
      loss <~ call_loss loss_fn pred y ;;
      zero_grad ;;;
      backward loss ;;;
      step optimizer ;;;
      (if decide (batch mod K = 0)%nat
       then print (EvPrintProgress (item loss) (batch * length X_) size)
       else retM ()) ;;;
      train_loop K size model loss_fn optimizer (S batch) rest
  end.

(** [train(dataloader, model, loss_fn, optimizer)], reporting every
    [K] batches. *)
Definition train_every (K : nat) (dl : DataLoader) (draw : list nat)
    (model : Model) (loss_fn : Objective) (optimizer : Optimizer)
    : M unit :=
  let size := length (dataset dl) in
  set_mode true ;;;
  train_loop K size model loss_fn optimizer 0 (iter dl draw).

(** The two notebooks' [train]. *)
Definition train_cifar10 := train_every 500.
Definition train_fashion_mnist := train_every 100.

(** The body of [test]'s loop with its two accumulators. *)
Fixpoint test_loop (model : Model) (loss_fn : Objective)
    (batches : list (list X * list nat)) (test_loss : F) (correct : nat)
    : M (F * nat) :=
  match batches with
  | [] => retM (test_loss, correct)
  | (X_, y) :: rest =>
      pred <~ call_model model X_ ;;
      loss <~ call_loss loss_fn pred y ;;
      test_loop model loss_fn rest
        (add test_loss (item loss))
        (correct + count_equal (argmax <$> logits pred) y)%nat
  end.

(** [test(dataloader, model, loss_fn)]; the function prints its two
    results and returns nothing.  [torch.no_grad()] stops the
    recording of gradients, which [test] never asks for, and is left
    out. *)
Definition test (dl : DataLoader) (draw : list nat) (model : Model)
    (loss_fn : Objective) : M unit :=
  let size := length (dataset dl) in
  let num_batches := len dl in
  set_mode false ;;;
  acc <~ test_loop model loss_fn (iter dl draw) (of_nat 0) 0%nat ;;
  test_loss <~ truediv (fst acc) num_batches ;;
  correct <~ truediv (of_nat (snd acc)) size ;;
  print (EvPrintTest (mul (of_nat 100) correct) test_loss).

(** The [(average loss, accuracy percentage)] pairs and the
    [(current, size)] progress counters found in a trace. *)
Definition reports (tr : list event) : list (F * F) :=
  omap (λ e, match e with
             | EvPrintTest a l => Some (l, a)
             | _ => None
             end) tr.

Definition progress (tr : list event) : list (nat * nat) :=
  omap (λ e, match e with
             | EvPrintProgress _ c s => Some (c, s)
             | _ => None
             end) tr.

(** *** Vocabulary of the specification *)

(** A [draw] the random sampler can produce for a loader. *)
Definition valid_draw (dl : DataLoader) (draw : list nat) : Prop :=
  shuffle dl = true → draw ≡ₚ seq 0 (length (dataset dl)).

(** The number of samples in a list of batches, and in the batches
    that precede batch number [i]. *)
Definition num_samples (batches : list (list X * list nat)) : nat :=
  sum_list ((λ b, length b.1) <$> batches).

Definition samples_before (batches : list (list X * list nat)) (i : nat)
    : nat :=
  num_samples (take i batches).

(** The loss of one batch under parameters [p] in the given mode. *)
Definition batch_loss (model : Model) (loss_fn : Objective) (p : P)
    (mode : bool) (b : list X * list nat) : Loss :=
  loss_of loss_fn (forward model p mode b.1) b.2.

(** The sum of the batch losses and the number of samples whose
    predicted class is their label, under parameters [p] in
    evaluation mode. *)
Definition total_loss (model : Model) (loss_fn : Objective) (p : P)
    (batches : list (list X * list nat)) : F :=
  foldl (λ acc b, add acc (item (batch_loss model loss_fn p false b)))
        (of_nat 0) batches.

Definition num_correct (model : Model) (p : P)
    (batches : list (list X * list nat)) : nat :=
  sum_list ((λ b, count_equal (argmax <$> logits (forward model p false b.1)) b.2)
              <$> batches).

(** One step of gradient descent on a batch: the gradient applied is
    that of this batch's loss alone. *)
Definition sgd_step (model : Model) (loss_fn : Objective)
    (optimizer : Optimizer) (st : P * G * O) (b : list X * list nat)
    : P * G * O :=
  let g := accumulate zero (gradient (batch_loss model loss_fn st.1.1 true b)) in
  let po := update optimizer st.2 st.1.1 g in
  (po.1, g, po.2).

(** The five collaborator calls of one training iteration. *)
Definition five_steps : list event :=
  [EvForward; EvLoss; EvZeroGrad; EvBackward; EvStep].

(** What iteration number [i] of [train] contributes to the trace
    when it starts from state [st]. *)
Definition batch_events (K size : nat) (model : Model)
    (loss_fn : Objective) (st : P * G * O) (i : nat)
    (b : list X * list nat) : list event :=
  five_steps ++
  (if decide (i mod K = 0)%nat
   then [EvPrintProgress (item (batch_loss model loss_fn st.1.1 true b))
                         (i * length b.1) size]
   else []).

(** What one run of [test] adds to the trace, and its outcome. *)
Definition test_events (model : Model) (loss_fn : Objective) (p : P)
    (dl : DataLoader) (batches : list (list X * list nat)) : list event :=
  EvEval :: mjoin ((λ _, [EvForward; EvLoss]) <$> batches) ++
  (if decide (len dl = 0 ∨ length (dataset dl) = 0)%nat then []
   else [EvPrintTest
           (mul (of_nat 100)
                (div (of_nat (num_correct model p batches))
                     (of_nat (length (dataset dl)))))
           (div (total_loss model loss_fn p batches) (of_nat (len dl)))]).

Definition test_outcome (dl : DataLoader) : result unit :=
  if decide (len dl = 0 ∨ length (dataset dl) = 0)%nat
  then Raise ZeroDivisionError else Ok ().

End Loops.
Arguments Model : clear implicits.
Arguments Objective : clear implicits.
Arguments Optimizer : clear implicits.
Arguments World : clear implicits.
Arguments event : clear implicits.
Arguments DataLoader : clear implicits.

End Harness.


(** ** The file naming of the Penn-Fudan directories *)

Module Naming.

(** The image and the mask of one photograph share a stem:
    [FudanPed00001.png] and [FudanPed00001_mask.png]. *)
Definition image_name (stem : string) : string := String.append stem ".png".
Definition mask_name (stem : string) : string := String.append stem "_mask.png".

(** No stem is the beginning of another one. *)
Definition prefix_free (stems : list string) : Prop :=
  ∀ s1 s2, s1 ∈ stems → s2 ∈ stems → s1 ≠ s2 →
           ¬ ∃ t, s2 = String.append s1 t.

End Naming.

(** ** Further vocabulary for the loops *)

Module HarnessSpec.
Import Harness.

Section Spec.
Context {F : Type} `{Arith F}.
Context {X P G Pred Loss : Type} `{Autograd F G Pred Loss}.

(** In evaluation mode the model scores every sample on its own, by
    [f]: no layer couples the samples of a batch. *)
Definition pointwise (model : Model X P Pred) (p : P)
    (f : X → F * list F) : Prop :=
  ∀ X_, logits (forward model p false X_) = f <$> X_.

(** Sample [s] is classified correctly by the scores [f]. *)
Definition correct_sample (f : X → F * list F) (s : X * nat) : Prop :=
  argmax (f s.1) = s.2.

#[global] Instance correct_sample_dec f s : Decision (correct_sample f s).
Proof. unfold correct_sample. apply _. Defined.

End Spec.

End HarnessSpec.

(** ** The cells that drive the loops

    Two cells of the notebooks call the loops: the epochs driver
    ([for t in range(epochs): train(...); test(...)], in both notebooks)
    and the CIFAR-10 notebook's training loop that logs to TensorBoard.
    Both print lines of their own between the calls and prints of
    [Harness]; [Console] keeps all of them in program order. *)

Module Driver.
Import Py Harness.

Section Driver.
Context {F : Type} `{Arith F}.
Context {X P G O Pred Loss : Type} `{Autograd F G Pred Loss}.

Inductive line : Type :=
| Epoch (n : nat)
  (** [print(f"Epoch {t+1}\n-------------------------------")] *)
| Done
  (** [print("Done!")] *)
| PrintLen (n : nat)
  (** [print(len(testloader))] *)
| PrintBatch (n : nat)
  (** [print('Batch {}'.format(i + 1))] *)
| AddScalars (training_loss validation_loss : F) (global_step : nat)
  (** [writer.add_scalars('Training vs. Validation Loss',
      {'Training': avg_loss, 'Validation': avg_vloss}, global_step)] *)
| FinishedTraining
  (** [print('Finished Training')] *)
| Flush
  (** [writer.flush()] *)
| Of (e : event F)
  (** a call or a print of the loops of [Harness] *).

Record Console : Type := mkConsole {
  world : World F P G O;
  out : list line
}.

Definition D (A : Type) : Type := Console → result A * Console.

Definition retD {A} (a : A) : D A := λ c, (Ok a, c).
Definition bindD {A B} (m : D A) (k : A → D B) : D B := λ c,
  match m c with
  | (Ok a, c') => k a c'
  | (Raise e, c') => (Raise e, c')
  end.

Notation "x <~ m ;; k" := (bindD m (λ x, k))
  (at level 100, m at next level, right associativity).
Notation "m ;;; k" := (bindD m (λ _, k))
  (at level 100, right associativity).

Definition say (l : line) : D unit := λ c,
  (Ok (), mkConsole (world c) (out c ++ [l])).

(** Running an operation of [Harness]: what it adds to the trace
    shows in the console. *)
Definition run {A} (m : @M F P G O A) : D A := λ c,
  let '(r, w') := m (world c) in
  (r, mkConsole w'
        (out c ++ (Of <$> drop (length (trace (world c))) (trace w')))).

(** *** The epochs driver *)

(** The body of [for t in range(epochs)].  Each pass over a loader
    takes its own permutation: [draws t] holds those of the training
    and of the test loader in epoch [t]. *)
Fixpoint epochs_loop (K : nat) (trainloader testloader : DataLoader X)
    (draws : nat → list nat * list nat) (model : Model X P Pred)
    (loss_fn : Objective Pred Loss) (optimizer : Optimizer P G O)
    (ts : list nat) : D unit :=
  match ts with
  | [] => retD ()
  | t :: rest =>
      say (Epoch (t + 1)) ;;;
      run (train_every K trainloader (draws t).1 model loss_fn optimizer) ;;;
      run (test testloader (draws t).2 model loss_fn) ;;;
      epochs_loop K trainloader testloader draws model loss_fn optimizer rest
  end.

Definition fit (K epochs : nat) (trainloader testloader : DataLoader X)
    (draws : nat → list nat * list nat) (model : Model X P Pred)
    (loss_fn : Objective Pred Loss) (optimizer : Optimizer P G O)
    : D unit :=
  epochs_loop K trainloader testloader draws model loss_fn optimizer
              (seq 0 epochs) ;;;
  say Done.

(** The two notebooks' cells, [epochs = 5]. *)
Definition fit_cifar10 := fit 500 5.
Definition fit_fashion_mnist := fit 100 5.

(** *** The loop that logs to TensorBoard *)

(** [for j, vdata in enumerate(testloader, 0)]. *)
Fixpoint validation_loop (model : Model X P Pred)
    (loss_fn : Objective Pred Loss)
    (vbatches : list (list X * list nat)) (running_vloss : F) : D F :=
  match vbatches with
  | [] => retD running_vloss
  | (vinputs, vlabels) :: rest =>
      voutputs <~ run (call_model model vinputs) ;;
      vloss <~ run (call_loss loss_fn voutputs vlabels) ;;
      validation_loop model loss_fn rest (add running_vloss (item vloss))
  end.

(** The body of [for i, data in enumerate(trainloader, 0)] in epoch
    [epoch], from batch number [i] on.  [model.train(False)] is what
    [model.eval()] calls, and [model.train(True)] is [model.train()];
    [vdraw i] is the permutation of the validation pass made after
    batch [i]. *)
Fixpoint logging_loop (trainloader testloader : DataLoader X)
    (vdraw : nat → list nat) (model : Model X P Pred)
    (loss_fn : Objective Pred Loss) (optimizer : Optimizer P G O)
    (epoch i : nat) (batches : list (list X * list nat))
    (running_loss : F) : D unit :=
  match batches with
  | [] => retD ()
  | (inputs, labels) :: rest =>
      run zero_grad ;;;
      outputs <~ run (call_model model inputs) ;;
      loss <~ run (call_loss loss_fn outputs labels) ;;
      run (backward loss) ;;;
      run (step optimizer) ;;;
      let running_loss := add running_loss (item loss) in
      running_loss <~
        (if decide (i mod 1000 = 999)%nat
         then
           say (PrintBatch (i + 1)) ;;;
           run (set_mode false) ;;;
           running_vloss <~
             validation_loop model loss_fn (iter testloader (vdraw i))
                             (of_nat 0) ;;
           run (set_mode true) ;;;
           let avg_loss := div running_loss (of_nat 1000) in
           avg_vloss <~ run (truediv running_vloss (len testloader)) ;;
           say (AddScalars avg_loss avg_vloss
                           (epoch * len trainloader + i)) ;;;
           retD (of_nat 0)
         else retD running_loss) ;;
      logging_loop trainloader testloader vdraw model loss_fn optimizer
                   epoch (S i) rest running_loss
  end.

(** [for epoch in range(3)]: [draws epoch] holds the permutation of
    the training pass of that epoch and those of its validation
    passes. *)
Fixpoint logging_epochs (trainloader testloader : DataLoader X)
    (draws : nat → list nat * (nat → list nat)) (model : Model X P Pred)
    (loss_fn : Objective Pred Loss) (optimizer : Optimizer P G O)
    (es : list nat) : D unit :=
  match es with
  | [] => retD ()
  | epoch :: rest =>
      logging_loop trainloader testloader (draws epoch).2 model loss_fn
                   optimizer epoch 0
                   (iter trainloader (draws epoch).1) (of_nat 0) ;;;
      logging_epochs trainloader testloader draws model loss_fn
                     optimizer rest
  end.

(** The whole cell. *)
Definition logged_training (trainloader testloader : DataLoader X)
    (draws : nat → list nat * (nat → list nat)) (model : Model X P Pred)
    (loss_fn : Objective Pred Loss) (optimizer : Optimizer P G O)
    : D unit :=
  say (PrintLen (len testloader)) ;;;
  logging_epochs trainloader testloader draws model loss_fn optimizer
                 (seq 0 3) ;;;
  say FinishedTraining ;;;
  say Flush.

(** *** Vocabulary of the specification *)

(** The calls and prints of [Harness] among the lines of a console. *)
Definition events_of (ls : list line) : list (event F) :=
  omap (λ l, match l with Of e => Some e | _ => None end) ls.

(** The global steps at which scalars were logged, with the
    validation loss logged there. *)
Definition logged_validation (ls : list line) : list (nat * F) :=
  omap (λ l, match l with AddScalars _ v s => Some (s, v) | _ => None end) ls.

Definition logged_steps (ls : list line) : list nat :=
  (logged_validation ls).*1.

(** The state that training reads and writes. *)
Definition state_of (w : World F P G O) : P * G * O :=
  (params w, grads w, opt_state w).

(** One step of gradient descent on a batch with the forward pass
    made in mode [mode]; [sgd_step] is the case of training mode. *)
Definition sgd_step_in (mode : bool) (model : Model X P Pred)
    (loss_fn : Objective Pred Loss) (optimizer : Optimizer P G O)
    (st : P * G * O) (b : list X * list nat) : P * G * O :=
  let g := accumulate zero (gradient (batch_loss model loss_fn st.1.1 mode b)) in
  let po := update optimizer st.2 st.1.1 g in
  (po.1, g, po.2).

(** The state after the passes of [train] of the epochs [ts], and
    after [t] epochs, from state [st0]. *)
Definition train_passes (trainloader : DataLoader X)
    (train_draw : nat → list nat) (model : Model X P Pred)
    (loss_fn : Objective Pred Loss) (optimizer : Optimizer P G O)
    (st0 : P * G * O) (ts : list nat) : P * G * O :=
  foldl (λ st t, foldl (sgd_step model loss_fn optimizer) st
                       (iter trainloader (train_draw t)))
        st0 ts.

Definition state_after_epochs (trainloader : DataLoader X)
    (train_draw : nat → list nat) (model : Model X P Pred)
    (loss_fn : Objective Pred Loss) (optimizer : Optimizer P G O)
    (st0 : P * G * O) (t : nat) : P * G * O :=
  train_passes trainloader train_draw model loss_fn optimizer st0 (seq 0 t).

(** The state after the batches of one pass of the logging loop that
    starts at batch number [i] in mode [m0]: the batches up to the
    first validation are forwarded in mode [m0], the later ones in
    training mode. *)
Definition logging_pass (m0 : bool) (i : nat) (model : Model X P Pred)
    (loss_fn : Objective Pred Loss) (optimizer : Optimizer P G O)
    (st0 : P * G * O) (batches : list (list X * list nat)) : P * G * O :=
  let k := (1000 - i mod 1000)%nat in
  foldl (sgd_step_in true model loss_fn optimizer)
        (foldl (sgd_step_in m0 model loss_fn optimizer) st0 (take k batches))
        (drop k batches).

(** The batch numbers after which the logging loop validates. *)
Definition log_due (i : nat) : Prop := (i mod 1000 = 999)%nat.

#[global] Instance log_due_dec i : Decision (log_due i).
Proof. unfold log_due. apply _. Defined.

(** What one pass of the logging loop over [batches] is to log when
    it starts at batch number [i] in mode [m0] from state [st0]:
    after every due batch [j], at global step
    [epoch * len(trainloader) + j], the loss of the validation batches
    under the parameters reached after batch [j], summed in evaluation
    mode and divided by [len(testloader)]. *)
Definition pass_log (trainloader testloader : DataLoader X)
    (vdraw : nat → list nat) (model : Model X P Pred)
    (loss_fn : Objective Pred Loss) (optimizer : Optimizer P G O)
    (m0 : bool) (i epoch : nat) (st0 : P * G * O)
    (batches : list (list X * list nat)) : list (nat * F) :=
  (λ j, ((epoch * len trainloader + j)%nat,
         div (total_loss model loss_fn
                (logging_pass m0 i model loss_fn optimizer st0
                              (take (S j - i) batches)).1.1
                (iter testloader (vdraw j)))
             (of_nat (len testloader))))
    <$> filter log_due (seq i (length batches)).

(** What epoch [t] of the driver shows on the console when [train]
    starts from state [st]. *)
Definition epoch_lines (K : nat) (trainloader testloader : DataLoader X)
    (draws : nat → list nat * list nat) (model : Model X P Pred)
    (loss_fn : Objective Pred Loss) (optimizer : Optimizer P G O)
    (st : P * G * O) (t : nat) : list line :=
  let batches := iter trainloader (draws t).1 in
  let st' := foldl (sgd_step model loss_fn optimizer) st batches in
  Epoch (t + 1) ::
  (Of <$> (EvTrain ::
           mjoin (imap (λ i b,
                    batch_events K (length (dataset trainloader)) model loss_fn
                      (foldl (sgd_step model loss_fn optimizer) st (take i batches))
                      i b) batches))) ++
  (Of <$> test_events model loss_fn st'.1.1 testloader
                      (iter testloader (draws t).2)).

End Driver.
Arguments line : clear implicits.
Arguments Console : clear implicits.
Arguments D : clear implicits.

End Driver.

(** ** The class tables of the segmentation cells

    [exercise/ex3-object-detection.ipynb] names the classes of its two
    pretrained models in a list each and inverts the list into a dict,
    [{cls: idx for (idx, cls) in enumerate(classes)}], to find the score
    map of a class ([sem_class_to_idx['dog']]). *)

Module Classes.
Import Py.

(** [enumerate(l)]. *)
Definition enumerate {A} (l : list A) : list (nat * A) := imap pair l.

(** The dict comprehension: the bindings are made in list order, and a
    later binding of a key replaces the earlier one. *)
Definition class_to_idx (classes : list string) : gmap string nat :=
  foldl (λ d ic, <[ic.2 := ic.1]> d) ∅ (enumerate classes).

Definition sem_classes : list string :=
  ["__background__"; "aeroplane"; "bicycle"; "bird"; "boat"; "bottle"; "bus";
   "car"; "cat"; "chair"; "cow"; "diningtable"; "dog"; "horse"; "motorbike";
   "person"; "pottedplant"; "sheep"; "sofa"; "train"; "tvmonitor"].

Definition sem_class_to_idx : gmap string nat := class_to_idx sem_classes.

Definition inst_classes : list string :=
  ["__background__"; "person"; "bicycle"; "car"; "motorcycle"; "airplane"; "bus";
   "train"; "truck"; "boat"; "traffic light"; "fire hydrant"; "N/A"; "stop sign";
   "parking meter"; "bench"; "bird"; "cat"; "dog"; "horse"; "sheep"; "cow";
   "elephant"; "bear"; "zebra"; "giraffe"; "N/A"; "backpack"; "umbrella"; "N/A"; "N/A";
   "handbag"; "tie"; "suitcase"; "frisbee"; "skis"; "snowboard"; "sports ball";
   "kite"; "baseball bat"; "baseball glove"; "skateboard"; "surfboard"; "tennis racket";
   "bottle"; "N/A"; "wine glass"; "cup"; "fork"; "knife"; "spoon"; "bowl";
   "banana"; "apple"; "sandwich"; "orange"; "broccoli"; "carrot"; "hot dog"; "pizza";
   "donut"; "cake"; "chair"; "couch"; "potted plant"; "bed"; "N/A"; "dining table";
   "N/A"; "N/A"; "toilet"; "N/A"; "tv"; "laptop"; "mouse"; "remote"; "keyboard"; "cell phone";
   "microwave"; "oven"; "toaster"; "sink"; "refrigerator"; "N/A"; "book";
   "clock"; "vase"; "scissors"; "teddy bear"; "hair drier"; "toothbrush"].

Definition inst_class_to_idx : gmap string nat := class_to_idx inst_classes.

End Classes.
(** ** Concrete inputs used by the examples below *)

Module Fixtures.
Import Py PennFudan.

(** A directory with two images and a single mask file. *)
Definition fs_mismatch : FileSystem unit :=
  mkFS (λ dir,
          if decide (dir = "PennFudanPed/PNGImages") then Ok ["b.png"; "a.png"]
          else if decide (dir = "PennFudanPed/PedMasks") then Ok ["a_mask.png"]
          else Raise FileNotFoundError)
       (λ _, Ok ())
       (λ _, Ok [[0; 1; 1]; [0; 1; 1]]%N).

(** The same directory enumerated in two different orders. *)
Definition fs_order1 : FileSystem unit :=
  mkFS (λ dir,
          if decide (dir = "PennFudanPed/PNGImages") then Ok ["b.png"; "a.png"; "c.png"]
          else if decide (dir = "PennFudanPed/PedMasks")
               then Ok ["c_mask.png"; "a_mask.png"; "b_mask.png"]
          else Raise FileNotFoundError)
       (λ _, Ok ())
       (λ _, Ok [[0; 1; 1]; [0; 1; 1]]%N).

Definition fs_order2 : FileSystem unit :=
  mkFS (λ dir,
          if decide (dir = "PennFudanPed/PNGImages") then Ok ["c.png"; "a.png"; "b.png"]
          else if decide (dir = "PennFudanPed/PedMasks")
               then Ok ["a_mask.png"; "b_mask.png"; "c_mask.png"]
          else Raise FileNotFoundError)
       (λ _, Ok ())
       (λ _, Ok [[0; 1; 1]; [0; 1; 1]]%N).

(** A directory with one image; its mask has a background and two
    instances, each a single pixel wide. *)
Definition fs_single : FileSystem unit :=
  mkFS (λ dir,
          if decide (dir = "PennFudanPed/PNGImages") then Ok ["a.png"]
          else if decide (dir = "PennFudanPed/PedMasks") then Ok ["a_mask.png"]
          else Raise FileNotFoundError)
       (λ path,
          if decide (path = "PennFudanPed/PNGImages/a.png") then Ok ()
          else Raise FileNotFoundError)
       (λ path,
          if decide (path = "PennFudanPed/PedMasks/a_mask.png")
          then Ok [[0; 1; 2]]%N
          else Raise FileNotFoundError).

Definition ds_single : PennFudanDataset unit :=
  mkDataset "PennFudanPed" None ["a.png"] ["a_mask.png"].

(** The target served for the only sample of [ds_single] when it is
    requested as [dataset[idx]]. *)
Definition target_single (idx : Z) : Target :=
  mkTarget [mkBox 1 0 1 0; mkBox 2 0 2 0] [1; 1]
           [[[false; true; false]]; [[false; false; true]]]
           [idx] [0; 0] [0; 0].

(** Transform hooks: one converts the image and hands the target on,
    one relabels the instances, one drops them. *)
Definition hook_image (s : unit * Target) : unit * Target := ((), s.2).

Definition hook_relabel (s : unit * Target) : unit * Target :=
  (s.1, mkTarget (boxes s.2) ((λ _, 7) <$> labels s.2) (masks s.2)
                 (image_id s.2) (area s.2) (iscrowd s.2)).

Definition hook_drop (s : unit * Target) : unit * Target :=
  (s.1, mkTarget [] [] [] (image_id s.2) [] []).

Definition ds_image : PennFudanDataset unit :=
  mkDataset "PennFudanPed" (Some hook_image) ["a.png"] ["a_mask.png"].

Definition ds_relabel : PennFudanDataset unit :=
  mkDataset "PennFudanPed" (Some hook_relabel) ["a.png"] ["a_mask.png"].

Definition ds_drop : PennFudanDataset unit :=
  mkDataset "PennFudanPed" (Some hook_drop) ["a.png"] ["a_mask.png"].

(** One image whose mask has no background pixel: colours 1 and 2. *)
Definition fs_no_background : FileSystem unit :=
  mkFS (λ dir,
          if decide (dir = "PennFudanPed/PNGImages") then Ok ["a.png"]
          else if decide (dir = "PennFudanPed/PedMasks") then Ok ["a_mask.png"]
          else Raise FileNotFoundError)
       (λ _, Ok ())
       (λ _, Ok [[1; 2]]%N).

(** One image with two instances, three and two pixels wide. *)
Definition mask_street : Np.array2 N :=
  [[1; 1; 1; 0; 0]; [1; 1; 1; 2; 2]; [1; 1; 1; 2; 2]; [0; 0; 0; 2; 2]]%N.

Definition fs_street : FileSystem unit :=
  mkFS (λ dir,
          if decide (dir = "PennFudanPed/PNGImages") then Ok ["a.png"]
          else if decide (dir = "PennFudanPed/PedMasks") then Ok ["a_mask.png"]
          else Raise FileNotFoundError)
       (λ _, Ok ())
       (λ _, Ok mask_street).

Definition target_street : Target :=
  mkTarget [mkBox 0 0 2 2; mkBox 3 1 4 3] [1; 1]
           (Np.eq_broadcast mask_street [1; 2]%N)
           [0] [4; 2] [0; 0].

(** One image of 4098 rows and 4100 columns whose only instance has a
    pixel in the first row and column and one in the last. *)
Definition mask_big : Np.array2 N :=
  ([1%N :: replicate 4099 0%N] ++ replicate 4096 (replicate 4100 0%N))
  ++ [replicate 4099 0%N ++ [1%N]].

Definition fs_big : FileSystem unit :=
  mkFS (λ dir,
          if decide (dir = "PennFudanPed/PNGImages") then Ok ["a.png"]
          else if decide (dir = "PennFudanPed/PedMasks") then Ok ["a_mask.png"]
          else Raise FileNotFoundError)
       (λ _, Ok ())
       (λ _, Ok mask_big).

(** A dataset of 52 samples and the permutation 51, 50, ..., 0 of its
    indices. *)
Definition ds52 : PennFudanDataset unit :=
  mkDataset "PennFudanPed" None (replicate 52 "a.png") (replicate 52 "a_mask.png").

Definition indices52 : list Z := Z.of_nat <$> reverse (seq 0 52).

(** *** A small classifier over rational arithmetic *)

Import Harness.

#[global] Instance arith_Q : Arith Q :=
  {| of_nat := λ n, inject_Z (Z.of_nat n);
     add := Qplus; mul := Qmult; div := Qdiv;
     ltb := λ a b, negb (Qle_bool b a) |}.

(** A prediction is the batch of inputs itself; input [x] scores 0 for
    class 0 and [x] for class 1.  The loss of a batch is the mean of its
    labels; gradients carry no information. *)
#[global] Instance autograd_toy : Autograd Q unit (list nat) Q :=
  {| logits := λ pred : list nat, (λ x : nat, (of_nat 0, [of_nat x])) <$> pred;
     item := λ l : Q, l;
     gradient := λ _, ();
     zero := ();
     accumulate := λ _ _, () |}.

Definition model_toy : Model nat nat (list nat) := mkModel (λ _ _ X_, X_).

Definition loss_toy : Objective (list nat) Q :=
  mkObjective (λ _ y, div (of_nat (sum_list y)) (of_nat (length y))).

(** The optimizer counts its steps in the parameter. *)
Definition optimizer_toy : Optimizer nat unit unit :=
  mkOptimizer (λ o p _, (S p, o)).

Definition world0 : World Q nat unit unit := mkWorld 7%nat () () true [].

(** Three samples in batches of two. *)
Definition loader3 (sh : bool) : DataLoader nat :=
  mkDataLoader [(0, 0); (1, 1); (2, 3)]%nat 2 sh.

(** A loader over an empty dataset. *)
Definition loader0 : DataLoader nat := mkDataLoader [] 2 false.

(** 601 samples in batches of two: batch number 300 holds one sample. *)
Definition loader601 : DataLoader nat :=
  mkDataLoader ((λ i, (i, 0%nat)) <$> seq 0 601) 2 false.

End Fixtures.

(** ** Further concrete inputs *)

Module MoreFixtures.
Import Py PennFudan.

(** A 3 x 4 mask image with background and the instances 3 and 5. *)
Definition mask34 : Np.array2 N :=
  [[0; 3; 3; 0]; [0; 3; 5; 5]; [0; 0; 5; 0]]%N.

(** A mask image without background pixels: colours 1, 2 and 4. *)
Definition mask_no_background : Np.array2 N := [[1; 2]; [4; 2]]%N.

(** A directory with one image whose mask shows no pedestrian. *)
Definition fs_blank : FileSystem unit :=
  mkFS (λ dir,
          if decide (dir = "PennFudanPed/PNGImages") then Ok ["a.png"]
          else if decide (dir = "PennFudanPed/PedMasks") then Ok ["a_mask.png"]
          else Raise FileNotFoundError)
       (λ _, Ok ())
       (λ _, Ok [[0; 0]; [0; 0]]%N).

(** Two photographs, the stem of one beginning with the stem of the
    other. *)
Definition fs_prefixed : FileSystem unit :=
  mkFS (λ dir,
          if decide (dir = "PennFudanPed/PNGImages") then Ok ["a.png"; "a_b.png"]
          else if decide (dir = "PennFudanPed/PedMasks")
               then Ok ["a_mask.png"; "a_b_mask.png"]
          else Raise FileNotFoundError)
       (λ _, Ok ())
       (λ _, Ok [[0; 1]]%N).

(** Two photographs with the stems of the database. *)
Definition fs_pennfudan : FileSystem unit :=
  mkFS (λ dir,
          if decide (dir = "PennFudanPed/PNGImages")
          then Ok ["PennPed00001.png"; "FudanPed00001.png"]
          else if decide (dir = "PennFudanPed/PedMasks")
               then Ok ["FudanPed00001_mask.png"; "PennPed00001_mask.png"]
          else Raise FileNotFoundError)
       (λ _, Ok ())
       (λ _, Ok [[0; 1]]%N).

(** *** Consoles and loaders for the driver cells *)

Import Harness Driver Fixtures.

(** An empty console around the toy world, in training mode and in
    evaluation mode. *)
Definition console0 : Console Q nat unit unit := mkConsole world0 [].

Definition console_eval : Console Q nat unit unit :=
  mkConsole (mkWorld 7%nat () () false []) [].

(** A thousand samples in batches of one. *)
Definition loader1000 : DataLoader nat :=
  mkDataLoader ((λ i, (i, 0%nat)) <$> seq 0 1000) 1 false.

(** The loaders above do not shuffle: no permutation is drawn. *)
Definition no_draws : nat → list nat * list nat := λ _, ([], []).

Definition no_vdraws : nat → list nat * (nat → list nat) :=
  λ _, ([], λ _, []).

End MoreFixtures.
(** * Properties *)

(** ** Facts about the Python runtime model *)

Module PyFacts.
Import Py.

Lemma compare_lt_trans s1 s2 s3 :
  String.compare s1 s2 = Lt → String.compare s2 s3 = Lt →
  String.compare s1 s3 = Lt.
Proof.
  intros H12 H23.
  apply String_as_OT.cmp_lt in H12, H23. apply String_as_OT.cmp_lt.
  eapply String_as_OT.lt_trans; eauto.
Qed.

#[global] Instance str_le_total : Total str_le.
Proof. intros s1 s2. apply String.leb_total. Qed.

#[global] Instance str_le_antisymm : AntiSymm (=) str_le.
Proof. intros s1 s2. apply String.leb_antisym. Qed.

#[global] Instance str_le_trans : Transitive str_le.
Proof.
  intros s1 s2 s3. unfold str_le, String.leb.
  destruct (String.compare s1 s2) eqn:H12; [| |discriminate];
    destruct (String.compare s2 s3) eqn:H23; try discriminate; intros _ _.
  - apply String.compare_eq_iff in H12 as ->. by rewrite H23.
  - apply String.compare_eq_iff in H12 as ->. by rewrite H23.
  - apply String.compare_eq_iff in H23 as <-. by rewrite H12.
  - by rewrite (compare_lt_trans _ _ _ H12 H23).
Qed.

Lemma sorted_Permutation l : sorted l ≡ₚ l.
Proof. apply merge_sort_Permutation. Qed.

Lemma sorted_StronglySorted l : StronglySorted str_le (sorted l).
Proof. apply StronglySorted_merge_sort; apply _. Qed.

(** The sorted list does not depend on the order of enumeration. *)
Lemma sorted_order_irrelevant l1 l2 : l1 ≡ₚ l2 → sorted l1 = sorted l2.
Proof.
  intros Hp. apply (StronglySorted_unique str_le);
    auto using sorted_StronglySorted.
  by rewrite !sorted_Permutation.
Qed.

Lemma length_sorted l : length (sorted l) = length l.
Proof. by rewrite sorted_Permutation. Qed.

(** *** List indexing *)

Lemma index_nonneg {A} (l : list A) (i : Z) x :
  0 ≤ i → l !! Z.to_nat i = Some x → index l i = Ok x.
Proof.
  intros Hi Hx. unfold index. cbv zeta.
  apply lookup_lt_Some in Hx as Hlt.
  repeat case_decide; try lia. by rewrite Hx.
Qed.

Lemma index_negative {A} (l : list A) (i : Z) x :
  i < 0 → 0 ≤ i + Z.of_nat (length l) →
  l !! Z.to_nat (i + Z.of_nat (length l)) = Some x → index l i = Ok x.
Proof.
  intros Hi Hn Hx. unfold index. cbv zeta.
  apply lookup_lt_Some in Hx as Hlt.
  repeat case_decide; try lia. by rewrite Hx.
Qed.

Lemma index_out_of_range {A} (l : list A) (i : Z) :
  i < - Z.of_nat (length l) ∨ Z.of_nat (length l) ≤ i →
  index l i = Raise IndexError.
Proof.
  intros Hi. unfold index. cbv zeta.
  repeat case_decide; try lia; done.
Qed.

Lemma index_in_range {A} (l : list A) (i : Z) :
  - Z.of_nat (length l) ≤ i < Z.of_nat (length l) →
  ∃ x, index l i = Ok x ∧
       l !! Z.to_nat (i `mod` Z.of_nat (length l)) = Some x.
Proof.
  intros Hi.
  destruct (decide (i < 0)) as [Hneg|Hpos].
  - assert (i `mod` Z.of_nat (length l) = i + Z.of_nat (length l)) as ->.
    { symmetry. apply Z.mod_unique_pos with (q := -1); lia. }
    destruct (lookup_lt_is_Some_2 l (Z.to_nat (i + Z.of_nat (length l))))
      as [x Hx]; [lia|].
    exists x. split; [|done]. apply index_negative; auto; lia.
  - rewrite Z.mod_small by lia.
    destruct (lookup_lt_is_Some_2 l (Z.to_nat i)) as [x Hx]; [lia|].
    exists x. split; [|done]. apply index_nonneg; auto; lia.
Qed.

(** *** Slices *)

Lemma slice_to_from {A} (l : list A) (k : Z) :
  slice_to l k ++ slice_from l k = l.
Proof. apply take_drop. Qed.

End PyFacts.

(** ** Facts about the array primitives *)

Module NpFacts.
Import Py.

(** *** [np.where] *)

Lemma elem_of_where_row r c0 row p :
  p ∈ Np.where_row r c0 row ↔
  ∃ c : nat, p = (r, (c0 + c)%nat) ∧ row !! c = Some true.
Proof.
  revert c0. induction row as [|b row IH]; intros c0; cbn [Np.where_row].
  - rewrite elem_of_nil. split; [done|]. by intros (c & _ & ?).
  - rewrite elem_of_app, IH. split.
    + intros [Hb|(c & -> & Hc)].
      * destruct b; [|by apply elem_of_nil in Hb].
        apply list_elem_of_singleton in Hb as ->.
        exists 0%nat. by rewrite Nat.add_0_r.
      * exists (S c). split; [f_equal; lia|done].
    + intros ([|c] & -> & Hc); cbn in Hc.
      * left. simplify_eq. rewrite Nat.add_0_r. by apply list_elem_of_singleton.
      * right. exists c. split; [f_equal; lia|done].
Qed.

Lemma elem_of_where_rows r0 (m : Np.array2 bool) p :
  p ∈ Np.where_rows r0 m ↔
  ∃ r c row, p = ((r0 + r)%nat, c) ∧ m !! r = Some row ∧ row !! c = Some true.
Proof.
  revert r0. induction m as [|row m IH]; intros r0; cbn [Np.where_rows].
  - rewrite elem_of_nil. split; [done|]. by intros (r & c & row & _ & ? & _).
  - rewrite elem_of_app, elem_of_where_row, IH. split.
    + intros [(c & -> & Hc)|(r & c & row' & -> & Hr & Hc)].
      * exists 0%nat, c, row. by rewrite Nat.add_0_r.
      * exists (S r), c, row'. split; [f_equal; lia|done].
    + intros ([|r] & c & row' & -> & Hr & Hc); cbn in Hr.
      * left. simplify_eq. exists c. by rewrite Nat.add_0_r.
      * right. exists r, c, row'. split; [f_equal; lia|done].
Qed.

Lemma elem_of_where_rows_pixel (m : Np.array2 bool) r c :
  (r, c) ∈ Np.where_rows 0 m ↔ PennFudan.pixel m r c.
Proof.
  rewrite elem_of_where_rows. unfold PennFudan.pixel. split.
  - intros (r' & c' & row & Heq & Hr & Hc). simplify_eq. eauto.
  - intros (row & Hr & Hc). by exists r, c, row.
Qed.

Lemma where_rows_nil_degenerate (m : Np.array2 bool) :
  Np.where_rows 0 m = [] ↔ PennFudan.degenerate m.
Proof.
  unfold PennFudan.degenerate. split.
  - intros Hnil r c Hp. apply elem_of_where_rows_pixel in Hp.
    rewrite Hnil in Hp. by apply elem_of_nil in Hp.
  - intros Hd. apply elem_of_nil_inv. intros [r c] Hp.
    by apply elem_of_where_rows_pixel, Hd in Hp.
Qed.

(** *** [np.min], [np.max] *)

Lemma foldl_min_spec l x :
  foldl Z.min x l ∈ x :: l ∧ ∀ y, y ∈ x :: l → foldl Z.min x l ≤ y.
Proof.
  revert x. induction l as [|z l IH]; intros x; cbn [foldl].
  - split; [left|]. intros y ->%list_elem_of_singleton. lia.
  - destruct (IH (Z.min x z)) as [Hin Hle]. split.
    + apply elem_of_cons in Hin as [Heq|Hin].
      * rewrite Heq. destruct (Z.min_spec x z) as [[_ ->]|[_ ->]];
          [left|right; left].
      * by do 2 right.
    + intros y Hy. rewrite !elem_of_cons in Hy.
      destruct Hy as [->|[->|Hy]].
      * etrans; [apply Hle; left|]. lia.
      * etrans; [apply Hle; left|]. lia.
      * apply Hle. by right.
Qed.

Lemma foldl_max_spec l x :
  foldl Z.max x l ∈ x :: l ∧ ∀ y, y ∈ x :: l → y ≤ foldl Z.max x l.
Proof.
  revert x. induction l as [|z l IH]; intros x; cbn [foldl].
  - split; [left|]. intros y ->%list_elem_of_singleton. lia.
  - destruct (IH (Z.max x z)) as [Hin Hle]. split.
    + apply elem_of_cons in Hin as [Heq|Hin].
      * rewrite Heq. destruct (Z.max_spec x z) as [[_ ->]|[_ ->]];
          [right; left|left].
      * by do 2 right.
    + intros y Hy. rewrite !elem_of_cons in Hy.
      destruct Hy as [->|[->|Hy]].
      * etrans; [|apply Hle; left]. lia.
      * etrans; [|apply Hle; left]. lia.
      * apply Hle. by right.
Qed.

Lemma min_Ok l v : Np.min l = Ok v → v ∈ l ∧ ∀ y, y ∈ l → v ≤ y.
Proof.
  destruct l as [|x l]; [done|]. intros [= <-]. apply foldl_min_spec.
Qed.

Lemma max_Ok l v : Np.max l = Ok v → v ∈ l ∧ ∀ y, y ∈ l → y ≤ v.
Proof.
  destruct l as [|x l]; [done|]. intros [= <-]. apply foldl_max_spec.
Qed.

Lemma min_is_Ok l : l ≠ [] → ∃ v, Np.min l = Ok v.
Proof. destruct l; [done|]. intros _. by eexists. Qed.

Lemma max_is_Ok l : l ≠ [] → ∃ v, Np.max l = Ok v.
Proof. destruct l; [done|]. intros _. by eexists. Qed.

(** *** [np.unique] *)

Lemma elem_of_keep_changes_iff prev l x :
  StronglySorted N.le (prev :: l) →
  x ∈ Np.keep_changes prev l ↔ x ∈ l ∧ x ≠ prev.
Proof.
  revert prev. induction l as [|y l IH]; intros prev Hs; cbn [Np.keep_changes].
  - rewrite !elem_of_nil. tauto.
  - apply StronglySorted_inv in Hs as [Hs Hprev].
    apply StronglySorted_inv in Hs as Hs'. destruct Hs' as [Hl Hy].
    assert (StronglySorted N.le (prev :: l)) as Hs2.
    { constructor; [done|]. by inversion Hprev. }
    case_decide as Heq.
    + subst y. rewrite IH by done. rewrite elem_of_cons. tauto.
    + rewrite !elem_of_cons, IH by done. split.
      * intros [->|[Hx Hne]]; [auto|]. split; [auto|].
        intros ->. inversion Hprev as [|?? Hle _]; subst.
        rewrite Forall_forall in Hy. specialize (Hy _ Hx). lia.
      * intros [[->|Hx] Hne]; [auto|].
        destruct (decide (x = y)); auto.
Qed.

Lemma keep_changes_sorted prev l :
  StronglySorted N.le (prev :: l) →
  StronglySorted N.lt (prev :: Np.keep_changes prev l).
Proof.
  revert prev. induction l as [|y l IH]; intros prev Hs; cbn [Np.keep_changes].
  - repeat constructor.
  - apply StronglySorted_inv in Hs as [Hs Hprev].
    apply StronglySorted_inv in Hs as Hs'. destruct Hs' as [Hl Hy].
    inversion Hprev as [|?? Hle Hprev']; subst.
    case_decide as Heq.
    + subst y. apply IH. by constructor.
    + specialize (IH y Hs). constructor; [done|].
      apply Forall_cons. split; [lia|].
      apply StronglySorted_inv in IH as [_ IH].
      eapply Forall_impl; [exact IH|]. cbn. lia.
Qed.

Lemma unique_sorted_spec l :
  StronglySorted N.le l →
  StronglySorted N.lt (Np.unique_sorted l) ∧
  ∀ x, x ∈ Np.unique_sorted l ↔ x ∈ l.
Proof.
  destruct l as [|y l]; intros Hs; cbn [Np.unique_sorted].
  - split; [constructor|done].
  - split; [by apply keep_changes_sorted|].
    intros x. rewrite !elem_of_cons, elem_of_keep_changes_iff by done.
    destruct (decide (x = y)); tauto.
Qed.

#[local] Instance N_le_total : Total N.le.
Proof. intros x y. lia. Qed.

Lemma unique_sorted_lt (a : Np.array2 N) : StronglySorted N.lt (Np.unique a).
Proof.
  apply unique_sorted_spec, StronglySorted_merge_sort; apply _.
Qed.

Lemma elem_of_unique (a : Np.array2 N) x : x ∈ Np.unique a ↔ x ∈ mjoin a.
Proof.
  unfold Np.unique.
  rewrite (proj2 (unique_sorted_spec _
             (StronglySorted_merge_sort N.le (mjoin a)))).
  by rewrite merge_sort_Permutation.
Qed.

Lemma StronglySorted_lt_NoDup l : StronglySorted N.lt l → NoDup l.
Proof.
  induction 1 as [|x l Hs IH Hx]; constructor; [|done].
  intros Hin. rewrite Forall_forall in Hx. specialize (Hx _ Hin). lia.
Qed.

Lemma NoDup_unique (a : Np.array2 N) : NoDup (Np.unique a).
Proof. apply StronglySorted_lt_NoDup, unique_sorted_lt. Qed.

(** With background pixels present, the first id is 0 and the others
    are exactly the non-background colours. *)
Lemma unique_with_background (mask : Np.array2 N) :
  0%N ∈ mjoin mask →
  ∃ ids, Np.unique mask = 0%N :: ids ∧ ids ≡ₚ PennFudan.nonbg_colors mask.
Proof.
  intros H0. pose proof (unique_sorted_lt mask) as Hs.
  pose proof (NoDup_unique mask) as Hnd.
  pose proof (elem_of_unique mask) as Hel.
  revert Hs Hnd Hel. generalize (Np.unique mask). intros [|x ids] Hs Hnd Hel;
    [by apply (proj2 (Hel 0%N)), elem_of_nil in H0|].
  apply StronglySorted_inv in Hs as [Hs Hx]. rewrite Forall_forall in Hx.
  assert (x = 0%N) as ->.
  { apply (proj2 (Hel 0%N)) in H0.
    apply elem_of_cons in H0 as [Heq|H0]; [done|].
    specialize (Hx _ H0). lia. }
  exists ids. split; [done|].
  apply NoDup_cons in Hnd as [Hx0 Hnd].
  apply NoDup_Permutation; [done|apply NoDup_remove_dups|].
  intros v. unfold PennFudan.nonbg_colors.
  rewrite elem_of_remove_dups, list_elem_of_filter, <- Hel, elem_of_cons.
  split.
  - intros Hv. split; [|by right]. specialize (Hx _ Hv). lia.
  - by intros [Hne [->|Hv]].
Qed.

(** *** Broadcast equality *)

Lemma pixel_eq_scalar (a : Np.array2 N) id r c :
  PennFudan.pixel (Np.eq_scalar a id) r c ↔
  ∃ row, a !! r = Some row ∧ row !! c = Some id.
Proof.
  unfold PennFudan.pixel, Np.eq_scalar. split.
  - intros (brow & Hr & Hc).
    apply list_lookup_fmap_Some in Hr as (row & -> & Hrow).
    apply list_lookup_fmap_Some in Hc as (v & Hb & Hv).
    exists row. split; [done|].
    symmetry in Hb. apply bool_decide_eq_true in Hb. by subst.
  - intros (row & Hr & Hc). eexists. split.
    + rewrite list_lookup_fmap, Hr. done.
    + rewrite list_lookup_fmap, Hc. cbn. by rewrite bool_decide_eq_true_2.
Qed.

Lemma eq_scalar_has_pixel (a : Np.array2 N) id :
  id ∈ mjoin a ↔ ∃ r c, PennFudan.pixel (Np.eq_scalar a id) r c.
Proof.
  rewrite list_elem_of_join. split.
  - intros (row & Hid & Hrow).
    apply list_elem_of_lookup in Hid as [c Hc].
    apply list_elem_of_lookup in Hrow as [r Hr].
    exists r, c. apply pixel_eq_scalar. eauto.
  - intros (r & c & (row & Hr & Hc)%pixel_eq_scalar).
    exists row. eauto using list_elem_of_lookup_2.
Qed.

End NpFacts.

(** * Facts about float32 rounding of whole numbers *)

Module Float32Facts.
Import Float32.

Lemma round_small z : Z.abs z ≤ 2 ^ 24 → round z = z.
Proof.
  intros Hz. unfold round. cbn zeta. case_decide as Hlt; [done|].
  assert (Z.abs z = 2 ^ 24) as Ha by lia. rewrite Ha.
  change (Z.log2 (2 ^ 24) - 23) with 1. change (2 ^ 1) with 2.
  change (2 ^ 24 / 2) with (2 ^ 23). change (2 ^ 24 `mod` 2) with 0.
  cbn [decide]. rewrite decide_True by lia.
  destruct (Z.abs_spec z) as [[? Hz']|[? Hz']]; rewrite Hz' in Ha.
  - subst z. reflexivity.
  - assert (z = - 2 ^ 24) as -> by lia. reflexivity.
Qed.

(** The anatomy of a number that does not fit: its unit in the last
    place [u], its 24-bit significand [q] and the remainder [r]. *)
Lemma round_large a :
  2 ^ 24 ≤ a →
  ∃ u q r,
    0 < u ∧ a = q * u + r ∧ 0 ≤ r < u ∧ 2 ^ 23 ≤ q < 2 ^ 24 ∧
    2 ^ Z.log2 a = 2 ^ 23 * u ∧
    round a = (if decide (2 * r < u) then q
               else if decide (u < 2 * r) then q + 1
               else if Z.even q then q else q + 1) * u.
Proof.
  intros Ha. assert (0 < a) as Hpos by lia.
  pose proof (Z.log2_spec a Hpos) as [Hlo Hhi].
  assert (24 ≤ Z.log2 a) as He.
  { change 24 with (Z.log2 (2 ^ 24)). by apply Z.log2_le_mono. }
  set (e := Z.log2 a) in *. set (u := 2 ^ (e - 23)).
  assert (0 < u) as Hu by (apply Z.pow_pos_nonneg; lia).
  assert (2 ^ e = 2 ^ 23 * u) as Hpow.
  { unfold u. rewrite <- Z.pow_add_r by lia. f_equal. lia. }
  assert (2 ^ Z.succ e = 2 ^ 24 * u) as Hpow'.
  { unfold u. rewrite <- Z.pow_add_r by lia. f_equal. lia. }
  exists u, (a / u), (a `mod` u).
  pose proof (Z.div_mod a u ltac:(lia)) as Hdm.
  pose proof (Z.mod_pos_bound a u Hu) as Hr.
  split; [done|]. split; [lia|]. split; [done|]. split; [nia|].
  split; [done|].
  unfold round. cbn zeta. rewrite Z.abs_eq by lia.
  rewrite decide_False by lia. fold e. fold u.
  rewrite Z.sgn_pos by done. lia.
Qed.

Lemma round_nonneg z : 0 ≤ z → 0 ≤ round z.
Proof.
  intros Hz. destruct (decide (z ≤ 2 ^ 24)) as [Hs|Hl].
  - rewrite round_small by lia. done.
  - destruct (round_large z) as (u & q & r & Hu & _ & _ & Hq & _ & ->); [lia|].
    repeat case_decide; destruct (Z.even q); nia.
Qed.

(** Between the powers of two that enclose it, a number is rounded to
    a number between them. *)
Lemma round_large_bounds a :
  2 ^ 24 ≤ a → 2 ^ Z.log2 a ≤ round a ≤ 2 * 2 ^ Z.log2 a.
Proof.
  intros Ha.
  destruct (round_large a Ha) as (u & q & r & Hu & _ & _ & Hq & -> & ->).
  repeat case_decide; destruct (Z.even q); nia.
Qed.

Lemma round_mono a b : 0 ≤ a → a ≤ b → round a ≤ round b.
Proof.
  intros Ha Hab.
  destruct (decide (b ≤ 2 ^ 24)) as [Hb|Hb].
  { rewrite !round_small by lia. done. }
  pose proof (round_large_bounds b ltac:(lia)) as [Hblo Hbhi].
  assert (24 ≤ Z.log2 b) as Heb.
  { change 24 with (Z.log2 (2 ^ 24)). apply Z.log2_le_mono. lia. }
  destruct (decide (a ≤ 2 ^ 24)) as [Ha'|Ha'].
  { rewrite (round_small a) by lia.
    assert (2 ^ 24 ≤ 2 ^ Z.log2 b) by (apply Z.pow_le_mono_r; lia). lia. }
  pose proof (round_large_bounds a ltac:(lia)) as [Halo Hahi].
  pose proof (Z.log2_le_mono a b Hab) as Hle.
  destruct (decide (Z.log2 a = Z.log2 b)) as [Heq|Hne].
  - destruct (round_large a ltac:(lia))
      as (u & q & r & Hu & Hqa & Hr & Hq & Hpa & ->).
    destruct (round_large b ltac:(lia))
      as (u' & q' & r' & Hu' & Hqb & Hr' & Hq' & Hpb & ->).
    rewrite Heq, Hpb in Hpa. assert (u' = u) as -> by lia.
    assert (q ≤ q') as Hqq by nia.
    destruct (decide (q = q')) as [<-|Hlt].
    + assert (r ≤ r') by nia.
      repeat case_decide; destruct (Z.even q); nia.
    + repeat case_decide; destruct (Z.even q), (Z.even q'); nia.
  - assert (2 * 2 ^ Z.log2 a ≤ 2 ^ Z.log2 b); [|lia].
    rewrite <- Z.pow_succ_r by (pose proof (Z.log2_nonneg a); lia).
    apply Z.pow_le_mono_r; lia.
Qed.

(** Rounding up adds at most half a unit in the last place, which is
    at most the 2^24-th part of the number. *)
Lemma round_excess a : 0 ≤ a → 2 ^ 24 * (round a - a) ≤ a.
Proof.
  intros Ha. destruct (decide (a ≤ 2 ^ 24)) as [Hs|Hl].
  { rewrite round_small by lia. lia. }
  destruct (round_large a ltac:(lia))
    as (u & q & r & Hu & Hqa & Hr & Hq & _ & ->).
  repeat case_decide; destruct (Z.even q); nia.
Qed.

Lemma sub_exact a b : Z.abs (a - b) ≤ 2 ^ 24 → sub a b = a - b.
Proof. apply round_small. Qed.

Lemma mul_exact a b : Z.abs (a * b) ≤ 2 ^ 24 → mul a b = a * b.
Proof. apply round_small. Qed.

(** The product of two differences of whole numbers, each taken the
    right way round, is computed exactly when it is at most 2^24. *)
Lemma area_exact dy dx :
  0 ≤ dy → 0 ≤ dx → dy * dx ≤ 2 ^ 24 →
  mul (round dy) (round dx) = dy * dx.
Proof.
  intros Hy Hx Hp.
  destruct (decide (dy = 0)) as [->|Hy0].
  { rewrite (round_small 0) by (cbn; lia). unfold mul.
    rewrite !Z.mul_0_l. by apply round_small. }
  destruct (decide (dx = 0)) as [->|Hx0].
  { rewrite (round_small 0) by (cbn; lia). unfold mul.
    rewrite !Z.mul_0_r. by apply round_small. }
  rewrite (round_small dy), (round_small dx) by (rewrite Z.abs_eq; nia).
  apply mul_exact. rewrite Z.abs_eq; nia.
Qed.

(** 4097 * 4099 is odd and above 2^24: float32 does not hold it. *)
Example mul_rounds : mul 4097 4099 = 16793604 ∧ 4097 * 4099 = 16793603.
Proof. split; reflexivity. Qed.

End Float32Facts.

(** ** The dataset adapter *)

Module PennFudanFacts.
Import Py PyFacts PennFudan NpFacts Float32Facts.

(** *** Bounding boxes *)

Lemma bounding_box_degenerate m :
  degenerate m → bounding_box m = Raise ValueError.
Proof.
  intros Hd%where_rows_nil_degenerate. unfold bounding_box, Np.where_.
  by rewrite Hd.
Qed.

Lemma bounding_box_tight m :
  ¬ degenerate m → ∃ b, bounding_box m = Ok b ∧ tight_box m b.
Proof.
  intros Hd. rewrite <- where_rows_nil_degenerate in Hd.
  unfold bounding_box, Np.where_. cbn [fst snd].
  set (ps := Np.where_rows 0 m) in *.
  set (rows := (λ p : nat * nat, Z.of_nat p.1) <$> ps).
  set (cols := (λ p : nat * nat, Z.of_nat p.2) <$> ps).
  assert (rows ≠ []) as Hrows by (subst rows; by destruct ps).
  assert (cols ≠ []) as Hcols by (subst cols; by destruct ps).
  destruct (min_is_Ok cols Hcols) as [x0 Hx0].
  destruct (max_is_Ok cols Hcols) as [x1 Hx1].
  destruct (min_is_Ok rows Hrows) as [y0 Hy0].
  destruct (max_is_Ok rows Hrows) as [y1 Hy1].
  rewrite Hx0, Hx1, Hy0, Hy1. cbn. eexists. split; [done|].
  apply min_Ok in Hx0 as [Hx0 Hx0le], Hy0 as [Hy0 Hy0le].
  apply max_Ok in Hx1 as [Hx1 Hx1le], Hy1 as [Hy1 Hy1le].
  assert (∀ v, v ∈ cols → ∃ r c, pixel m r c ∧ v = Z.of_nat c) as Hc.
  { intros v (p & -> & Hp)%list_elem_of_fmap. destruct p as [r c].
    exists r, c. split; [by apply elem_of_where_rows_pixel|done]. }
  assert (∀ v, v ∈ rows → ∃ r c, pixel m r c ∧ v = Z.of_nat r) as Hr.
  { intros v (p & -> & Hp)%list_elem_of_fmap. destruct p as [r c].
    exists r, c. split; [by apply elem_of_where_rows_pixel|done]. }
  unfold tight_box. cbn [xmin xmax ymin ymax].
  split; [by apply Hc|]. split; [by apply Hc|].
  split; [by apply Hr|]. split; [by apply Hr|].
  intros r c Hp%elem_of_where_rows_pixel.
  pose proof (list_elem_of_fmap_2 (λ p : nat * nat, Z.of_nat p.2) _ _ Hp) as Hcol.
  pose proof (list_elem_of_fmap_2 (λ p : nat * nat, Z.of_nat p.1) _ _ Hp) as Hrow.
  cbn [fst snd] in Hcol, Hrow. auto.
Qed.

Lemma degenerate_dec m : degenerate m ∨ ¬ degenerate m.
Proof.
  rewrite <- where_rows_nil_degenerate.
  destruct (Np.where_rows 0 m); [by left|by right].
Qed.

Lemma tight_box_ordered m b :
  tight_box m b → xmin b ≤ xmax b ∧ ymin b ≤ ymax b.
Proof.
  intros ((r & c & Hp & _) & _ & _ & _ & Hall).
  specialize (Hall _ _ Hp). lia.
Qed.


Lemma get_boxes_Ok ms bs :
  get_boxes ms = Ok bs → Forall2 tight_box ms bs.
Proof.
  revert bs. induction ms as [|m ms IH]; intros bs; cbn [get_boxes].
  - intros [= <-]. constructor.
  - destruct (degenerate_dec m) as [Hd|Hd].
    + by rewrite bounding_box_degenerate.
    + destruct (bounding_box_tight m Hd) as (b & -> & Hb). cbn.
      destruct (get_boxes ms) as [bs'|e]; [|done]. cbn.
      intros [= <-]. constructor; auto.
Qed.

Lemma get_boxes_is_Ok ms :
  Forall (λ m, ¬ degenerate m) ms → ∃ bs, get_boxes ms = Ok bs.
Proof.
  induction 1 as [|m ms Hd _ [bs IH]]; cbn [get_boxes]; [by eexists|].
  destruct (bounding_box_tight m Hd) as (b & -> & _). cbn.
  rewrite IH. cbn. by eexists.
Qed.

(** *** The target dictionary *)

Lemma area_columns bs :
  zip_with Float32.mul (zip_with Float32.sub (ymax <$> bs) (ymin <$> bs))
                       (zip_with Float32.sub (xmax <$> bs) (xmin <$> bs))
  = box_area <$> bs.
Proof. induction bs as [|b bs IH]; [done|]. cbn. by rewrite IH. Qed.

(** *** Boxes as float32 rows *)

Lemma tight_box_nonneg m b :
  tight_box m b → 0 ≤ xmin b ∧ 0 ≤ ymin b.
Proof.
  intros ((r1 & c1 & _ & E1) & _ & (r3 & c3 & _ & E3) & _). lia.
Qed.

(** Rounding keeps the sides of a box in order. *)
Lemma as_float32_ordered m b :
  tight_box m b →
  0 ≤ xmin (as_float32 b) ∧ xmin (as_float32 b) ≤ xmax (as_float32 b) ∧
  0 ≤ ymin (as_float32 b) ∧ ymin (as_float32 b) ≤ ymax (as_float32 b).
Proof.
  intros Ht. pose proof (tight_box_nonneg _ _ Ht) as [Hx0 Hy0].
  pose proof (tight_box_ordered _ _ Ht) as [Hx Hy].
  unfold as_float32. cbn [xmin xmax ymin ymax].
  auto using round_nonneg, round_mono.
Qed.

(** A box within 2^24 rows and columns is held exactly. *)
Lemma as_float32_exact b :
  0 ≤ xmin b → xmax b ≤ 2 ^ 24 → xmin b ≤ xmax b →
  0 ≤ ymin b → ymax b ≤ 2 ^ 24 → ymin b ≤ ymax b →
  as_float32 b = b.
Proof.
  intros. destruct b as [x0 y0 x1 y1]. cbn in *. unfold as_float32.
  cbn [xmin xmax ymin ymax].
  rewrite !round_small by (rewrite Z.abs_eq; lia). done.
Qed.

(** The area of a row whose sides are in order is the exact product
    when that is at most 2^24. *)
Lemma box_area_exact b :
  xmin b ≤ xmax b → ymin b ≤ ymax b →
  (ymax b - ymin b) * (xmax b - xmin b) ≤ 2 ^ 24 →
  box_area b = (ymax b - ymin b) * (xmax b - xmin b).
Proof.
  intros Hx Hy Hp. unfold box_area, Float32.sub.
  apply area_exact; lia.
Qed.

Lemma target_of_ids_Ok idx mask ids tgt :
  target_of_ids idx mask ids = Ok tgt →
  ids ≠ [] ∧
  masks tgt = Np.eq_scalar mask <$> ids ∧
  (∃ bs, Forall2 tight_box (masks tgt) bs ∧ boxes tgt = as_float32 <$> bs) ∧
  labels tgt = replicate (length ids) 1 ∧
  iscrowd tgt = replicate (length ids) 0 ∧
  image_id tgt = [idx] ∧
  area tgt = box_area <$> boxes tgt.
Proof.
  unfold target_of_ids.
  destruct (get_boxes (Np.eq_broadcast mask ids)) as [bs|e] eqn:Hbs; [|done].
  apply get_boxes_Ok in Hbs. cbn.
  destruct bs as [|b bs]; [done|]. cbn. intros [= <-]. cbn.
  repeat split; auto.
  - intros ->. inversion Hbs.
  - by exists (b :: bs).
  - f_equal. apply area_columns.
Qed.

Lemma target_of_ids_is_Ok idx mask ids :
  ids ≠ [] → (∀ id, id ∈ ids → id ∈ mjoin mask) →
  ∃ tgt, target_of_ids idx mask ids = Ok tgt.
Proof.
  intros Hne Hin. unfold target_of_ids.
  destruct (get_boxes_is_Ok (Np.eq_broadcast mask ids)) as [bs Hbs].
  { apply Forall_fmap, Forall_forall. intros id Hid. cbn.
    apply Hin, eq_scalar_has_pixel in Hid as (r & c & Hp).
    intros Hd. by apply (Hd r c). }
  rewrite Hbs. cbn. apply get_boxes_Ok, Forall2_length in Hbs.
  unfold Np.eq_broadcast in Hbs. rewrite length_fmap in Hbs.
  destruct bs as [|b bs]; [by destruct ids|]. cbn. by eexists.
Qed.


Lemma build_target_is_Ok idx mask :
  (2 ≤ length (Np.unique mask))%nat → ∃ tgt, build_target idx mask = Ok tgt.
Proof.
  intros Hlen. apply target_of_ids_is_Ok.
  - intros Hnil. apply (f_equal length) in Hnil.
    rewrite length_drop in Hnil. cbn in Hnil. lia.
  - intros id Hid. apply elem_of_unique.
    apply list_elem_of_lookup in Hid as [i Hi].
    rewrite lookup_drop in Hi. by eapply list_elem_of_lookup_2.
Qed.

Lemma build_target_no_instance idx mask :
  (length (Np.unique mask) ≤ 1)%nat → build_target idx mask = Raise IndexError.
Proof.
  intros Hlen. unfold build_target.
  assert (drop 1 (Np.unique mask) = []) as ->; [|done].
  apply nil_length_inv. rewrite length_drop. lia.
Qed.

Section Construction.
Context {Img : Type}.
Implicit Types (fs : FileSystem Img) (self : PennFudanDataset Img).

Lemma init_ok fs root tr l1 l2 :
  listdir fs (path_join root "PNGImages") = Ok l1 →
  listdir fs (path_join root "PedMasks") = Ok l2 →
  __init__ fs root tr = Ok (mkDataset root tr (sorted l1) (sorted l2)).
Proof. intros H1 H2. unfold __init__. by rewrite H1, H2. Qed.

(** C8: construction sorts both listings lexicographically, so the
    index-to-file mapping is the same for every enumeration order of
    the same directory contents. *)
Theorem init_sorts_deterministically fs1 fs2 root tr l1 l1' l2 l2' :
  listdir fs1 (path_join root "PNGImages") = Ok l1 →
  listdir fs1 (path_join root "PedMasks") = Ok l2 →
  listdir fs2 (path_join root "PNGImages") = Ok l1' →
  listdir fs2 (path_join root "PedMasks") = Ok l2' →
  l1 ≡ₚ l1' → l2 ≡ₚ l2' →
  ∃ ds1 ds2,
    __init__ fs1 root tr = Ok ds1 ∧ __init__ fs2 root tr = Ok ds2 ∧
    StronglySorted str_le (self_imgs ds1) ∧ self_imgs ds1 ≡ₚ l1 ∧
    StronglySorted str_le (self_masks ds1) ∧ self_masks ds1 ≡ₚ l2 ∧
    ∀ i : nat, self_imgs ds1 !! i = self_imgs ds2 !! i ∧
               self_masks ds1 !! i = self_masks ds2 !! i.
Proof.
  intros H1 H2 H1' H2' Hp1 Hp2.
  eexists _, _. split; [by apply init_ok|]. split; [by apply init_ok|].
  cbn [self_imgs self_masks].
  repeat split;
    auto using sorted_StronglySorted, sorted_Permutation.
  - by rewrite (sorted_order_irrelevant _ _ Hp1).
  - by rewrite (sorted_order_irrelevant _ _ Hp2).
Qed.

(** C2 (amended): construction compares no counts.  Whenever both
    directories can be listed it succeeds, whatever the lengths of the
    two listings, and the length of the dataset is the number of image
    files. *)
Theorem init_length_is_image_count fs root tr l1 l2 :
  listdir fs (path_join root "PNGImages") = Ok l1 →
  listdir fs (path_join root "PedMasks") = Ok l2 →
  ∃ ds, __init__ fs root tr = Ok ds ∧
        __len__ ds = length l1 ∧
        length (self_masks ds) = length l2.
Proof.
  intros H1 H2. eexists. split; [by apply init_ok|].
  unfold __len__. cbn [self_imgs self_masks].
  by rewrite !length_sorted.
Qed.

(** With fewer masks than images, a sample at a position past the end
    of the mask list is refused. *)
Lemma missing_mask_raises fs self idx :
  Z.of_nat (length (self_masks self)) ≤ idx < Z.of_nat (length (self_imgs self)) →
  __getitem__ fs self idx = Raise IndexError.
Proof.
  intros Hidx. unfold __getitem__, load_sample.
  destruct (index_in_range (self_imgs self) idx) as (x & -> & _); [lia|].
  cbn. rewrite index_out_of_range; [done|]. lia.
Qed.

End Construction.

Lemma init_sorts_deterministically_witness :
  ∃ ds1 ds2,
    __init__ Fixtures.fs_order1 "PennFudanPed" None = Ok ds1 ∧
    __init__ Fixtures.fs_order2 "PennFudanPed" None = Ok ds2 ∧
    StronglySorted str_le (self_imgs ds1) ∧
    self_imgs ds1 ≡ₚ ["b.png"; "a.png"; "c.png"] ∧
    StronglySorted str_le (self_masks ds1) ∧
    self_masks ds1 ≡ₚ ["c_mask.png"; "a_mask.png"; "b_mask.png"] ∧
    ∀ i : nat, self_imgs ds1 !! i = self_imgs ds2 !! i ∧
               self_masks ds1 !! i = self_masks ds2 !! i.
Proof.
  apply (init_sorts_deterministically Fixtures.fs_order1 Fixtures.fs_order2
           "PennFudanPed" None
           ["b.png"; "a.png"; "c.png"] ["c.png"; "a.png"; "b.png"]
           ["c_mask.png"; "a_mask.png"; "b_mask.png"]
           ["a_mask.png"; "b_mask.png"; "c_mask.png"]);
    try reflexivity.
  - apply (Permutation_rev ["b.png"; "a.png"; "c.png"]) .
  - etrans; [apply perm_swap|]. etrans; [apply perm_skip, perm_swap|]. reflexivity.
Defined.

(** C2, as stated, fails: a directory with two images and one mask is
    accepted by the constructor. *)
Lemma init_accepts_unequal_counts :
  ∃ l1 l2 ds,
    listdir Fixtures.fs_mismatch (path_join "PennFudanPed" "PNGImages") = Ok l1 ∧
    listdir Fixtures.fs_mismatch (path_join "PennFudanPed" "PedMasks") = Ok l2 ∧
    length l1 ≠ length l2 ∧
    __init__ Fixtures.fs_mismatch "PennFudanPed" None = Ok ds ∧
    __len__ ds = 2%nat ∧ length (self_masks ds) = 1%nat.
Proof. eexists _, _, _. repeat split; try reflexivity. cbn. lia. Qed.

Lemma init_length_is_image_count_witness :
  ∃ ds, __init__ Fixtures.fs_mismatch "PennFudanPed" None = Ok ds ∧
        __len__ ds = 2%nat ∧
        length (self_masks ds) = 1%nat.
Proof.
  apply (init_length_is_image_count Fixtures.fs_mismatch "PennFudanPed" None
           ["b.png"; "a.png"] ["a_mask.png"]); reflexivity.
Defined.

(** On that directory position 1 is refused, while position -1, the
    same sample counted from the end, pairs the second image with the
    only mask. *)
Example mismatch_shows_late :
  ∃ ds, __init__ Fixtures.fs_mismatch "PennFudanPed" None = Ok ds ∧
        __getitem__ Fixtures.fs_mismatch ds 1 = Raise IndexError ∧
        self_imgs ds !! 1%nat = Some "b.png" ∧
        self_masks ds !! 0%nat = Some "a_mask.png" ∧
        ∃ tgt, __getitem__ Fixtures.fs_mismatch ds (-1) = Ok ((), tgt).
Proof.
  eexists. split; [reflexivity|]. split; [reflexivity|].
  split; [reflexivity|]. split; [reflexivity|]. eexists. reflexivity.
Qed.

(** *** Boxes within the image *)

Lemma pixel_eq_scalar_bounds (mask : Np.array2 N) id r c :
  pixel (Np.eq_scalar mask id) r c →
  ∃ row, row ∈ mask ∧ (r < length mask)%nat ∧ (c < length row)%nat.
Proof.
  intros (row & Hr & Hc)%pixel_eq_scalar. exists row.
  split; [by eapply list_elem_of_lookup_2|].
  split; by eapply lookup_lt_Some.
Qed.

Lemma tight_box_bounds m b (H W : Z) :
  (∀ r c, pixel m r c → Z.of_nat r < H ∧ Z.of_nat c < W) →
  tight_box m b →
  0 ≤ xmin b ∧ xmin b ≤ xmax b < W ∧ 0 ≤ ymin b ∧ ymin b ≤ ymax b < H.
Proof.
  intros Hin Htight. pose proof (tight_box_ordered _ _ Htight) as [Hx Hy].
  destruct Htight as ((r1 & c1 & Hp1 & E1) & (r2 & c2 & Hp2 & E2) &
                      (r3 & c3 & Hp3 & E3) & (r4 & c4 & Hp4 & E4) & _).
  apply Hin in Hp1, Hp2, Hp3, Hp4. lia.
Qed.

(** The boxes of masks over an image of at most 2^24 rows and columns
    are held exactly. *)
Lemma tight_boxes_exact (mask : Np.array2 N) ms bs :
  Forall (λ m, ∀ r c, pixel m r c →
               ∃ row, row ∈ mask ∧ (r < length mask)%nat ∧ (c < length row)%nat) ms →
  Forall2 tight_box ms bs →
  Z.of_nat (length mask) ≤ 2 ^ 24 →
  Forall (λ row, Z.of_nat (length row) ≤ 2 ^ 24) mask →
  as_float32 <$> bs = bs.
Proof.
  intros Hms Hb HH HW. rewrite Forall_forall in HW.
  induction Hb as [|m b ms bs Ht Hb IH]; [done|].
  apply Forall_cons in Hms as [Hm Hms]. cbn. rewrite IH by done. f_equal.
  destruct (tight_box_bounds m b (2 ^ 24) (2 ^ 24)) as (? & ? & ? & ?); [|done|].
  - intros r c (row & Hrow & Hr & Hc)%Hm. specialize (HW _ Hrow). lia.
  - apply as_float32_exact; lia.
Qed.

(** *** Serving samples *)

Section GetItem.
Context {Img : Type}.
Implicit Types (fs : FileSystem Img) (self : PennFudanDataset Img).

Lemma load_sample_serves fs self idx img mask :
  serves fs self idx img mask →
  load_sample fs self idx = (tgt ← build_target idx mask; Ok (img, tgt)).
Proof.
  intros (Hidx & Hlen & a & b & Ha & Hb & Himg & Hmask).
  unfold __len__ in *. unfold load_sample.
  destruct (index_in_range (self_imgs self) idx) as (a' & -> & Ha'); [done|].
  destruct (index_in_range (self_masks self) idx) as (b' & -> & Hb').
  { by rewrite Hlen. }
  rewrite Hlen in Hb'. simplify_eq. cbn. by rewrite Himg, Hmask.
Qed.

Lemma getitem_out_of_range fs self idx :
  idx < - Z.of_nat (__len__ self) ∨ Z.of_nat (__len__ self) ≤ idx →
  __getitem__ fs self idx = Raise IndexError.
Proof.
  intros Hidx. unfold __getitem__, load_sample.
  by rewrite (index_out_of_range (self_imgs self) idx Hidx).
Qed.

(** C3 (amended): an index at or beyond the length, or below minus the
    length, raises [IndexError]; an index in [[-L, L)] (negative ones
    count from the end, as for any Python list) is served whenever the
    addressed files decode and the mask holds at least one instance. *)
Theorem getitem_index_range fs self idx :
  let L := Z.of_nat (__len__ self) in
  (idx < - L ∨ L ≤ idx → __getitem__ fs self idx = Raise IndexError) ∧
  (∀ img mask,
     serves fs self idx img mask →
     (2 ≤ length (Np.unique mask))%nat →
     ∃ tgt, build_target idx mask = Ok tgt ∧
            __getitem__ fs self idx = Ok (apply_transforms self (img, tgt))).
Proof.
  split; [apply getitem_out_of_range|].
  intros img mask Hs Hu.
  destruct (build_target_is_Ok idx mask Hu) as [tgt Htgt].
  exists tgt. split; [done|]. unfold __getitem__.
  by rewrite (load_sample_serves _ _ _ _ _ Hs), Htgt.
Qed.

Lemma keeps_target_None self : self_transforms self = None → keeps_target self.
Proof. intros Hnone s. unfold apply_transforms. by rewrite Hnone. Qed.

Lemma keeps_target_returns self img tgt :
  keeps_target self → ∃ img', apply_transforms self (img, tgt) = (img', tgt).
Proof.
  intros Hk. specialize (Hk (img, tgt)).
  destruct (apply_transforms self (img, tgt)) as [img' tgt'].
  cbn in Hk. subst. by eexists.
Qed.

(** C4 (amended): from a mask image with background pixels and exactly
    two other colours, [__getitem__] builds two boolean masks, one per
    colour, and two boxes; each box holds, as float32 values, the
    sides of the tight bounding box of its mask (the sides themselves
    when the image has at most 2^24 rows and columns), so
    [xmin <= xmax] and [ymin <= ymax].  This target is returned when
    there is no transform hook or the hook hands targets on; with
    another hook it is what the hook is applied to. *)
Theorem getitem_two_instances fs self idx img mask :
  serves fs self idx img mask →
  0%N ∈ mjoin mask →
  length (nonbg_colors mask) = 2%nat →
  ∃ tgt ids bs,
    __getitem__ fs self idx = Ok (apply_transforms self (img, tgt)) ∧
    (keeps_target self → ∃ img', __getitem__ fs self idx = Ok (img', tgt)) ∧
    ids ≡ₚ nonbg_colors mask ∧
    masks tgt = Np.eq_scalar mask <$> ids ∧
    length (masks tgt) = 2%nat ∧ length (boxes tgt) = 2%nat ∧
    Forall2 tight_box (masks tgt) bs ∧
    boxes tgt = as_float32 <$> bs ∧
    (Z.of_nat (length mask) ≤ 2 ^ 24 →
     Forall (λ row, Z.of_nat (length row) ≤ 2 ^ 24) mask →
     boxes tgt = bs) ∧
    Forall (λ b, xmin b ≤ xmax b ∧ ymin b ≤ ymax b) (boxes tgt).
Proof.
  intros Hs H0 Hcol.
  destruct (unique_with_background mask H0) as (ids & Hu & Hids).
  destruct (build_target_is_Ok idx mask) as [tgt Htgt].
  { rewrite Hu. cbn. rewrite Hids, Hcol. lia. }
  assert (__getitem__ fs self idx = Ok (apply_transforms self (img, tgt)))
    as Hget.
  { unfold __getitem__. by rewrite (load_sample_serves _ _ _ _ _ Hs), Htgt. }
  unfold build_target in Htgt. rewrite Hu in Htgt. cbn [drop] in Htgt.
  apply target_of_ids_Ok in Htgt as (_ & Hm & (bs & Hb & Hbs) & _).
  exists tgt, ids, bs.
  assert (length (masks tgt) = 2%nat) as Hlen.
  { by rewrite Hm, length_fmap, Hids. }
  split; [done|]. split.
  { intros Hk. destruct (keeps_target_returns self img tgt Hk) as [img' Heq].
    exists img'. by rewrite Hget, Heq. }
  split; [done|]. split; [done|]. split; [done|]. split.
  { by rewrite Hbs, length_fmap, <- (Forall2_length _ _ _ Hb). }
  split; [done|]. split; [done|]. split.
  - intros HH HW. rewrite Hbs.
    apply (tight_boxes_exact mask (masks tgt)); [|done..].
    rewrite Hm. apply Forall_fmap, Forall_forall. intros id _ r c.
    cbn. intros Hp. by apply (pixel_eq_scalar_bounds mask id).
  - rewrite Hbs. apply Forall_fmap.
    eapply Forall2_Forall_r; [exact Hb|].
    apply Forall_forall. intros m _ b Ht. cbn.
    pose proof (as_float32_ordered m b Ht). tauto.
Qed.

(** C10 (amended): the target that [__getitem__] builds carries one
    label 1, one crowd flag 0 and one area per instance; the area is
    height times width of the instance's row of [boxes], computed in
    float32, which is the exact product whenever that is at most
    2^24.  The target is returned as built when there is no transform
    hook or the hook hands targets on, and is what the hook is applied
    to otherwise. *)
Theorem getitem_annotations fs self idx img tgt :
  __getitem__ fs self idx = Ok (img, tgt) →
  ∃ img0 tgt0,
    load_sample fs self idx = Ok (img0, tgt0) ∧
    (img, tgt) = apply_transforms self (img0, tgt0) ∧
    (keeps_target self → tgt = tgt0) ∧
    let num_objs := length (masks tgt0) in
    length (boxes tgt0) = num_objs ∧
    length (labels tgt0) = num_objs ∧
    length (iscrowd tgt0) = num_objs ∧
    length (area tgt0) = num_objs ∧
    ∀ i : nat, (i < num_objs)%nat →
      labels tgt0 !! i = Some 1 ∧
      iscrowd tgt0 !! i = Some 0 ∧
      ∃ b, boxes tgt0 !! i = Some b ∧
           area tgt0 !! i
           = Some (Float32.mul (Float32.sub (ymax b) (ymin b))
                               (Float32.sub (xmax b) (xmin b))) ∧
           ((ymax b - ymin b) * (xmax b - xmin b) ≤ 2 ^ 24 →
            area tgt0 !! i = Some ((ymax b - ymin b) * (xmax b - xmin b))).
Proof.
  unfold __getitem__. intros Hget.
  destruct (load_sample fs self idx) as [[img0 tgt0]|e] eqn:Hload; [|done].
  cbn in Hget. injection Hget as Hget.
  exists img0, tgt0. split; [done|]. split; [done|]. split.
  { intros Hk. specialize (Hk (img0, tgt0)). rewrite Hget in Hk.
    exact Hk. }
  clear Hget. unfold load_sample in Hload.
  destruct (index (self_imgs self) idx) as [a|]; [|done]. cbn in Hload.
  destruct (index (self_masks self) idx) as [b|]; [|done]. cbn in Hload.
  destruct (open_rgb fs _) as [i0|]; [|done]. cbn in Hload.
  destruct (open_array fs _) as [mask|]; [|done]. cbn in Hload.
  destruct (build_target idx mask) as [t|] eqn:Ht; [|done]. cbn in Hload.
  simplify_eq.
  apply target_of_ids_Ok in Ht as (_ & Hm & (bs & Hb & Hbs) & Hl & Hc & _ & Ha).
  apply Forall2_length in Hb as Hlen. cbn zeta.
  rewrite Hl, Hc, Ha, !length_replicate, !length_fmap.
  assert (length (masks tgt0) = length (drop 1 (Np.unique mask))) as Hn.
  { by rewrite Hm, length_fmap. }
  assert (length (boxes tgt0) = length (masks tgt0)) as Hnb.
  { by rewrite Hbs, length_fmap. }
  repeat split; try congruence.
  - apply lookup_replicate_2. lia.
  - apply lookup_replicate_2. lia.
  - destruct (lookup_lt_is_Some_2 (boxes tgt0) i) as [bx Hbx]; [lia|].
    exists bx. split; [done|]. rewrite list_lookup_fmap, Hbx.
    split; [done|]. intros Hp. cbn. f_equal.
    rewrite Hbs in Hbx. apply list_lookup_fmap_Some in Hbx as (b0 & -> & Hb0).
    destruct (Forall2_lookup_r _ _ _ _ _ Hb Hb0) as (m & _ & Ht).
    pose proof (as_float32_ordered m b0 Ht).
    apply box_area_exact; tauto.
Qed.

End GetItem.

Lemma tight_box_not_degenerate m b : tight_box m b → ¬ degenerate m.
Proof. intros ((r & c & Hp & _) & _) Hd. by apply (Hd r c). Qed.


Section Degenerate.
Context {Img : Type}.
Implicit Types (fs : FileSystem Img) (self : PennFudanDataset Img).


End Degenerate.

(** *** Examples on a one-sample directory *)

Lemma serves_single idx :
  -1 ≤ idx < 1 →
  serves Fixtures.fs_single Fixtures.ds_single idx () [[0; 1; 2]]%N.
Proof.
  intros Hidx. split; [cbn; lia|]. split; [done|].
  assert (idx `mod` Z.of_nat (__len__ Fixtures.ds_single) = 0) as ->.
  { cbn. apply Z.mod_1_r. }
  by exists "a.png"%string, "a_mask.png"%string.
Defined.

(** C3, as stated, fails: index -1 of a dataset of length 1 is served. *)
Lemma getitem_serves_negative_index :
  __len__ Fixtures.ds_single = 1%nat ∧
  __getitem__ Fixtures.fs_single Fixtures.ds_single (-1)
  = Ok ((), Fixtures.target_single (-1)).
Proof. split; reflexivity. Qed.

Lemma getitem_index_range_witness :
  __getitem__ Fixtures.fs_single Fixtures.ds_single 1 = Raise IndexError ∧
  __getitem__ Fixtures.fs_single Fixtures.ds_single (-2) = Raise IndexError ∧
  ∃ tgt, build_target (-1) [[0; 1; 2]]%N = Ok tgt ∧
         __getitem__ Fixtures.fs_single Fixtures.ds_single (-1)
         = Ok (apply_transforms Fixtures.ds_single ((), tgt)).
Proof.
  split; [|split].
  - apply (getitem_index_range Fixtures.fs_single Fixtures.ds_single 1).
    right. cbn. lia.
  - apply (getitem_index_range Fixtures.fs_single Fixtures.ds_single (-2)).
    left. cbn. lia.
  - apply (getitem_index_range Fixtures.fs_single Fixtures.ds_single (-1)).
    + apply serves_single. lia.
    + vm_compute. lia.
Defined.

(** C4, as stated, fails three times over: the two instances of the
    first mask are one pixel wide and one pixel high, and their boxes
    have [xmax = xmin] and [ymax = ymin]; in a mask without background
    pixels the smaller of two colours is taken for the background, and
    one mask is built; and a transform hook may return a target without
    masks. *)
Lemma getitem_two_instances_fails :
  (nonbg_colors [[0; 1; 2]]%N = [1; 2]%N ∧
   __getitem__ Fixtures.fs_single Fixtures.ds_single 0
   = Ok ((), Fixtures.target_single 0) ∧
   length (masks (Fixtures.target_single 0)) = 2%nat ∧
   length (boxes (Fixtures.target_single 0)) = 2%nat ∧
   Forall (λ b, ¬ (xmax b > xmin b) ∧ ¬ (ymax b > ymin b))
          (boxes (Fixtures.target_single 0))) ∧
  (nonbg_colors [[1; 2]]%N = [1; 2]%N ∧
   ∃ tgt, __getitem__ Fixtures.fs_no_background Fixtures.ds_single 0
          = Ok ((), tgt) ∧
          length (masks tgt) = 1%nat ∧ length (boxes tgt) = 1%nat) ∧
  (∃ tgt, __getitem__ Fixtures.fs_single Fixtures.ds_drop 0 = Ok ((), tgt) ∧
          length (masks tgt) = 0%nat ∧ length (boxes tgt) = 0%nat).
Proof.
  split; [|split].
  - repeat split; try reflexivity. repeat constructor; cbn; lia.
  - split; [reflexivity|]. eexists. repeat split; reflexivity.
  - eexists. repeat split; reflexivity.
Qed.

Lemma getitem_two_instances_witness :
  ∃ tgt ids bs,
    __getitem__ Fixtures.fs_street Fixtures.ds_image 0
    = Ok (apply_transforms Fixtures.ds_image ((), tgt)) ∧
    (keeps_target Fixtures.ds_image →
     ∃ img', __getitem__ Fixtures.fs_street Fixtures.ds_image 0 = Ok (img', tgt)) ∧
    ids ≡ₚ nonbg_colors Fixtures.mask_street ∧
    masks tgt = Np.eq_scalar Fixtures.mask_street <$> ids ∧
    length (masks tgt) = 2%nat ∧ length (boxes tgt) = 2%nat ∧
    Forall2 tight_box (masks tgt) bs ∧
    boxes tgt = as_float32 <$> bs ∧
    (Z.of_nat (length Fixtures.mask_street) ≤ 2 ^ 24 →
     Forall (λ row, Z.of_nat (length row) ≤ 2 ^ 24) Fixtures.mask_street →
     boxes tgt = bs) ∧
    Forall (λ b, xmin b ≤ xmax b ∧ ymin b ≤ ymax b) (boxes tgt).
Proof.
  apply (getitem_two_instances Fixtures.fs_street Fixtures.ds_image 0 ()
           Fixtures.mask_street).
  - split; [cbn; lia|]. split; [done|].
    by exists "a.png"%string, "a_mask.png"%string.
  - right. right. right. left.
  - reflexivity.
Defined.

(** The hook of [ds_image] hands targets on: the sample it returns
    holds the target that was built. *)
Example getitem_street :
  keeps_target Fixtures.ds_image ∧
  __getitem__ Fixtures.fs_street Fixtures.ds_image 0
  = Ok ((), Fixtures.target_street).
Proof. split; [by intros [[] tgt]|reflexivity]. Qed.

(** The unique values of the large mask are 0 and 1, and its instance
    has a pixel in the corners (0, 0) and (4097, 4099) and no other. *)
Lemma mask_big_values v : v ∈ mjoin Fixtures.mask_big ↔ v = 0%N ∨ v = 1%N.
Proof.
  unfold Fixtures.mask_big. rewrite !join_app, !elem_of_app. cbn [mjoin list_join].
  rewrite !app_nil_r, elem_of_cons, elem_of_app, !elem_of_replicate,
    list_elem_of_singleton, list_elem_of_join.
  split.
  - intros [[[?|[? _]]|(row & Hv & [-> _]%elem_of_replicate)]|[[? _]|?]]; auto.
    apply elem_of_replicate in Hv as [? _]. auto.
  - intros [-> | ->]; [|by left; left; left].
    left. left. right. split; [done|lia].
Qed.

(** A mask image whose values are 0 and 1 and whose instance has
    pixels in the corners (0, 0) and (4097, 4099) and nowhere else
    yields one box, of 4097 by 4099 pixels, and the rounded area. *)
Lemma corner_mask_target idx (mask : Np.array2 N) :
  (∀ v, v ∈ mjoin mask ↔ v = 0%N ∨ v = 1%N) →
  (∀ r c, pixel (Np.eq_scalar mask 1%N) r c ↔
          (r = 0 ∧ c = 0)%nat ∨ (r = 4097 ∧ c = 4099)%nat) →
  ∃ tgt, build_target idx mask = Ok tgt ∧
         boxes tgt = [mkBox 0 0 4099 4097] ∧
         area tgt = [16793604].
Proof.
  intros Hval Hpix.
  assert (Np.unique mask = [0; 1]%N) as Hu.
  { apply (StronglySorted_unique_strong N.lt).
    - intros x1 x2 _ _ H1 H2. lia.
    - apply unique_sorted_lt.
    - by repeat constructor.
    - apply NoDup_Permutation; [apply NoDup_unique| |].
      + repeat constructor; rewrite ?elem_of_cons, ?elem_of_nil; lia.
      + intros v. rewrite elem_of_unique, Hval.
        rewrite !elem_of_cons, elem_of_nil. tauto. }
  destruct (build_target_is_Ok idx mask) as [tgt Htgt].
  { by rewrite Hu. }
  exists tgt. split; [done|].
  unfold build_target in Htgt. rewrite Hu in Htgt. cbn [drop] in Htgt.
  apply target_of_ids_Ok in Htgt as (_ & Hm & (bs & Hb & Hbs) & _ & _ & _ & Ha).
  rewrite Hm in Hb. cbn [fmap list_fmap] in Hb.
  apply Forall2_cons_inv_l in Hb as (b & bs' & Ht & Hnil & ->).
  apply Forall2_nil_inv_l in Hnil as ->.
  assert (b = mkBox 0 0 4099 4097) as ->.
  { destruct Ht as ((r1 & c1 & Hp1 & E1) & (r2 & c2 & Hp2 & E2) &
                    (r3 & c3 & Hp3 & E3) & (r4 & c4 & Hp4 & E4) & Hall).
    pose proof (Hall 0%nat 0%nat
                  (proj2 (Hpix _ _) (or_introl (conj eq_refl eq_refl)))) as Hlo.
    pose proof (Hall 4097%nat 4099%nat
                  (proj2 (Hpix _ _) (or_intror (conj eq_refl eq_refl)))) as Hhi.
    apply Hpix in Hp1, Hp2, Hp3, Hp4.
    destruct b as [x0 y0 x1 y1]. cbn [xmin xmax ymin ymax] in *.
    f_equal; lia. }
  rewrite Ha, Hbs. split; reflexivity.
Qed.

Lemma mask_big_pixel r c :
  pixel (Np.eq_scalar Fixtures.mask_big 1%N) r c ↔
  (r = 0 ∧ c = 0)%nat ∨ (r = 4097 ∧ c = 4099)%nat.
Proof.
  rewrite pixel_eq_scalar. unfold Fixtures.mask_big. split.
  - intros (row & Hr & Hc).
    apply lookup_app_Some in Hr as [Hr|[Hlen Hr]].
    + apply lookup_app_Some in Hr as [Hr|[_ Hr]].
      * apply list_lookup_singleton_Some in Hr as [-> <-].
        apply lookup_cons_Some in Hc as [[-> _]|[_ Hc]]; [by left|].
        by apply lookup_replicate in Hc as [? _].
      * apply lookup_replicate in Hr as [-> _].
        by apply lookup_replicate in Hc as [? _].
    + rewrite length_app, length_replicate in Hlen. cbn [length] in Hlen.
      rewrite length_app, length_replicate in Hr. cbn [length] in Hr.
      apply list_lookup_singleton_Some in Hr as [Hr0 <-].
      apply lookup_app_Some in Hc as [Hc|[Hlen' Hc]].
      * by apply lookup_replicate in Hc as [? _].
      * rewrite length_replicate in Hlen', Hc.
        apply list_lookup_singleton_Some in Hc as [Hc0 _]. right. lia.
  - intros [[-> ->]|[-> ->]].
    + exists (1%N :: replicate 4099 0%N). split; reflexivity.
    + exists (replicate 4099 0%N ++ [1%N]). split.
      * rewrite lookup_app_r; rewrite length_app, length_replicate;
          cbn [length]; [|lia].
        by replace (4097 - (1 + 4096))%nat with 0%nat by lia.
      * rewrite lookup_app_r; rewrite length_replicate; [|lia].
        by replace (4099 - 4099)%nat with 0%nat by lia.
Qed.

(** C10, as stated, fails twice over: a transform hook may relabel the
    instances of the target that is returned; and the product of the
    sides of a box of 4097 by 4099 pixels, 16793603, is not a float32:
    the area the target holds is 16793604. *)
Lemma getitem_annotations_fails :
  (∃ tgt, __getitem__ Fixtures.fs_single Fixtures.ds_relabel 0 = Ok ((), tgt) ∧
          labels tgt = [7; 7]) ∧
  (∃ tgt, __getitem__ Fixtures.fs_big Fixtures.ds_single 0 = Ok ((), tgt) ∧
          boxes tgt = [mkBox 0 0 4099 4097] ∧
          area tgt = [16793604] ∧
          (4097 - 0) * (4099 - 0) = 16793603).
Proof.
  split; [eexists; split; reflexivity|].
  assert (serves Fixtures.fs_big Fixtures.ds_single 0 () Fixtures.mask_big)
    as Hs.
  { split; [cbn; lia|]. split; [done|].
    by exists "a.png"%string, "a_mask.png"%string. }
  destruct (corner_mask_target 0 Fixtures.mask_big mask_big_values
                               mask_big_pixel)
    as (tgt & Htgt & Hboxes & Harea).
  exists tgt. split.
  { unfold __getitem__. by rewrite (load_sample_serves _ _ _ _ _ Hs), Htgt. }
  split; [done|]. split; [done|]. reflexivity.
Qed.

Lemma getitem_annotations_witness :
  ∃ img0 tgt0,
    load_sample Fixtures.fs_street Fixtures.ds_image 0 = Ok (img0, tgt0) ∧
    ((), Fixtures.target_street)
    = apply_transforms Fixtures.ds_image (img0, tgt0) ∧
    (keeps_target Fixtures.ds_image → Fixtures.target_street = tgt0) ∧
    let num_objs := length (masks tgt0) in
    length (boxes tgt0) = num_objs ∧
    length (labels tgt0) = num_objs ∧
    length (iscrowd tgt0) = num_objs ∧
    length (area tgt0) = num_objs ∧
    ∀ i : nat, (i < num_objs)%nat →
      labels tgt0 !! i = Some 1 ∧
      iscrowd tgt0 !! i = Some 0 ∧
      ∃ b, boxes tgt0 !! i = Some b ∧
           area tgt0 !! i
           = Some (Float32.mul (Float32.sub (ymax b) (ymin b))
                               (Float32.sub (xmax b) (xmin b))) ∧
           ((ymax b - ymin b) * (xmax b - xmin b) ≤ 2 ^ 24 →
            area tgt0 !! i = Some ((ymax b - ymin b) * (xmax b - xmin b))).
Proof.
  apply (getitem_annotations Fixtures.fs_street Fixtures.ds_image 0 ()
           Fixtures.target_street).
  reflexivity.
Defined.


(** *** The train/test split *)

Section Split.
Context {Img : Type}.
Implicit Types (fs : FileSystem Img) (self : PennFudanDataset Img).

Lemma run_preserves_dataset fs self cs : (run fs self cs).1 = self.
Proof.
  revert self. induction cs as [|c cs IH]; intros self; [done|].
  cbn [run]. destruct c; cbn [exec];
    specialize (IH self); destruct (run fs self cs); by cbn in *.
Qed.

(** C9: the two halves of the shuffled index list share no index and
    together hold every index once; and no sequence of calls on a
    dataset changes its length. *)
Theorem split_disjoint_length_fixed (dataset dataset_test : PennFudanDataset Img)
    (indices : list Z) :
  indices ≡ₚ Z.of_nat <$> seq 0 (__len__ dataset) →
  let train := (split dataset dataset_test indices).1 in
  let test := (split dataset dataset_test indices).2 in
  (∀ i, i ∈ sub_indices train → i ∉ sub_indices test) ∧
  sub_indices train ++ sub_indices test = indices ∧
  (subset_len train + subset_len test = __len__ dataset)%nat ∧
  ∀ fs cs,
    __len__ (run fs dataset cs).1 = __len__ dataset ∧
    __len__ (run fs dataset_test cs).1 = __len__ dataset_test.
Proof.
  intros Hperm. cbn [split fst snd sub_indices].
  assert (NoDup indices) as Hnd.
  { rewrite Hperm. apply NoDup_fmap; [apply _|apply NoDup_seq]. }
  rewrite <- (slice_to_from indices (-50)) in Hnd.
  apply NoDup_app in Hnd as (_ & Hdisj & _).
  split; [done|]. split; [apply slice_to_from|]. split.
  - unfold subset_len. cbn [sub_indices].
    rewrite <- length_app, slice_to_from, Hperm, length_fmap.
    apply length_seq.
  - intros fs cs. by rewrite !run_preserves_dataset.
Qed.

End Split.

Lemma split_disjoint_length_fixed_witness :
  let train := (split Fixtures.ds52 Fixtures.ds52 Fixtures.indices52).1 in
  let test := (split Fixtures.ds52 Fixtures.ds52 Fixtures.indices52).2 in
  (∀ i, i ∈ sub_indices train → i ∉ sub_indices test) ∧
  sub_indices train ++ sub_indices test = Fixtures.indices52 ∧
  (subset_len train + subset_len test = __len__ Fixtures.ds52)%nat ∧
  ∀ (fs : FileSystem unit) cs,
    __len__ (run fs Fixtures.ds52 cs).1 = __len__ Fixtures.ds52 ∧
    __len__ (run fs Fixtures.ds52 cs).1 = __len__ Fixtures.ds52.
Proof.
  apply (split_disjoint_length_fixed Fixtures.ds52 Fixtures.ds52
           Fixtures.indices52).
  unfold Fixtures.indices52. apply fmap_Permutation, reverse_Permutation.
Defined.

Example split_52 :
  sub_indices (split Fixtures.ds52 Fixtures.ds52 Fixtures.indices52).1 = [51; 50] ∧
  length (sub_indices (split Fixtures.ds52 Fixtures.ds52 Fixtures.indices52).2)
  = 50%nat.
Proof. split; reflexivity. Qed.

End PennFudanFacts.

(** ** Further properties of the dataset adapter *)

Module PennFudanMore.
Import Py PyFacts PennFudan NpFacts Float32Facts PennFudanFacts.

(** *** The ids of a mask image *)

Lemma unique_head_tail (mask : Np.array2 N) :
  mjoin mask ≠ [] →
  ∃ v0 ids,
    Np.unique mask = v0 :: ids ∧
    v0 ∈ mjoin mask ∧
    (∀ v, v ∈ mjoin mask → (v0 ≤ v)%N) ∧
    NoDup ids ∧
    ∀ v, v ∈ ids ↔ v ∈ mjoin mask ∧ v ≠ v0.
Proof.
  intros Hne. pose proof (unique_sorted_lt mask) as Hs.
  pose proof (NoDup_unique mask) as Hnd.
  pose proof (elem_of_unique mask) as Hel.
  revert Hs Hnd Hel. generalize (Np.unique mask). intros [|v0 ids] Hs Hnd Hel.
  - destruct (mjoin mask) as [|v l]; [done|].
    exfalso. eapply elem_of_nil, Hel. left.
  - apply StronglySorted_inv in Hs as [_ Hlt]. rewrite Forall_forall in Hlt.
    apply NoDup_cons in Hnd as [Hv0 Hnd].
    exists v0, ids. split; [done|]. split; [apply Hel; left|]. split; [|split].
    + intros v [->|Hv]%Hel%elem_of_cons; [done|]. specialize (Hlt _ Hv). lia.
    + done.
    + intros v. rewrite <- Hel, elem_of_cons. split.
      * intros Hv. split; [by right|]. intros ->. done.
      * by intros [[->|Hv] Hne'].
Qed.

Lemma build_target_ids idx mask tgt :
  build_target idx mask = Ok tgt →
  ∃ v0 ids,
    Np.unique mask = v0 :: ids ∧ ids ≠ [] ∧
    v0 ∈ mjoin mask ∧
    (∀ v, v ∈ mjoin mask → (v0 ≤ v)%N) ∧
    NoDup ids ∧
    (∀ v, v ∈ ids ↔ v ∈ mjoin mask ∧ v ≠ v0) ∧
    masks tgt = Np.eq_scalar mask <$> ids ∧
    (∃ bs, Forall2 tight_box (masks tgt) bs ∧ boxes tgt = as_float32 <$> bs) ∧
    area tgt = box_area <$> boxes tgt.
Proof.
  unfold build_target. intros (Hne & Hm & Hb & _ & _ & _ & Ha)%target_of_ids_Ok.
  destruct (unique_head_tail mask) as (v0 & ids & Hu & Hv0 & Hmin & Hnd & Hids).
  { intros Hnil. apply Hne.
    assert (Np.unique mask = []) as ->; [|done].
    apply elem_of_nil_inv. intros v Hv%elem_of_unique.
    rewrite Hnil in Hv. by apply elem_of_nil in Hv. }
  rewrite Hu in Hne, Hm. cbn [drop] in Hne, Hm.
  by exists v0, ids.
Qed.

Lemma lookup_value_elem_of (mask : Np.array2 N) r c row v :
  mask !! r = Some row → row !! c = Some v → v ∈ mjoin mask.
Proof.
  intros Hr Hc. apply list_elem_of_join. exists row.
  eauto using list_elem_of_lookup_2.
Qed.

(** X1: the instance masks partition the pixels that do not carry the
    smallest value of the image: such a pixel is true in exactly one
    mask, and a pixel with the smallest value is true in none. *)
Theorem instance_masks_partition idx mask tgt :
  build_target idx mask = Ok tgt →
  ∃ v0,
    head (Np.unique mask) = Some v0 ∧
    (∀ v, v ∈ mjoin mask → (v0 ≤ v)%N) ∧
    ∀ r c row v,
      mask !! r = Some row → row !! c = Some v →
      (v = v0 → ∀ m, m ∈ masks tgt → ¬ pixel m r c) ∧
      (v ≠ v0 →
       ∃ k m, masks tgt !! k = Some m ∧ pixel m r c ∧
              ∀ k' m', masks tgt !! k' = Some m' → pixel m' r c → k' = k).
Proof.
  intros (v0 & ids & Hu & _ & _ & Hmin & Hnd & Hids & Hm & _)%build_target_ids.
  exists v0. rewrite Hu. split; [done|]. split; [done|].
  intros r c row v Hr Hc. rewrite Hm.
  assert (∀ id, pixel (Np.eq_scalar mask id) r c ↔ id = v) as Hpix.
  { intros id. rewrite pixel_eq_scalar. split.
    - intros (row' & Hr' & Hc'). by simplify_eq.
    - intros ->. eauto. }
  split.
  - intros -> m (id & -> & Hid)%list_elem_of_fmap Hp.
    apply Hpix in Hp as ->. by apply Hids in Hid as [_ ?].
  - intros Hne.
    assert (v ∈ ids) as [k Hk]%list_elem_of_lookup.
    { apply Hids. split; [|done]. by eapply lookup_value_elem_of. }
    exists k, (Np.eq_scalar mask v). split.
    { by rewrite list_lookup_fmap, Hk. }
    split; [by apply Hpix|].
    intros k' m' (id & -> & Hid)%list_lookup_fmap_Some Hp.
    apply Hpix in Hp as ->. by eapply NoDup_lookup.
Qed.

Lemma instance_masks_partition_witness :
  ∃ v0,
    head (Np.unique MoreFixtures.mask34) = Some v0 ∧
    (∀ v, v ∈ mjoin MoreFixtures.mask34 → (v0 ≤ v)%N) ∧
    ∀ r c row v,
      MoreFixtures.mask34 !! r = Some row → row !! c = Some v →
      (v = v0 →
       ∀ m, m ∈ Np.eq_broadcast MoreFixtures.mask34 [3; 5]%N → ¬ pixel m r c) ∧
      (v ≠ v0 →
       ∃ k m, Np.eq_broadcast MoreFixtures.mask34 [3; 5]%N !! k = Some m ∧
              pixel m r c ∧
              ∀ k' m', Np.eq_broadcast MoreFixtures.mask34 [3; 5]%N !! k' = Some m' →
                       pixel m' r c → k' = k).
Proof.
  exact (instance_masks_partition 0 MoreFixtures.mask34
           (mkTarget [mkBox 1 0 2 1; mkBox 2 1 3 2] [1; 1]
                     (Np.eq_broadcast MoreFixtures.mask34 [3; 5]%N)
                     [0] [1; 1] [0; 0])
           eq_refl).
Defined.

(** X2: in an image of [H] rows and [W] columns, neither above 2^24,
    the float32 rows of [boxes] hold the sides exactly and every box
    lies inside the image, with [0 <= xmin <= xmax < W] and
    [0 <= ymin <= ymax < H]; every area, although it may be rounded,
    lies in [[0, H * W)], and is the exact product of the sides when
    the image has at most 2^24 pixels. *)
Theorem boxes_within_image idx mask tgt (H W : nat) :
  build_target idx mask = Ok tgt →
  length mask = H →
  Forall (λ row, length row = W) mask →
  Z.of_nat H ≤ 2 ^ 24 → Z.of_nat W ≤ 2 ^ 24 →
  Forall (λ b, 0 ≤ xmin b ∧ xmin b ≤ xmax b < Z.of_nat W ∧
               0 ≤ ymin b ∧ ymin b ≤ ymax b < Z.of_nat H) (boxes tgt) ∧
  Forall (λ a, 0 ≤ a < Z.of_nat H * Z.of_nat W) (area tgt) ∧
  (Z.of_nat H * Z.of_nat W ≤ 2 ^ 24 →
   area tgt = (λ b, (ymax b - ymin b) * (xmax b - xmin b)) <$> boxes tgt).
Proof.
  intros (v0 & ids & _ & _ & _ & _ & _ & _ & Hm & (bs & Hb & Hbs) & Ha)%build_target_ids
    HH HW HH24 HW24.
  assert (Forall (λ m, ∀ r c, pixel m r c →
            ∃ row, row ∈ mask ∧ (r < length mask)%nat ∧ (c < length row)%nat)
            (masks tgt)) as Hpix.
  { rewrite Hm. apply Forall_fmap, Forall_forall. intros id _ r c. cbn.
    apply pixel_eq_scalar_bounds. }
  assert (boxes tgt = bs) as Hexact.
  { rewrite Hbs. apply (tight_boxes_exact mask (masks tgt)); [done|done|lia|].
    eapply Forall_impl; [exact HW|]. intros row ->. done. }
  assert (Forall (λ b, 0 ≤ xmin b ∧ xmin b ≤ xmax b < Z.of_nat W ∧
                       0 ≤ ymin b ∧ ymin b ≤ ymax b < Z.of_nat H) (boxes tgt))
    as Hbox.
  { rewrite Hexact. rewrite Forall_forall in Hpix. rewrite Forall_forall in HW.
    eapply Forall2_Forall_r; [exact Hb|].
    apply Forall_forall. intros m Hmem b Htight.
    apply (tight_box_bounds m b (Z.of_nat H) (Z.of_nat W)); [|done].
    intros r c (row & Hrow & Hr & Hc)%(Hpix m Hmem).
    rewrite <- (HW row Hrow), <- HH. lia. }
  split; [done|]. rewrite Ha. split.
  - apply Forall_fmap. eapply Forall_impl; [exact Hbox|].
    intros b Hbb. cbn in Hbb. cbn. unfold box_area, Float32.sub.
    rewrite (round_small (ymax b - ymin b)), (round_small (xmax b - xmin b))
      by (rewrite Z.abs_eq; lia).
    unfold Float32.mul.
    set (p := (ymax b - ymin b) * (xmax b - xmin b)).
    assert (0 ≤ p) as Hp0 by (apply Z.mul_nonneg_nonneg; lia).
    assert (p ≤ (Z.of_nat H - 1) * (Z.of_nat W - 1)) as Hp1
      by (apply Z.mul_le_mono_nonneg; lia).
    pose proof (round_nonneg p Hp0) as Hr0.
    pose proof (round_excess p Hp0) as Hex.
    split; [done|].
    assert (Float32.round p - p ≤ Z.of_nat W - 1) as Hd by nia.
    nia.
  - intros Hsmall. apply list_fmap_ext. intros i b Hb'.
    rewrite Forall_forall in Hbox.
    pose proof (Hbox b (list_elem_of_lookup_2 _ _ _ Hb')) as Hbb.
    cbn in Hbb. apply box_area_exact; [lia|lia|].
    assert ((ymax b - ymin b) * (xmax b - xmin b)
            ≤ Z.of_nat H * Z.of_nat W); [|lia].
    apply Z.mul_le_mono_nonneg; lia.
Qed.

Lemma boxes_within_image_witness :
  Forall (λ b, 0 ≤ xmin b ∧ xmin b ≤ xmax b < 4 ∧
               0 ≤ ymin b ∧ ymin b ≤ ymax b < 3)
         [mkBox 1 0 2 1; mkBox 2 1 3 2] ∧
  Forall (λ a, 0 ≤ a < 3 * 4) [1; 1] ∧
  (3 * 4 ≤ 2 ^ 24 →
   [1; 1] = (λ b, (ymax b - ymin b) * (xmax b - xmin b))
              <$> [mkBox 1 0 2 1; mkBox 2 1 3 2]).
Proof.
  apply (boxes_within_image 0 MoreFixtures.mask34
           (mkTarget [mkBox 1 0 2 1; mkBox 2 1 3 2] [1; 1]
                     (Np.eq_broadcast MoreFixtures.mask34 [3; 5]%N)
                     [0] [1; 1] [0; 0]) 3 4).
  - reflexivity.
  - reflexivity.
  - repeat constructor.
  - cbn. lia.
  - cbn. lia.
Defined.

(** X3: in a mask image without background pixels the instance of the
    smallest colour is lost: the target holds one mask less than the
    image has colours, and none for the smallest colour. *)
Theorem no_background_drops_an_instance idx mask tgt :
  build_target idx mask = Ok tgt →
  0%N ∉ mjoin mask →
  ∃ v0,
    v0 ∈ nonbg_colors mask ∧
    (∀ v, v ∈ nonbg_colors mask → (v0 ≤ v)%N) ∧
    (Np.eq_scalar mask v0 ∉ masks tgt) ∧
    S (length (masks tgt)) = length (nonbg_colors mask).
Proof.
  intros (v0 & ids & Hu & Hne & Hv0 & Hmin & Hnd & Hids & Hm & _)%build_target_ids
    H0.
  assert (∀ v, v ∈ nonbg_colors mask ↔ v ∈ mjoin mask) as Hcol.
  { intros v. unfold nonbg_colors.
    rewrite elem_of_remove_dups, list_elem_of_filter. split; [by intros [_ ?]|].
    intros Hv. split; [|done]. by intros ->. }
  exists v0. split; [by apply Hcol|]. split; [intros v Hv; by apply Hmin, Hcol|].
  split.
  - rewrite Hm. intros (id & Heq & Hid)%list_elem_of_fmap.
    apply Hids in Hid as [Hid Hne'].
    apply eq_scalar_has_pixel in Hv0 as (r & c & Hp).
    rewrite Heq in Hp. apply pixel_eq_scalar in Hp as (row & Hr & Hc).
    assert (pixel (Np.eq_scalar mask v0) r c) as Hp0.
    { rewrite Heq. apply pixel_eq_scalar. eauto. }
    apply pixel_eq_scalar in Hp0 as (row' & Hr' & Hc'). by simplify_eq.
  - rewrite Hm, length_fmap.
    assert (nonbg_colors mask ≡ₚ v0 :: ids) as ->; [|done].
    apply NoDup_Permutation.
    + apply NoDup_remove_dups.
    + apply NoDup_cons. split; [|done]. intros Hin. by apply Hids in Hin as [_ ?].
    + intros v. rewrite Hcol, elem_of_cons, Hids.
      destruct (decide (v = v0)) as [->|]; [|tauto]. tauto.
Qed.

Lemma no_background_drops_an_instance_witness :
  (0%N ∉ mjoin MoreFixtures.mask_no_background) ∧
  ∃ v0,
    v0 ∈ nonbg_colors MoreFixtures.mask_no_background ∧
    (∀ v, v ∈ nonbg_colors MoreFixtures.mask_no_background → (v0 ≤ v)%N) ∧
    (Np.eq_scalar MoreFixtures.mask_no_background v0
       ∉ Np.eq_broadcast MoreFixtures.mask_no_background [2; 4]%N) ∧
    S (length (Np.eq_broadcast MoreFixtures.mask_no_background [2; 4]%N))
    = length (nonbg_colors MoreFixtures.mask_no_background).
Proof.
  assert (0%N ∉ mjoin MoreFixtures.mask_no_background) as H0.
  { cbn. rewrite !elem_of_cons, elem_of_nil. intros [?|[?|[?|[?|[]]]]]; done. }
  split; [exact H0|].
  exact (no_background_drops_an_instance 0 MoreFixtures.mask_no_background
           (mkTarget [mkBox 1 0 1 1; mkBox 0 1 0 1] [1; 1]
                     (Np.eq_broadcast MoreFixtures.mask_no_background [2; 4]%N)
                     [0] [0; 0] [0; 0])
           eq_refl H0).
Defined.

(** X4: a mask image whose pixels all have the same value (no
    pedestrian) cannot be served: [__getitem__] raises [IndexError]
    when it takes a column of the empty [boxes] tensor. *)
Theorem blank_mask_raises {Img} (fs : FileSystem Img)
    (self : PennFudanDataset Img) idx img mask :
  serves fs self idx img mask →
  (∀ v w, v ∈ mjoin mask → w ∈ mjoin mask → v = w) →
  __getitem__ fs self idx = Raise IndexError.
Proof.
  intros Hs Hsame. unfold __getitem__.
  rewrite (load_sample_serves _ _ _ _ _ Hs), build_target_no_instance; [done|].
  pose proof (NoDup_unique mask) as Hnd.
  pose proof (elem_of_unique mask) as Hel.
  revert Hnd Hel. generalize (Np.unique mask). intros [|v [|w l]] Hnd Hel;
    cbn; [lia..|].
  exfalso. apply NoDup_cons in Hnd as [Hv _]. apply Hv.
  rewrite (Hsame v w); [left| |]; apply Hel; [left|right; left].
Qed.

Lemma blank_mask_raises_witness :
  __getitem__ MoreFixtures.fs_blank Fixtures.ds_single 0 = Raise IndexError.
Proof.
  apply (blank_mask_raises MoreFixtures.fs_blank Fixtures.ds_single 0 ()
           [[0; 0]; [0; 0]]%N).
  - split; [cbn; lia|]. split; [done|].
    by exists "a.png"%string, "a_mask.png"%string.
  - cbn. intros v w Hv Hw.
    rewrite !elem_of_cons, elem_of_nil in Hv, Hw.
    destruct Hv as [->|[->|[->|[->|[]]]]], Hw as [->|[->|[->|[->|[]]]]]; done.
Defined.

(** *** Pairing images with masks by sorting *)

Import Naming.

Lemma ascii_compare_refl a : Ascii.compare a a = Eq.
Proof.
  pose proof (Ascii.compare_antisym a a) as Hs.
  destruct (Ascii.compare a a); done.
Qed.

Lemma string_compare_refl s : String.compare s s = Eq.
Proof. induction s as [|a s IH]; [done|]. cbn. by rewrite ascii_compare_refl. Qed.

Lemma str_le_refl s : str_le s s.
Proof. unfold str_le, String.leb. by rewrite string_compare_refl. Qed.

(** Two strings that differ before either ends compare the same way
    whatever is appended to them. *)
Lemma compare_append s1 s2 t u :
  (¬ ∃ x, s2 = String.append s1 x) → (¬ ∃ x, s1 = String.append s2 x) →
  String.compare (String.append s1 t) (String.append s2 u)
  = String.compare s1 s2.
Proof.
  revert s2. induction s1 as [|a s1 IH]; intros [|b s2] H12 H21.
  - destruct H12. by exists EmptyString.
  - destruct H12. by exists (String b s2).
  - destruct H21. by exists (String a s1).
  - change (String.compare (String a (String.append s1 t))
                           (String b (String.append s2 u))
            = String.compare (String a s1) (String b s2)).
    cbn [String.compare]. destruct (Ascii.compare a b) eqn:Hab; [|done..].
    apply Ascii.compare_eq_iff in Hab as ->.
    apply IH.
    + intros [x ->]. apply H12. by exists x.
    + intros [x ->]. apply H21. by exists x.
Qed.

Lemma append_mono stems t s1 s2 :
  prefix_free stems → s1 ∈ stems → s2 ∈ stems →
  str_le s1 s2 → str_le (String.append s1 t) (String.append s2 t).
Proof.
  intros Hpf H1 H2 Hle. destruct (decide (s1 = s2)) as [->|Hne].
  - apply str_le_refl.
  - unfold str_le, String.leb in *.
    rewrite compare_append; [done|by apply Hpf|by apply Hpf].
Qed.

Lemma StronglySorted_fmap_on (f : string → string) (stems l : list string) :
  (∀ s1 s2, s1 ∈ stems → s2 ∈ stems → str_le s1 s2 → str_le (f s1) (f s2)) →
  (∀ s, s ∈ l → s ∈ stems) →
  StronglySorted str_le l → StronglySorted str_le (f <$> l).
Proof.
  intros Hmono Hsub Hs. induction Hs as [|s l Hs IH Hall]; [constructor|].
  cbn. constructor.
  - apply IH. intros s' Hs'. apply Hsub. by right.
  - apply Forall_fmap, Forall_forall. intros s' Hs'. cbn.
    rewrite Forall_forall in Hall.
    apply Hmono; [apply Hsub; left|apply Hsub; by right|by apply Hall].
Qed.

Lemma sorted_fmap (f : string → string) (stems : list string) :
  (∀ s1 s2, s1 ∈ stems → s2 ∈ stems → str_le s1 s2 → str_le (f s1) (f s2)) →
  sorted (f <$> stems) = f <$> sorted stems.
Proof.
  intros Hmono. apply (StronglySorted_unique str_le).
  - apply sorted_StronglySorted.
  - apply (StronglySorted_fmap_on f stems); [done| |apply sorted_StronglySorted].
    intros s. by rewrite sorted_Permutation.
  - by rewrite !sorted_Permutation.
Qed.

(** X5: when no stem is the beginning of another, sorting the two
    listings pairs every image with its own mask, whatever the order of
    enumeration: position [i] of [imgs] and of [masks] hold the names
    made from one stem. *)
Theorem sorting_pairs_images_with_masks {Img} (fs : FileSystem Img)
    root tr stems l1 l2 :
  prefix_free stems →
  listdir fs (path_join root "PNGImages") = Ok l1 →
  listdir fs (path_join root "PedMasks") = Ok l2 →
  l1 ≡ₚ image_name <$> stems →
  l2 ≡ₚ mask_name <$> stems →
  ∃ ds, __init__ fs root tr = Ok ds ∧
        length (self_masks ds) = length (self_imgs ds) ∧
        ∀ (i : nat) img, self_imgs ds !! i = Some img →
          ∃ stem, stem ∈ stems ∧ img = image_name stem ∧
                  self_masks ds !! i = Some (mask_name stem).
Proof.
  intros Hpf H1 H2 Hp1 Hp2. eexists. split; [by apply init_ok|].
  cbn [self_imgs self_masks].
  rewrite (sorted_order_irrelevant _ _ Hp1), (sorted_order_irrelevant _ _ Hp2).
  rewrite !sorted_fmap by (intros s1 s2; by apply append_mono).
  split; [by rewrite !length_fmap|].
  intros i img (stem & -> & Hstem)%list_lookup_fmap_Some.
  exists stem. split; [|split; [done|]].
  - apply list_elem_of_lookup_2 in Hstem. by rewrite sorted_Permutation in Hstem.
  - by rewrite list_lookup_fmap, Hstem.
Qed.

Lemma prefix_free_pennfudan : prefix_free ["PennPed00001"; "FudanPed00001"].
Proof.
  intros s1 s2 H1 H2 Hne [t Ht].
  rewrite !elem_of_cons, elem_of_nil in H1, H2.
  destruct H1 as [->|[->|[]]], H2 as [->|[->|[]]]; done.
Defined.

Lemma sorting_pairs_images_with_masks_witness :
  ∃ ds, __init__ MoreFixtures.fs_pennfudan "PennFudanPed" None = Ok ds ∧
        length (self_masks ds) = length (self_imgs ds) ∧
        ∀ (i : nat) img, self_imgs ds !! i = Some img →
          ∃ stem, stem ∈ ["PennPed00001"; "FudanPed00001"] ∧
                  img = image_name stem ∧
                  self_masks ds !! i = Some (mask_name stem).
Proof.
  apply (sorting_pairs_images_with_masks MoreFixtures.fs_pennfudan
           "PennFudanPed" None ["PennPed00001"; "FudanPed00001"]
           ["PennPed00001.png"; "FudanPed00001.png"]
           ["FudanPed00001_mask.png"; "PennPed00001_mask.png"]).
  - exact prefix_free_pennfudan.
  - reflexivity.
  - reflexivity.
  - reflexivity.
  - apply perm_swap.
Defined.

(** Without that condition the pairing can fail: with the stems [a] and
    [a_b] the image [a.png] comes first but the mask [a_b_mask.png]
    does. *)
Example sorting_mispairs_prefixed_stems :
  __init__ MoreFixtures.fs_prefixed "PennFudanPed" None
  = Ok (mkDataset "PennFudanPed" None
          ["a.png"; "a_b.png"] ["a_b_mask.png"; "a_mask.png"]).
Proof. reflexivity. Qed.

(** *** Samples served through a subset *)

Lemma index_Ok_elem_of {A} (l : list A) i x : index l i = Ok x → x ∈ l.
Proof.
  unfold index. cbn zeta. case_decide; [|done].
  destruct (l !! _) eqn:Hl; [|done]. intros [= <-].
  by eapply list_elem_of_lookup_2.
Qed.

(** X6: with the index list a permutation of [0 .. len(dataset) - 1],
    as [torch.randperm] returns it, each half of the notebook's split
    refuses the indices outside its own range; a sample served by one
    half is the sample of a position of the base dataset that this half
    holds and the other does not; and no position of the file list is
    served by both halves, since every index held is non-negative. *)
Theorem split_halves_serve_disjoint_indices {Img} (fs : FileSystem Img)
    (dataset dataset_test : PennFudanDataset Img) (indices : list Z) :
  indices ≡ₚ Z.of_nat <$> seq 0 (__len__ dataset) →
  let train := (split dataset dataset_test indices).1 in
  let test := (split dataset dataset_test indices).2 in
  (∀ i, i < - Z.of_nat (subset_len train) ∨ Z.of_nat (subset_len train) ≤ i →
        subset_getitem fs train i = Raise IndexError) ∧
  (∀ i, i < - Z.of_nat (subset_len test) ∨ Z.of_nat (subset_len test) ≤ i →
        subset_getitem fs test i = Raise IndexError) ∧
  (∀ i sample, subset_getitem fs train i = Ok sample →
     ∃ j, 0 ≤ j < Z.of_nat (__len__ dataset) ∧
          j ∈ sub_indices train ∧ (j ∉ sub_indices test) ∧
          __getitem__ fs dataset j = Ok sample) ∧
  (∀ i sample, subset_getitem fs test i = Ok sample →
     ∃ j, 0 ≤ j < Z.of_nat (__len__ dataset) ∧
          j ∈ sub_indices test ∧ (j ∉ sub_indices train) ∧
          __getitem__ fs dataset_test j = Ok sample) ∧
  (∀ i i' j j', index (sub_indices train) i = Ok j →
                index (sub_indices test) i' = Ok j' →
                0 ≤ j ∧ 0 ≤ j' ∧ Z.to_nat j ≠ Z.to_nat j').
Proof.
  intros Hperm. cbn [split fst snd].
  assert (NoDup indices) as Hnd.
  { rewrite Hperm. apply NoDup_fmap; [apply _|apply NoDup_seq]. }
  assert (∀ j, j ∈ indices → 0 ≤ j < Z.of_nat (__len__ dataset)) as Hrange.
  { intros j Hj. rewrite Hperm in Hj.
    apply list_elem_of_fmap in Hj as (n & -> & Hn).
    apply elem_of_seq in Hn. lia. }
  rewrite <- (slice_to_from indices (-50)) in Hnd, Hrange.
  apply NoDup_app in Hnd as (_ & Hdisj & _).
  assert (∀ j, j ∈ slice_to indices (-50) → 0 ≤ j < Z.of_nat (__len__ dataset))
    as Hr1 by (intros j Hj; apply Hrange, elem_of_app; by left).
  assert (∀ j, j ∈ slice_from indices (-50) → 0 ≤ j < Z.of_nat (__len__ dataset))
    as Hr2 by (intros j Hj; apply Hrange, elem_of_app; by right).
  split; [|split; [|split; [|split]]].
  - intros i Hi. unfold subset_getitem, subset_len. cbn [sub_indices].
    by rewrite index_out_of_range.
  - intros i Hi. unfold subset_getitem, subset_len. cbn [sub_indices].
    by rewrite index_out_of_range.
  - intros i sample. unfold subset_getitem. cbn [sub_indices sub_dataset].
    destruct (index _ i) as [j|] eqn:Hj; [|done]. cbn. intros Hget.
    apply index_Ok_elem_of in Hj. exists j. auto.
  - intros i sample. unfold subset_getitem. cbn [sub_indices sub_dataset].
    destruct (index _ i) as [j|] eqn:Hj; [|done]. cbn. intros Hget.
    apply index_Ok_elem_of in Hj. exists j. split; [auto|].
    split; [done|]. split; [|done].
    intros Hin. by apply (Hdisj j).
  - cbn [sub_indices]. intros i i' j j' Hj Hj'.
    apply index_Ok_elem_of in Hj, Hj'.
    pose proof (Hr1 j Hj). pose proof (Hr2 j' Hj').
    split; [lia|]. split; [lia|].
    intros Heq. assert (j = j') as -> by lia.
    by apply (Hdisj j').
Qed.

Lemma split_halves_serve_disjoint_indices_witness :
  let train := (split Fixtures.ds52 Fixtures.ds52 Fixtures.indices52).1 in
  let test := (split Fixtures.ds52 Fixtures.ds52 Fixtures.indices52).2 in
  Fixtures.indices52 ≡ₚ Z.of_nat <$> seq 0 (__len__ Fixtures.ds52) ∧
  (∀ i, i < - Z.of_nat (subset_len train) ∨ Z.of_nat (subset_len train) ≤ i →
        subset_getitem Fixtures.fs_single train i = Raise IndexError) ∧
  (∀ i, i < - Z.of_nat (subset_len test) ∨ Z.of_nat (subset_len test) ≤ i →
        subset_getitem Fixtures.fs_single test i = Raise IndexError) ∧
  (∀ i sample, subset_getitem Fixtures.fs_single train i = Ok sample →
     ∃ j, 0 ≤ j < Z.of_nat (__len__ Fixtures.ds52) ∧
          j ∈ sub_indices train ∧ (j ∉ sub_indices test) ∧
          __getitem__ Fixtures.fs_single Fixtures.ds52 j = Ok sample) ∧
  (∀ i sample, subset_getitem Fixtures.fs_single test i = Ok sample →
     ∃ j, 0 ≤ j < Z.of_nat (__len__ Fixtures.ds52) ∧
          j ∈ sub_indices test ∧ (j ∉ sub_indices train) ∧
          __getitem__ Fixtures.fs_single Fixtures.ds52 j = Ok sample) ∧
  (∀ i i' j j', index (sub_indices train) i = Ok j →
                index (sub_indices test) i' = Ok j' →
                0 ≤ j ∧ 0 ≤ j' ∧ Z.to_nat j ≠ Z.to_nat j').
Proof.
  assert (Fixtures.indices52 ≡ₚ Z.of_nat <$> seq 0 (__len__ Fixtures.ds52))
    as Hperm.
  { unfold Fixtures.indices52. apply fmap_Permutation, reverse_Permutation. }
  split; [exact Hperm|].
  exact (split_halves_serve_disjoint_indices Fixtures.fs_single
           Fixtures.ds52 Fixtures.ds52 Fixtures.indices52 Hperm).
Defined.

End PennFudanMore.

(** ** The training and evaluation loops *)

Module HarnessFacts.
Import Py Harness.
Local Open Scope nat_scope.

(** *** The batch sampler *)

Lemma batch_sampler_join bs batch s :
  mjoin (batch_sampler bs batch s) = batch ++ s.
Proof.
  revert batch. induction s as [|idx s IH]; intros batch; cbn [batch_sampler].
  - destruct batch; [done|]. cbn. by rewrite !app_nil_r.
  - case_decide.
    + cbn. rewrite IH. cbn. by rewrite <- app_assoc.
    + rewrite IH. by rewrite <- app_assoc.
Qed.

(** Every batch but the last has [batch_size] elements. *)
Lemma batch_sampler_full bs batch s i b :
  batch_sampler bs batch s !! i = Some b →
  S i < length (batch_sampler bs batch s) →
  length b = bs.
Proof.
  revert batch i. induction s as [|idx s IH]; intros batch i;
    cbn [batch_sampler].
  - destruct batch; cbn; [done|]. destruct i; cbn; [lia|done].
  - case_decide as Hlen.
    + destruct i as [|i]; cbn.
      * by intros [= <-] _.
      * intros Hb Hi. apply (IH [] i); [done|lia].
    + apply IH.
Qed.

Lemma batch_sampler_nonempty bs batch s b :
  b ∈ batch_sampler bs batch s → b ≠ [].
Proof.
  revert batch. induction s as [|idx s IH]; intros batch;
    cbn [batch_sampler].
  - destruct batch; [by intros ?%elem_of_nil|].
    by intros ->%list_elem_of_singleton.
  - case_decide as Hlen.
    + intros [->|Hb]%elem_of_cons; [by destruct batch|by eapply IH].
    + apply IH.
Qed.

Lemma div_up_step n bs :
  bs ≠ 0 → (bs + n + bs - 1) / bs = S ((n + bs - 1) / bs).
Proof.
  intros Hbs.
  replace (bs + n + bs - 1) with (1 * bs + (n + bs - 1)) by lia.
  by rewrite Nat.div_add_l.
Qed.

Lemma batch_sampler_length bs batch s :
  length batch < bs →
  length (batch_sampler bs batch s) = (length batch + length s + bs - 1) / bs.
Proof.
  revert batch. induction s as [|idx s IH]; intros batch Hlt;
    cbn [batch_sampler].
  - destruct batch as [|x batch]; cbn [length].
    + symmetry. apply Nat.div_small. lia.
    + apply (Nat.div_unique _ _ 1 (length batch)); cbn in *; lia.
  - case_decide as Hlen; rewrite length_app in Hlen; cbn in Hlen.
    + cbn [length]. rewrite IH by (cbn; lia). cbn [length].
      replace (length batch + S (length s) + bs - 1)
        with (bs + length s + bs - 1) by lia.
      rewrite div_up_step by lia. done.
    + rewrite IH by (rewrite length_app; cbn; lia).
      rewrite length_app. cbn [length]. f_equal. lia.
Qed.

Section Loader.
Context {X : Type}.
Implicit Types (dl : DataLoader X) (draw : list nat).

Lemma DataLoader_init_Ok (ds : list (X * nat)) bs sh dl :
  DataLoader_init ds bs sh = Ok dl →
  dataset dl = ds ∧ batch_size dl = bs ∧ shuffle dl = sh ∧ bs ≠ 0 ∧
  (sh = true → ds ≠ []).
Proof.
  unfold DataLoader_init.
  destruct sh, ds; try done; case_decide; try done; by intros [= <-].
Qed.

(** A loader that shuffles cannot be built over an empty dataset. *)
Lemma DataLoader_init_empty_shuffled bs :
  DataLoader_init (X:=X) [] bs true = Raise ValueError.
Proof. done. Qed.

Lemma sampler_Permutation dl draw :
  valid_draw dl draw → sampler dl draw ≡ₚ seq 0 (length (dataset dl)).
Proof.
  unfold valid_draw, sampler. destruct (shuffle dl); auto.
Qed.

Lemma sampler_in_range dl draw i :
  valid_draw dl draw → i ∈ sampler dl draw → i < length (dataset dl).
Proof.
  intros Hv Hi. rewrite (sampler_Permutation _ _ Hv) in Hi.
  apply elem_of_seq in Hi. lia.
Qed.

Lemma sampler_unshuffled dl draw1 draw2 :
  shuffle dl = false → sampler dl draw1 = sampler dl draw2.
Proof. unfold sampler. by intros ->. Qed.

(** [len(dataloader)] is the number of batches of a pass. *)
Lemma length_iter dl draw :
  batch_size dl ≠ 0 → valid_draw dl draw →
  length (iter dl draw) = len dl.
Proof.
  intros Hbs Hv. unfold iter, len.
  rewrite length_fmap, batch_sampler_length by (cbn; lia).
  cbn [length]. by rewrite (sampler_Permutation _ _ Hv), length_seq.
Qed.

Lemma length_collate dl idxs :
  Forall (λ i, i < length (dataset dl)) idxs →
  length (collate dl idxs).1 = length idxs.
Proof.
  unfold collate. cbn [fst]. rewrite length_fmap.
  induction 1 as [|i idxs Hi _ IH]; [done|]. cbn.
  destruct (lookup_lt_is_Some_2 (dataset dl) i Hi) as [x ->]. cbn.
  by rewrite IH.
Qed.

Lemma sum_list_length_join (ls : list (list nat)) :
  sum_list (length <$> ls) = length (mjoin ls).
Proof.
  induction ls as [|l ls IH]; [done|]. cbn. by rewrite length_app, IH.
Qed.

Lemma num_samples_collate dl (bs : list (list nat)) :
  Forall (Forall (λ i, i < length (dataset dl))) bs →
  num_samples (collate dl <$> bs) = length (mjoin bs).
Proof.
  unfold num_samples. induction 1 as [|b bs Hb _ IH]; [done|].
  cbn. rewrite length_app. f_equal; [by apply length_collate|exact IH].
Qed.

Lemma batch_sampler_in_range dl draw :
  valid_draw dl draw →
  Forall (Forall (λ i, i < length (dataset dl)))
         (batch_sampler (batch_size dl) [] (sampler dl draw)).
Proof.
  intros Hv. apply Forall_forall. intros b Hb.
  apply Forall_forall. intros i Hi.
  apply (sampler_in_range dl draw i Hv).
  rewrite <- (app_nil_l (sampler dl draw)),
    <- (batch_sampler_join (batch_size dl)).
  apply list_elem_of_join. eauto.
Qed.

(** A pass serves every sample of the dataset once. *)
Lemma num_samples_iter dl draw :
  valid_draw dl draw →
  num_samples (iter dl draw) = length (dataset dl).
Proof.
  intros Hv. unfold iter.
  rewrite num_samples_collate by by apply batch_sampler_in_range.
  rewrite batch_sampler_join. cbn.
  by rewrite (sampler_Permutation _ _ Hv), length_seq.
Qed.

Lemma iter_unshuffled dl draw1 draw2 :
  shuffle dl = false → iter dl draw1 = iter dl draw2.
Proof.
  intros Hs. unfold iter. by rewrite (sampler_unshuffled _ draw1 draw2).
Qed.

Lemma iter_full_batch dl draw i b :
  valid_draw dl draw →
  iter dl draw !! i = Some b →
  S i < length (iter dl draw) →
  length b.1 = batch_size dl.
Proof.
  intros Hv Hb Hi. unfold iter in *.
  rewrite length_fmap in Hi.
  apply list_lookup_fmap_Some in Hb as (idxs & -> & Hidxs).
  rewrite length_collate.
  - by eapply batch_sampler_full.
  - eapply Forall_lookup_1; [by apply batch_sampler_in_range|done].
Qed.

(** Before a full-sized batch, the product of its number and its size
    counts the samples of the batches that precede it. *)
Lemma samples_before_full_batch dl draw i b :
  valid_draw dl draw →
  iter dl draw !! i = Some b →
  length b.1 = batch_size dl →
  samples_before (iter dl draw) i = i * length b.1.
Proof.
  intros Hv Hb Hfull. rewrite Hfull.
  apply lookup_lt_Some in Hb as Hi.
  unfold samples_before, num_samples.
  assert (∀ j, j ≤ i →
            sum_list ((λ b : list X * list nat, length b.1)
                        <$> take j (iter dl draw)) = j * batch_size dl)
    as Hsum; [|by apply Hsum].
  induction j as [|j IH]; intros Hj; [done|].
  destruct (lookup_lt_is_Some_2 (iter dl draw) j) as [bj Hbj]; [lia|].
  rewrite (take_S_r _ _ _ Hbj), fmap_app, sum_list_with_app, IH by lia.
  cbn. rewrite (iter_full_batch dl draw j bj) by (auto; lia). lia.
Qed.

End Loader.

Lemma count_equal_filter (a y : list nat) :
  count_equal a y = length (filter (λ p, p.1 = p.2) (zip a y)).
Proof.
  unfold count_equal. revert y.
  induction a as [|i a IH]; intros [|j y]; try done.
  cbn [zip_with]. rewrite filter_cons. cbn [fst snd sum_list_with].
  rewrite IH. by case_decide.
Qed.

(** *** [argmax] *)

Section Argmax.
Context {F : Type} `{Arith F}.

(** On scores that [ltb] orders as a strict weak order. *)
Hypothesis ltb_irrefl : ∀ a, ltb a a = false.
Hypothesis ltb_trans :
  ∀ a b c, ltb a b = true → ltb b c = true → ltb a c = true.
Hypothesis ltb_neg_trans :
  ∀ a b c, ltb a b = false → ltb b c = false → ltb a c = false.

Lemma argmax_from_spec row best_i best i :
  best_i < i →
  let cands := (best_i, best) :: zip (seq i (length row)) row in
  ∃ v, (argmax_from best_i best i row, v) ∈ cands ∧
       (∀ j u, (j, u) ∈ cands → ltb v u = false) ∧
       (∀ j u, (j, u) ∈ cands → j < argmax_from best_i best i row →
               ltb u v = true).
Proof using ltb_irrefl ltb_trans ltb_neg_trans.
  revert best_i best i. induction row as [|x row IH]; intros best_i best i Hi;
    cbn [argmax_from length seq zip_with].
  - exists best. split; [left|]. split.
    + intros j u [= -> ->]%list_elem_of_singleton. apply ltb_irrefl.
    + intros j u [= -> ->]%list_elem_of_singleton. lia.
  - destruct (ltb best x) eqn:Hbx.
    + destruct (IH i x (S i)) as (v & Hin & Hmax & Hfirst); [lia|].
      assert (ltb v x = false) as Hvx by (apply (Hmax i); left).
      assert (ltb best v = true) as Hbv.
      { destruct (ltb best v) eqn:Hbv; [done|].
        by rewrite (ltb_neg_trans _ _ _ Hbv Hvx) in Hbx. }
      exists v. split; [by right|]. split.
      * intros j u [[= -> ->]|Hju]%elem_of_cons; [|by eapply Hmax].
        destruct (ltb v best) eqn:Hvb; [|done].
        by rewrite (ltb_trans _ _ _ Hvb Hbx) in Hvx.
      * intros j u [[= -> ->]|Hju]%elem_of_cons Hj; [done|by eapply Hfirst].
    + destruct (IH best_i best (S i)) as (v & Hin & Hmax & Hfirst); [lia|].
      assert (ltb v best = false) as Hvb by (apply (Hmax best_i); left).
      exists v. split.
      { apply elem_of_cons in Hin as [Hin|Hin];
          [rewrite Hin; left|by do 2 right]. }
      split.
      * intros j u [Hju|[[= -> ->]|Hju]%elem_of_cons]%elem_of_cons.
        -- apply (Hmax j). rewrite Hju. left.
        -- by apply (ltb_neg_trans _ best).
        -- apply (Hmax j). by right.
      * intros j u [Hju|[[= -> ->]|Hju]%elem_of_cons]%elem_of_cons Hj.
        -- apply (Hfirst j); [rewrite Hju; left|done].
        -- assert (ltb best v = true) as Hbv.
           { apply (Hfirst best_i); [left|lia]. }
           destruct (ltb x v) eqn:Hxv; [done|].
           by rewrite (ltb_neg_trans _ _ _ Hbx Hxv) in Hbv.
        -- apply (Hfirst j); [by right|done].
Qed.

(** [argmax] returns the position of the first maximal score. *)
Lemma argmax_first_maximal (row : F * list F) :
  let scores := row.1 :: row.2 in
  ∃ v, scores !! argmax row = Some v ∧
       (∀ u, u ∈ scores → ltb v u = false) ∧
       (∀ j u, j < argmax row → scores !! j = Some u → ltb u v = true).
Proof using ltb_irrefl ltb_trans ltb_neg_trans.
  destruct row as [v0 rest]. cbn [fst snd]. unfold argmax. cbn [fst snd].
  destruct (argmax_from_spec rest 0 v0 1) as (v & Hin & Hmax & Hfirst); [lia|].
  assert (∀ j u, (j, u) ∈ (0, v0) :: zip (seq 1 (length rest)) rest ↔
                 (v0 :: rest) !! j = Some u) as Hlookup.
  { intros j u. change ((0, v0) :: zip (seq 1 (length rest)) rest)
      with (zip (seq 0 (length (v0 :: rest))) (v0 :: rest)).
    generalize (v0 :: rest). intros l.
    rewrite list_elem_of_lookup. split.
    - intros (k & Hk). apply lookup_zip_with_Some in Hk
        as (j' & u' & [= <- <-] & Hj & Hu).
      apply lookup_seq in Hj as [-> _]. done.
    - intros Hu. exists j. apply lookup_zip_with_Some.
      exists j, u. split; [done|]. split; [|done].
      apply lookup_seq. split; [done|]. by eapply lookup_lt_Some. }
  exists v. split; [by apply Hlookup|]. split.
  - intros u [j Hu]%list_elem_of_lookup. apply (Hmax j). by apply Hlookup.
  - intros j u Hj Hu. apply (Hfirst j); [by apply Hlookup|done].
Qed.

End Argmax.

Section Loops.
Context {F : Type} `{Arith F}.
Context {X P G O Pred Loss : Type} `{Autograd F G Pred Loss}.
Implicit Types (dl : DataLoader X) (draw : list nat).
Implicit Types (model : Model X P Pred) (loss_fn : Objective Pred Loss).
Implicit Types (optimizer : Optimizer P G O) (w : World F P G O).

Lemma test_loop_run model loss_fn batches tl c w :
  training w = false →
  test_loop model loss_fn batches tl c w =
  (Ok (foldl (λ acc b, add acc (item (batch_loss model loss_fn (params w) false b)))
             tl batches,
       c + sum_list ((λ b, count_equal
                             (argmax <$> logits (forward model (params w) false b.1))
                             b.2) <$> batches)),
   mkWorld (params w) (grads w) (opt_state w) false
           (trace w ++ mjoin ((λ _, [EvForward; EvLoss]) <$> batches))).
Proof.
  revert tl c w. induction batches as [|[X_ y] batches IH]; intros tl c w Hw.
  - cbn. unfold retM. rewrite app_nil_r, Nat.add_0_r.
    destruct w; cbn in *; by subst.
  - cbn [test_loop]. unfold bindM, call_model, call_loss.
    rewrite IH by done. cbn. rewrite Hw, <- !app_assoc. cbn.
    do 3 f_equal. unfold batch_loss. cbn. lia.
Qed.

Lemma len_pos dl :
  dataset dl ≠ [] → batch_size dl ≠ 0 → len dl ≠ 0.
Proof.
  intros Hds Hbs. unfold len.
  assert (0 < length (dataset dl)) by (destruct (dataset dl); cbn; [done|lia]).
  intros Hz. apply Nat.div_small_iff in Hz; lia.
Qed.

(** One run of [test] leaves the parameters, the gradient buffers and
    the optimizer alone, switches the model to evaluation mode, and
    extends the trace by [test_events]. *)
Lemma test_run dl draw model loss_fn w :
  test dl draw model loss_fn w =
  (test_outcome dl,
   mkWorld (params w) (grads w) (opt_state w) false
           (trace w ++ test_events model loss_fn (params w) dl (iter dl draw))).
Proof.
  unfold test, test_outcome, test_events.
  unfold bindM at 1. unfold set_mode at 1. unfold bindM at 1.
  rewrite test_loop_run by done. cbn [params grads opt_state trace emit fst snd].
  unfold truediv, bindM, raiseM, retM, print, emit. cbn.
  rewrite <- !app_assoc. cbn.
  destruct (decide (len dl = 0 ∨ length (dataset dl) = 0)) as [Hz|Hz].
  - rewrite app_nil_r.
    destruct (decide (len dl = 0)) as [Hl|Hl]; [done|].
    destruct (decide (length (dataset dl) = 0)) as [Hs|Hs]; [done|].
    by destruct Hz.
  - destruct (decide (len dl = 0)) as [Hl|Hl]; [by destruct Hz; left|].
    destruct (decide (length (dataset dl) = 0)) as [Hs|Hs];
      [by destruct Hz; right|].
    cbn. by rewrite <- !app_assoc.
Qed.

Lemma reports_app (tr1 tr2 : list (event F)) :
  reports (tr1 ++ tr2) = reports tr1 ++ reports tr2.
Proof. apply omap_app. Qed.

Lemma reports_forward_loss (batches : list (list X * list nat)) :
  reports (F := F) (mjoin ((λ _, [EvForward; EvLoss]) <$> batches)) = [].
Proof. induction batches as [|b batches IH]; [done|exact IH]. Qed.

Lemma len_empty dl : dataset dl = [] → len dl = 0.
Proof.
  unfold len. intros ->. cbn [length].
  destruct (batch_size dl) as [|n]; [done|].
  apply Nat.div_small. lia.
Qed.

(** C5 (amended): over a loader with at least one sample, [test] sums
    the batch losses and counts the samples whose arg-max class is
    their label, and prints (it returns nothing) the average loss per
    batch and the accuracy, as a percentage; over an empty dataset the
    division by the number of batches raises [ZeroDivisionError] and
    nothing is printed. *)
Theorem test_reports_averages dl draw model loss_fn w :
  (dataset dl = [] →
   (test dl draw model loss_fn w).1 = Raise ZeroDivisionError ∧
   reports (trace (test dl draw model loss_fn w).2) = reports (trace w)) ∧
  (dataset dl ≠ [] → batch_size dl ≠ 0 → valid_draw dl draw →
   let batches := iter dl draw in
   let average_loss :=
     div (total_loss model loss_fn (params w) batches)
         (of_nat (length batches)) in
   let accuracy :=
     div (of_nat (num_correct model (params w) batches))
         (of_nat (num_samples batches)) in
   test dl draw model loss_fn w =
   (Ok (),
    mkWorld (params w) (grads w) (opt_state w) false
            (trace w ++ EvEval :: mjoin ((λ _, [EvForward; EvLoss]) <$> batches)
                     ++ [EvPrintTest (mul (of_nat 100) accuracy) average_loss]))).
Proof.
  split.
  - intros Hds. rewrite test_run. cbn [fst snd trace].
    unfold test_outcome, test_events.
    rewrite !decide_True by (left; by apply len_empty).
    split; [done|]. rewrite app_nil_r, reports_app.
    rewrite <- (app_nil_r (reports (trace w))) at 2. f_equal.
    exact (reports_forward_loss _).
  - intros Hds Hbs Hv. cbn zeta.
    rewrite test_run, length_iter, num_samples_iter by done.
    unfold test_outcome, test_events.
    pose proof (len_pos dl Hds Hbs) as Hl.
    assert (length (dataset dl) ≠ 0) by (by destruct (dataset dl)).
    by rewrite !decide_False by (intros [?|?]; done).
Qed.

(** C1 (amended): [test] never changes the parameters; two consecutive
    runs print the same results whenever both passes see the same
    sequence of batches, as they do with shuffling disabled. *)
Theorem test_frame_and_repeatable dl model loss_fn draw1 draw2 w :
  let run1 := test dl draw1 model loss_fn w in
  let run2 := test dl draw2 model loss_fn run1.2 in
  (params run1.2 = params w ∧ params run2.2 = params w) ∧
  (shuffle dl = false ∨ iter dl draw1 = iter dl draw2 →
   run1.1 = run2.1 ∧
   ∃ evs, trace run1.2 = trace w ++ evs ∧
          trace run2.2 = trace run1.2 ++ evs ∧
          reports (trace run2.2)
          = reports (trace w) ++ reports evs ++ reports evs).
Proof.
  cbn zeta. rewrite !test_run. cbn [fst snd params trace].
  split; [done|]. intros Hsame.
  assert (iter dl draw1 = iter dl draw2) as ->.
  { destruct Hsame as [Hs|?]; [by apply iter_unshuffled|done]. }
  split; [done|]. eexists. split; [done|]. split; [done|].
  by rewrite !reports_app, <- app_assoc.
Qed.

Lemma train_loop_run K size model loss_fn optimizer i0 batches w :
  training w = true →
  let st0 := (params w, grads w, opt_state w) in
  let final := foldl (sgd_step model loss_fn optimizer) st0 batches in
  train_loop K size model loss_fn optimizer i0 batches w =
  (Ok (),
   mkWorld final.1.1 final.1.2 final.2 true
     (trace w ++
      mjoin (imap (λ j b,
               batch_events K size model loss_fn
                 (foldl (sgd_step model loss_fn optimizer) st0 (take j batches))
                 (i0 + j) b) batches))).
Proof.
  revert i0 w. induction batches as [|[X_ y] batches IH]; intros i0 w Hw.
  - cbn. unfold retM. rewrite app_nil_r. destruct w; cbn in *; by subst.
  - cbn zeta. cbn [train_loop].
    unfold bindM at 1. unfold call_model at 1.
    unfold bindM at 1. unfold call_loss at 1.
    unfold bindM at 1. unfold zero_grad at 1.
    unfold bindM at 1. unfold backward at 1.
    unfold bindM at 1. unfold step at 1.
    cbn [params grads opt_state training trace emit].
    destruct (update optimizer _ _ _) as [p' o'] eqn:Hup.
    unfold bindM at 1.
    set (st0 := (params w, grads w, opt_state w)).
    assert (sgd_step model loss_fn optimizer st0 (X_, y)
            = (p', accumulate zero
                     (gradient (loss_of loss_fn
                                  (forward model (params w) (training w) X_) y)),
               o')) as Hstep.
    { unfold sgd_step, batch_loss. cbn. rewrite Hw in Hup. rewrite Hw, Hup. done. }
    rewrite imap_cons. cbn [mjoin list_join foldl take].
    rewrite Nat.add_0_r. rewrite Hstep.
    assert (∀ w1 : World F P G O,
              training w1 = true →
              params w1 = p' →
              grads w1 = accumulate zero
                     (gradient (loss_of loss_fn
                                  (forward model (params w) (training w) X_) y)) →
              opt_state w1 = o' →
              trace w1 = trace w ++ batch_events K size model loss_fn st0 i0 (X_, y) →
              train_loop K size model loss_fn optimizer (S i0) batches w1 =
              (Ok (),
               let final := foldl (sgd_step model loss_fn optimizer)
                              (p', accumulate zero
                                     (gradient (loss_of loss_fn
                                        (forward model (params w) (training w) X_) y)),
                               o') batches in
               mkWorld final.1.1 final.1.2 final.2 true
                 ((trace w ++ batch_events K size model loss_fn st0 i0 (X_, y)) ++
                  mjoin (imap ((λ j b,
                           batch_events K size model loss_fn
                             (foldl (sgd_step model loss_fn optimizer) st0
                                    (take j ((X_, y) :: batches)))
                             (i0 + j) b) ∘ S) batches)))) as Hrest.
    { intros w1 Ht Hp Hg Ho Htr. rewrite IH by done. cbn zeta.
      rewrite Hp, Hg, Ho, Htr. do 4 f_equal.
      apply imap_ext. intros j b _. cbn [compose take foldl].
      rewrite Hstep. f_equal. lia. }
    unfold batch_events in *. cbn [fst snd] in *.
    unfold batch_loss in *. subst st0. cbn [fst snd] in *. rewrite Hw in *.
    case_decide.
    + unfold print at 1.
      rewrite Hrest; unfold emit, five_steps;
        cbn [params grads opt_state training trace];
        rewrite <- ?app_assoc; done.
    + unfold retM at 1.
      rewrite Hrest; unfold emit, five_steps;
        cbn [params grads opt_state training trace];
        rewrite <- ?app_assoc, ?app_nil_r; done.
Qed.

Lemma train_every_run K dl draw model loss_fn optimizer w :
  let batches := iter dl draw in
  let st0 := (params w, grads w, opt_state w) in
  let final := foldl (sgd_step model loss_fn optimizer) st0 batches in
  train_every K dl draw model loss_fn optimizer w =
  (Ok (),
   mkWorld final.1.1 final.1.2 final.2 true
     (trace w ++ EvTrain ::
      mjoin (imap (λ i b,
               batch_events K (length (dataset dl)) model loss_fn
                 (foldl (sgd_step model loss_fn optimizer) st0 (take i batches))
                 i b) batches))).
Proof.
  cbn zeta. unfold train_every, bindM at 1, set_mode at 1.
  rewrite train_loop_run by done.
  cbn [params grads opt_state training trace emit].
  by rewrite <- app_assoc.
Qed.

(** X19: every iteration of [train] calls the model, the objective,
    [zero_grad], [backward] and [step] in this order, so that each
    update applies the gradient of its own batch; after the iterations
    whose number is a multiple of K (500 for CIFAR-10, 100 for
    Fashion-MNIST) it prints the loss of that batch and a counter; on
    a full-sized batch the counter is the number of samples of the
    preceding batches. *)
Theorem train_order_and_progress dl draw model loss_fn optimizer w :
  let batches := iter dl draw in
  let size := length (dataset dl) in
  let st0 := (params w, grads w, opt_state w) in
  let st i := foldl (sgd_step model loss_fn optimizer) st0 (take i batches) in
  let final := foldl (sgd_step model loss_fn optimizer) st0 batches in
  let outcome K :=
    (Ok (),
     mkWorld final.1.1 final.1.2 final.2 true
       (trace w ++ EvTrain ::
        mjoin (imap (λ i b, batch_events K size model loss_fn (st i) i b)
                    batches))) in
  train_cifar10 dl draw model loss_fn optimizer w = outcome 500 ∧
  train_fashion_mnist dl draw model loss_fn optimizer w = outcome 100 ∧
  (∀ K (s : P * G * O) i b,
     progress (batch_events K size model loss_fn s i b)
     = if decide (i mod K = 0) then [(i * length b.1, size)] else []) ∧
  (valid_draw dl draw →
   ∀ i b, batches !! i = Some b → length b.1 = batch_size dl →
          i * length b.1 = samples_before batches i).
Proof.
  cbn zeta. split; [apply train_every_run|]. split; [apply train_every_run|].
  split.
  - intros K s i b. unfold batch_events, progress.
    rewrite omap_app. cbn. by case_decide.
  - intros Hv i b Hb Hfull. symmetry. by eapply samples_before_full_batch.
Qed.

End Loops.

(** *** Examples *)

Import Fixtures.

(** C1, as stated, fails: with [shuffle=True] two consecutive runs of
    [test] on the same model and dataset form different batches and
    print different average losses (7/4, then 5/4). *)
Lemma test_twice_shuffled_differs :
  let run1 := test (loader3 true) [0; 1; 2] model_toy loss_toy world0 in
  let run2 := test (loader3 true) [0; 2; 1] model_toy loss_toy run1.2 in
  valid_draw (loader3 true) [0; 1; 2] ∧
  valid_draw (loader3 true) [0; 2; 1] ∧
  ∃ l1 a1 l2 a2,
    reports (trace run1.2) = [(l1, a1)] ∧
    reports (trace run2.2) = [(l1, a1); (l2, a2)] ∧
    Qeq l1 (7 # 4) ∧ Qeq l2 (5 # 4) ∧ ¬ Qeq l1 l2.
Proof.
  cbn zeta. split; [|split].
  - intros _. reflexivity.
  - intros _. apply perm_skip, perm_swap.
  - eexists _, _, _, _. split; [vm_compute; reflexivity|].
    split; [vm_compute; reflexivity|]. by vm_compute.
Qed.

Lemma test_frame_and_repeatable_witness :
  let run1 := test (loader3 false) [] model_toy loss_toy world0 in
  let run2 := test (loader3 false) [] model_toy loss_toy run1.2 in
  shuffle (loader3 false) = false ∧
  (params run1.2 = 7 ∧ params run2.2 = 7) ∧
  run1.1 = run2.1 ∧
  ∃ evs, trace run1.2 = trace world0 ++ evs ∧
         trace run2.2 = trace run1.2 ++ evs ∧
         reports (trace run2.2)
         = reports (trace world0) ++ reports evs ++ reports evs.
Proof.
  cbn zeta.
  pose proof (test_frame_and_repeatable (loader3 false) model_toy loss_toy
                [] [] world0) as [Hframe Hsame].
  split; [reflexivity|]. split; [exact Hframe|].
  apply Hsame. left. reflexivity.
Defined.

(** C5, as stated, fails: over a loader without batches the division by
    the number of batches raises [ZeroDivisionError] and nothing is
    printed; and over a loader with batches the pair is printed, the
    value returned being [None]. *)
Lemma test_returns_no_pair :
  len loader0 = 0 ∧
  (test loader0 [] model_toy loss_toy world0).1 = Raise ZeroDivisionError ∧
  reports (trace (test loader0 [] model_toy loss_toy world0).2) = [] ∧
  (test (loader3 false) [] model_toy loss_toy world0).1 = Ok () ∧
  ∃ l a, reports (trace (test (loader3 false) [] model_toy loss_toy world0).2)
         = [(l, a)] ∧ Qeq l (7 # 4) ∧ Qeq a (200 # 3).
Proof.
  repeat split; try reflexivity.
  eexists _, _. split; [vm_compute; reflexivity|]. by vm_compute.
Qed.

Lemma test_reports_averages_witness :
  let batches := iter (loader3 false) [] in
  let average_loss :=
    div (total_loss model_toy loss_toy 7 batches) (of_nat (length batches)) in
  let accuracy :=
    div (of_nat (num_correct model_toy 7 batches))
        (of_nat (num_samples batches)) in
  (test loader0 [] model_toy loss_toy world0).1 = Raise ZeroDivisionError ∧
  test (loader3 false) [] model_toy loss_toy world0 =
  (Ok (),
   mkWorld 7 () () false
     (trace world0 ++ EvEval :: mjoin ((λ _, [EvForward; EvLoss]) <$> batches)
        ++ [EvPrintTest (mul (of_nat 100) accuracy) average_loss])).
Proof.
  split.
  - apply (test_reports_averages loader0 [] model_toy loss_toy world0).
    reflexivity.
  - apply (test_reports_averages (loader3 false) [] model_toy loss_toy world0).
    + discriminate.
    + discriminate.
    + intros Hs. discriminate Hs.
Defined.

Example test_counts_two_of_three :
  num_correct model_toy 7 (iter (loader3 false) []) = 2 ∧
  num_samples (iter (loader3 false) []) = 3 ∧
  length (iter (loader3 false) []) = 2 ∧
  Qeq (total_loss model_toy loss_toy 7 (iter (loader3 false) [])) (7 # 2).
Proof. repeat split; by vm_compute. Qed.

(** C6: on 601 samples in batches of two the Fashion-MNIST [train]
    prints the counters 0, 200 and 400 and then 300: after batch number
    300, which holds the one remaining sample, the counter is the batch
    number times the size of that batch, although 600 samples were
    processed before that batch and 601 with it. *)
Theorem train_counter_runs_backwards :
  let batches := iter loader601 [] in
  let run := train_fashion_mnist loader601 [] model_toy loss_toy
               optimizer_toy world0 in
  run.1 = Ok () ∧
  length batches = 301 ∧
  progress (trace run.2) = [(0, 601); (200, 601); (400, 601); (300, 601)] ∧
  samples_before batches 300 = 600 ∧
  samples_before batches 301 = 601.
Proof. cbn zeta. repeat split; by vm_compute. Qed.

Lemma train_order_and_progress_witness :
  let batches := iter (loader3 false) [] in
  valid_draw (loader3 false) [] ∧
  batches !! 0 = Some ([0; 1], [0; 1]) ∧
  0 * length [0; 1] = samples_before batches 0 ∧
  trace (train_fashion_mnist (loader3 false) [] model_toy loss_toy
           optimizer_toy world0).2
  = [EvTrain;
     EvForward; EvLoss; EvZeroGrad; EvBackward; EvStep;
     EvPrintProgress (div (of_nat 1) (of_nat 2)) 0 3;
     EvForward; EvLoss; EvZeroGrad; EvBackward; EvStep] ∧
  params (train_fashion_mnist (loader3 false) [] model_toy loss_toy
            optimizer_toy world0).2 = 9.
Proof.
  cbn zeta.
  pose proof (train_order_and_progress (loader3 false) [] model_toy loss_toy
                optimizer_toy world0) as (_ & Hrun & _ & Hcount).
  assert (valid_draw (loader3 false) []) as Hv by (intros Hs; discriminate Hs).
  split; [exact Hv|]. split; [reflexivity|].
  split; [by apply (Hcount Hv 0 ([0; 1], [0; 1]))|].
  rewrite Hrun. split; reflexivity.
Defined.

End HarnessFacts.

(** ** Further properties of the loops *)

Module HarnessMore.
Import Py Harness HarnessSpec HarnessFacts.
Local Open Scope nat_scope.

Lemma count_equal_le (a y : list nat) :
  count_equal a y ≤ length a ∧ count_equal a y ≤ length y.
Proof.
  rewrite count_equal_filter.
  pose proof (length_filter (λ p : nat * nat, p.1 = p.2) (zip a y)) as Hle.
  rewrite length_zip_with in Hle. lia.
Qed.

Lemma count_equal_cons i j (a y : list nat) :
  count_equal (i :: a) (j :: y)
  = (if decide (i = j) then 1 else 0) + count_equal a y.
Proof. done. Qed.

Lemma omap_lookup_seq {A} (l1 l2 : list A) :
  omap (λ i, (l1 ++ l2) !! i) (seq (length l1) (length l2)) = l2.
Proof.
  revert l1. induction l2 as [|x l2 IH]; intros l1; [done|].
  cbn [length seq omap list_omap].
  rewrite lookup_app_r, Nat.sub_diag by lia. cbn.
  f_equal. specialize (IH (l1 ++ [x])).
  rewrite <- app_assoc, length_app in IH. cbn in IH.
  by rewrite Nat.add_1_r in IH.
Qed.

Section Coverage.
Context {X : Type}.
Implicit Types (dl : DataLoader X).

Lemma samples_of_collate dl (bs : list (list nat)) :
  mjoin ((λ b, zip b.1 b.2) <$> (collate dl <$> bs))
  = omap (λ i, dataset dl !! i) (mjoin bs).
Proof.
  induction bs as [|idxs bs IH]; [done|].
  change (mjoin (idxs :: bs)) with (idxs ++ mjoin bs).
  rewrite omap_app, <- IH, !fmap_cons. cbn [mjoin list_join].
  f_equal. unfold collate. cbn [fst snd]. apply zip_fst_snd.
Qed.

(** X7: the batches that one pass of [train] or [test] iterates over
    hold every sample of the dataset exactly once, in dataset order
    when the loader does not shuffle; there are [len(dataloader)] of
    them, none is empty, and all but the last hold [batch_size]
    samples. *)
Theorem pass_covers_dataset_once dl draw :
  batch_size dl ≠ 0 → valid_draw dl draw →
  let samples := mjoin ((λ b, zip b.1 b.2) <$> iter dl draw) in
  samples ≡ₚ dataset dl ∧
  (shuffle dl = false → samples = dataset dl) ∧
  length (iter dl draw) = len dl ∧
  (∀ i b, iter dl draw !! i = Some b → S i < len dl →
          length b.1 = batch_size dl) ∧
  (∀ b, b ∈ iter dl draw → b.1 ≠ []).
Proof.
  intros Hbs Hv. cbn zeta. unfold iter at 1 2.
  rewrite samples_of_collate, batch_sampler_join. cbn [app].
  pose proof (length_iter dl draw Hbs Hv) as Hlen.
  split; [|split; [|split; [done|split]]].
  - rewrite (sampler_Permutation _ _ Hv).
    pose proof (omap_lookup_seq [] (dataset dl)) as Heq.
    cbn in Heq. by rewrite Heq.
  - intros Hsh. unfold sampler. rewrite Hsh.
    apply (omap_lookup_seq [] (dataset dl)).
  - intros i b Hb Hi. apply (iter_full_batch dl draw i b Hv Hb). lia.
  - intros b Hb. unfold iter in Hb.
    apply list_elem_of_fmap in Hb as (idxs & -> & Hidxs).
    intros Hnil. apply (f_equal length) in Hnil.
    rewrite length_collate in Hnil.
    + apply batch_sampler_nonempty in Hidxs. by destruct idxs.
    + apply list_elem_of_lookup in Hidxs as [k Hk].
      eapply Forall_lookup_1; [by apply batch_sampler_in_range|done].
Qed.

End Coverage.

Section Accuracy.
Context {F : Type} `{Arith F}.
Context {X P G O Pred Loss : Type} `{Autograd F G Pred Loss}.
Implicit Types (dl : DataLoader X) (model : Model X P Pred).
Implicit Types (loss_fn : Objective Pred Loss) (w : World F P G O).

Lemma collate_lengths dl idxs :
  length (collate dl idxs).2 = length (collate dl idxs).1.
Proof. unfold collate. cbn. by rewrite !length_fmap. Qed.

Lemma num_correct_le_samples dl draw model (p : P) :
  valid_draw dl draw →
  num_correct model p (iter dl draw) ≤ length (dataset dl).
Proof.
  intros Hv. rewrite <- (num_samples_iter dl draw Hv).
  unfold num_correct, num_samples, iter.
  induction (batch_sampler (batch_size dl) [] (sampler dl draw))
    as [|idxs bs IH]; [done|].
  cbn. pose proof (count_equal_le
    (argmax <$> logits (forward model p false (collate dl idxs).1))
    (collate dl idxs).2) as [_ Hle].
  rewrite collate_lengths in Hle. cbn in *. lia.
Qed.

(** Over a loader with at least one sample [test] returns, and the last
    thing it prints is the accuracy and the average loss. *)
Lemma test_prints_last dl draw model loss_fn w :
  dataset dl ≠ [] → batch_size dl ≠ 0 →
  (test dl draw model loss_fn w).1 = Ok () ∧
  last (trace (test dl draw model loss_fn w).2)
  = Some (EvPrintTest
            (mul (of_nat 100)
                 (div (of_nat (num_correct model (params w) (iter dl draw)))
                      (of_nat (length (dataset dl)))))
            (div (total_loss model loss_fn (params w) (iter dl draw))
                 (of_nat (len dl)))).
Proof.
  intros Hds Hbs. rewrite test_run. cbn [fst snd trace].
  unfold test_outcome, test_events.
  pose proof (len_pos dl Hds Hbs) as Hl.
  assert (length (dataset dl) ≠ 0) by (by destruct (dataset dl)).
  rewrite !decide_False by (intros [?|?]; done).
  split; [done|].
  by rewrite app_comm_cons, app_assoc, last_snoc.
Qed.

(** X8: over a loader with at least one sample [test] returns, and the
    accuracy it prints is [100 * (correct / size)] for a count
    [correct] of predictions that is at most [size], the number of
    samples of the dataset, whatever the model returns: the printed
    accuracy is a fraction of at most one, as a percentage. *)
Theorem correct_at_most_samples dl draw model loss_fn w :
  dataset dl ≠ [] → batch_size dl ≠ 0 → valid_draw dl draw →
  let size := length (dataset dl) in
  (test dl draw model loss_fn w).1 = Ok () ∧
  ∃ correct test_loss,
    last (trace (test dl draw model loss_fn w).2)
    = Some (EvPrintTest (mul (of_nat 100) (div (of_nat correct) (of_nat size)))
                        test_loss) ∧
    correct ≤ size.
Proof.
  intros Hds Hbs Hv. cbn zeta.
  destruct (test_prints_last dl draw model loss_fn w Hds Hbs) as [Hok Hlast].
  split; [done|]. eexists _, _. split; [exact Hlast|].
  by apply num_correct_le_samples.
Qed.

Lemma count_equal_pointwise (f : X → F * list F) (samples : list (X * nat)) :
  count_equal (argmax <$> (f <$> (fst <$> samples))) (snd <$> samples)
  = length (filter (correct_sample f) samples).
Proof.
  induction samples as [|[x y] samples IH]; [done|].
  rewrite !fmap_cons, count_equal_cons, IH, filter_cons.
  destruct (decide (correct_sample f (x, y))) as [Hc|Hc];
    unfold correct_sample in Hc;
    [rewrite decide_True by done|rewrite decide_False by done]; done.
Qed.

Lemma dataset_of_sampler dl draw :
  valid_draw dl draw →
  omap (λ i, dataset dl !! i) (sampler dl draw) ≡ₚ dataset dl.
Proof.
  intros Hv. rewrite (sampler_Permutation _ _ Hv).
  pose proof (omap_lookup_seq [] (dataset dl)) as Heq.
  cbn in Heq. by rewrite Heq.
Qed.

Lemma num_correct_collate dl model (p : P) f (bs : list (list nat)) :
  pointwise model p f →
  num_correct model p (collate dl <$> bs)
  = length (filter (correct_sample f)
                   (omap (λ i, dataset dl !! i) (mjoin bs))).
Proof.
  intros Hpw. induction bs as [|idxs bs IH]; [done|].
  change (mjoin (idxs :: bs)) with (idxs ++ mjoin bs).
  rewrite omap_app, filter_app, length_app, <- IH.
  unfold num_correct. rewrite !fmap_cons. cbn [sum_list_with]. f_equal.
  rewrite Hpw. unfold collate. cbn [fst snd].
  apply count_equal_pointwise.
Qed.

Lemma num_correct_pointwise dl draw model (p : P) f :
  pointwise model p f →
  valid_draw dl draw →
  num_correct model p (iter dl draw)
  = length (filter (correct_sample f) (dataset dl)).
Proof.
  intros Hpw Hv. unfold iter.
  rewrite (num_correct_collate _ _ _ f) by done.
  rewrite batch_sampler_join. cbn [app].
  by rewrite (dataset_of_sampler dl draw Hv).
Qed.

(** X9: for a model that scores the samples of a batch independently
    of one another, the accuracy that [test] prints is the percentage
    of correctly classified samples of the dataset: two loaders over
    the same dataset print the same accuracy, whatever their batch
    sizes, whether or not they shuffle, and whatever order the sampler
    draws. *)
Theorem accuracy_independent_of_batching dl1 dl2 draw1 draw2 model
    loss_fn w f :
  dataset dl1 = dataset dl2 →
  dataset dl1 ≠ [] → batch_size dl1 ≠ 0 → batch_size dl2 ≠ 0 →
  valid_draw dl1 draw1 → valid_draw dl2 draw2 →
  pointwise model (params w) f →
  let accuracy :=
    mul (of_nat 100)
        (div (of_nat (length (filter (correct_sample f) (dataset dl1))))
             (of_nat (length (dataset dl1)))) in
  (test dl1 draw1 model loss_fn w).1 = Ok () ∧
  (test dl2 draw2 model loss_fn w).1 = Ok () ∧
  ∃ test_loss1 test_loss2,
    last (trace (test dl1 draw1 model loss_fn w).2)
    = Some (EvPrintTest accuracy test_loss1) ∧
    last (trace (test dl2 draw2 model loss_fn w).2)
    = Some (EvPrintTest accuracy test_loss2).
Proof.
  intros Hds Hne Hbs1 Hbs2 Hv1 Hv2 Hpw. cbn zeta.
  assert (dataset dl2 ≠ []) as Hne2 by (by rewrite <- Hds).
  destruct (test_prints_last dl1 draw1 model loss_fn w Hne Hbs1) as [Hok1 Hl1].
  destruct (test_prints_last dl2 draw2 model loss_fn w Hne2 Hbs2) as [Hok2 Hl2].
  rewrite (num_correct_pointwise dl1 draw1 model (params w) f Hpw Hv1) in Hl1.
  rewrite (num_correct_pointwise dl2 draw2 model (params w) f Hpw Hv2) in Hl2.
  rewrite <- Hds in Hl2.
  split; [done|]. split; [done|]. eexists _, _. by split.
Qed.

End Accuracy.

Import Fixtures.

Lemma pass_covers_dataset_once_witness :
  let samples := mjoin ((λ b, zip b.1 b.2) <$> iter (loader3 true) [2; 0; 1]) in
  samples ≡ₚ dataset (loader3 true) ∧
  (shuffle (loader3 true) = false → samples = dataset (loader3 true)) ∧
  length (iter (loader3 true) [2; 0; 1]) = len (loader3 true) ∧
  (∀ i b, iter (loader3 true) [2; 0; 1] !! i = Some b →
          S i < len (loader3 true) →
          length b.1 = batch_size (loader3 true)) ∧
  (∀ b, b ∈ iter (loader3 true) [2; 0; 1] → b.1 ≠ []).
Proof.
  apply (pass_covers_dataset_once (loader3 true) [2; 0; 1]); [done|].
  intros _. etrans; [apply perm_swap|]. apply perm_skip, perm_swap.
Defined.

Lemma correct_at_most_samples_witness :
  let run := test (loader3 true) [2; 0; 1] model_toy loss_toy world0 in
  run.1 = Ok () ∧
  ∃ correct test_loss,
    last (trace run.2)
    = Some (EvPrintTest (mul (of_nat 100) (div (of_nat correct) (of_nat 3)))
                        test_loss) ∧
    correct ≤ 3.
Proof.
  apply (correct_at_most_samples (loader3 true) [2; 0; 1] model_toy loss_toy
           world0); [done|done|].
  intros _. etrans; [apply perm_swap|]. apply perm_skip, perm_swap.
Defined.

Lemma accuracy_independent_of_batching_witness :
  let dl2 := mkDataLoader (dataset (loader3 true)) 1 false in
  let run1 := test (loader3 true) [2; 0; 1] model_toy loss_toy world0 in
  let run2 := test dl2 [] model_toy loss_toy world0 in
  let accuracy :=
    mul (of_nat 100)
        (div (of_nat (length (filter (correct_sample (λ x : nat, (of_nat 0, [of_nat x])))
                                     (dataset (loader3 true)))))
             (of_nat (length (dataset (loader3 true))))) in
  run1.1 = Ok () ∧ run2.1 = Ok () ∧
  ∃ test_loss1 test_loss2,
    last (trace run1.2) = Some (EvPrintTest accuracy test_loss1) ∧
    last (trace run2.2) = Some (EvPrintTest accuracy test_loss2).
Proof.
  apply (accuracy_independent_of_batching (loader3 true)
           (mkDataLoader (dataset (loader3 true)) 1 false) [2; 0; 1] []
           model_toy loss_toy world0 (λ x : nat, (of_nat 0, [of_nat x])));
    [done|done|done|done| |done|].
  - intros _. etrans; [apply perm_swap|]. apply perm_skip, perm_swap.
  - intros X_. reflexivity.
Defined.

End HarnessMore.

(** * Facts about the cells that drive the loops *)

Module DriverFacts.
Import Py Harness HarnessFacts Driver.
Local Open Scope nat_scope.

Lemma imap_seq_diag {B} (f : nat → nat → B) n :
  imap f (seq 0 n) = (λ t, f t t) <$> seq 0 n.
Proof.
  apply list_eq. intros i. rewrite list_lookup_imap, list_lookup_fmap.
  destruct (seq 0 n !! i) as [t|] eqn:Ht; [|done].
  apply lookup_seq in Ht as [-> _]. done.
Qed.

Section Driver.
Context {F : Type} `{Arith F}.
Context {X P G O Pred Loss : Type} `{Autograd F G Pred Loss}.
Implicit Types (trainloader testloader : DataLoader X).
Implicit Types (model : Model X P Pred) (loss_fn : Objective Pred Loss).
Implicit Types (optimizer : Optimizer P G O) (c : Console F P G O).

Lemma run_extends {A} (m : @M F P G O A) c r w' evs :
  m (world c) = (r, w') →
  trace w' = trace (world c) ++ evs →
  run m c = (r, mkConsole w' (out c ++ (Of <$> evs))).
Proof. intros Hm Ht. unfold run. by rewrite Hm, Ht, drop_app_length. Qed.

Lemma events_of_Of (evs : list (event F)) :
  events_of (Of <$> evs) = evs.
Proof. induction evs as [|e evs IH]; [done|]. cbn. f_equal. exact IH. Qed.

Lemma state_of_mk (st : P * G * O) md (tr : list (event F)) :
  state_of (mkWorld st.1.1 st.1.2 st.2 md tr) = st.
Proof. by destruct st as [[??]?]. Qed.

Lemma events_of_app (ls1 ls2 : list (line F)) :
  events_of (ls1 ++ ls2) = events_of ls1 ++ events_of ls2.
Proof. apply omap_app. Qed.

Lemma events_of_Epoch n (ls : list (line F)) :
  events_of (Epoch n :: ls) = events_of ls.
Proof. done. Qed.

Lemma run_train_every K trainloader draw model loss_fn optimizer c :
  let batches := iter trainloader draw in
  let st0 := state_of (world c) in
  let final := foldl (sgd_step model loss_fn optimizer) st0 batches in
  run (train_every K trainloader draw model loss_fn optimizer) c =
  (Ok (),
   mkConsole
     (mkWorld final.1.1 final.1.2 final.2 true
        (trace (world c) ++ EvTrain ::
         mjoin (imap (λ i b,
                  batch_events K (length (dataset trainloader)) model loss_fn
                    (foldl (sgd_step model loss_fn optimizer) st0 (take i batches))
                    i b) batches)))
     (out c ++ (Of <$> EvTrain ::
         mjoin (imap (λ i b,
                  batch_events K (length (dataset trainloader)) model loss_fn
                    (foldl (sgd_step model loss_fn optimizer) st0 (take i batches))
                    i b) batches)))).
Proof.
  cbn zeta. erewrite run_extends; [done|apply train_every_run|done].
Qed.

Lemma run_test testloader draw model loss_fn c :
  run (test testloader draw model loss_fn) c =
  (test_outcome testloader,
   mkConsole
     (mkWorld (params (world c)) (grads (world c)) (opt_state (world c)) false
        (trace (world c) ++
         test_events model loss_fn (params (world c)) testloader
                     (iter testloader draw)))
     (out c ++ (Of <$> test_events model loss_fn (params (world c)) testloader
                                   (iter testloader draw)))).
Proof. erewrite run_extends; [done|apply test_run|done]. Qed.

Lemma test_outcome_Ok testloader :
  dataset testloader ≠ [] → batch_size testloader ≠ 0 →
  test_outcome testloader = Ok ().
Proof.
  intros Hds Hbs. unfold test_outcome. rewrite decide_False; [done|].
  intros [Hl|Hl]; [by apply len_pos in Hl|].
  by destruct (dataset testloader).
Qed.

Lemma test_outcome_Raise testloader :
  dataset testloader = [] →
  test_outcome testloader = Raise ZeroDivisionError.
Proof.
  intros Hds. unfold test_outcome. rewrite decide_True; [done|].
  right. by rewrite Hds.
Qed.

Lemma reports_batch_events K size model loss_fn (st : P * G * O) i
    (b : list X * list nat) :
  reports (batch_events K size model loss_fn st i b) = [].
Proof. unfold batch_events. rewrite reports_app. by case_decide. Qed.

Lemma reports_join_imap {A} (f : nat → A → list (event F)) (l : list A) :
  (∀ i a, reports (f i a) = []) → reports (mjoin (imap f l)) = [].
Proof.
  revert f. induction l as [|a l IH]; intros f Hf; [done|].
  rewrite imap_cons. cbn [mjoin list_join]. rewrite reports_app, Hf.
  apply IH. intros i b. apply Hf.
Qed.

Lemma epochs_loop_run K trainloader testloader draws model loss_fn
    optimizer ts c :
  dataset testloader ≠ [] → batch_size testloader ≠ 0 →
  let st := train_passes trainloader (fst ∘ draws) model loss_fn optimizer
                         (state_of (world c)) in
  ∃ c', epochs_loop K trainloader testloader draws model loss_fn optimizer
                    ts c = (Ok (), c') ∧
        state_of (world c') = st ts ∧
        training (world c') =
          (if ts is [] then training (world c) else false) ∧
        out c' = out c ++
          mjoin (imap (λ j t,
                   epoch_lines K trainloader testloader draws model loss_fn
                               optimizer (st (take j ts)) t) ts).
Proof.
  intros Hds Hbs. cbn zeta. revert c.
  induction ts as [|t ts IH]; intros c.
  - eexists. split; [done|]. cbn. by rewrite app_nil_r.
  - cbn [epochs_loop]. unfold bindD at 1. unfold say at 1.
    unfold bindD at 1. rewrite run_train_every. cbn [world out].
    unfold bindD at 1. rewrite run_test, test_outcome_Ok by done.
    cbn [world out params grads opt_state trace].
    match goal with |- ∃ c', epochs_loop _ _ _ _ _ _ _ _ ?c2 = _ ∧ _ =>
      destruct (IH c2) as (c' & Hrun & Hst & Hmode & Hout) end.
    exists c'. split; [done|].
    cbn [world out training] in Hst, Hmode, Hout.
    rewrite state_of_mk in Hst, Hout.
    split; [|split].
    + rewrite Hst. done.
    + rewrite Hmode. by destruct ts.
    + rewrite Hout. rewrite imap_cons. cbn [mjoin list_join take].
      unfold epoch_lines at 2. cbn zeta. cbn [train_passes foldl compose].
      rewrite <- !app_assoc. cbn [app]. rewrite fmap_cons. cbn [app].
      rewrite <- !app_assoc. done.
Qed.

(** X10: the driver returns when the test set is not empty; the
    evaluations between the training passes change nothing of what
    training reads: the parameters, gradient buffers and optimizer
    state it ends with are those of [epochs] consecutive passes of
    [train]; each epoch shows its banner, the lines of [train] and one
    report of [test] computed with the parameters reached at the end
    of that epoch's pass; the last line is [Done] and the model is left
    in evaluation mode. *)
Theorem fit_interleaves_train_and_test K epochs trainloader testloader
    draws model loss_fn optimizer c :
  dataset testloader ≠ [] → batch_size testloader ≠ 0 →
  let st := state_after_epochs trainloader (fst ∘ draws) model loss_fn
                               optimizer (state_of (world c)) in
  ∃ c', fit K epochs trainloader testloader draws model loss_fn optimizer c
          = (Ok (), c') ∧
        state_of (world c') = st epochs ∧
        (0 < epochs → training (world c') = false) ∧
        out c' = out c ++
          mjoin ((λ t, epoch_lines K trainloader testloader draws model
                                   loss_fn optimizer (st t) t)
                   <$> seq 0 epochs) ++ [Done].
Proof.
  intros Hds Hbs. cbn zeta. unfold fit, bindD.
  destruct (epochs_loop_run K trainloader testloader draws model loss_fn
              optimizer (seq 0 epochs) c Hds Hbs)
    as (c' & -> & Hst & Hmode & Hout).
  unfold say. eexists. split; [done|]. cbn [world out].
  split; [done|]. split.
  - intros He. rewrite Hmode. destruct epochs; [lia|done].
  - rewrite Hout, <- app_assoc. do 2 f_equal.
    rewrite imap_seq_diag. apply (f_equal mjoin), list_fmap_ext. intros i t Ht.
    apply lookup_seq in Ht as [-> Hlt]. unfold state_after_epochs.
    rewrite take_seq. by rewrite Nat.min_l by lia.
Qed.

(** X11: when the test set is empty and at least one epoch is asked
    for, the driver stops in the first epoch with the
    [ZeroDivisionError] of [test], after one full pass of [train]: the
    parameters are those after one epoch, the console shows the first
    banner and the lines of that pass, no report and no [Done]. *)
Theorem fit_aborts_on_empty_test_set K epochs trainloader testloader
    draws model loss_fn optimizer c :
  dataset testloader = [] → 0 < epochs →
  let st0 := state_of (world c) in
  let lines := epoch_lines K trainloader testloader draws model loss_fn
                           optimizer st0 0 in
  ∃ c', fit K epochs trainloader testloader draws model loss_fn optimizer c
          = (Raise ZeroDivisionError, c') ∧
        state_of (world c') =
          state_after_epochs trainloader (fst ∘ draws) model loss_fn
                             optimizer st0 1 ∧
        out c' = out c ++ lines ∧
        reports (events_of lines) = [] ∧
        Done ∉ lines.
Proof.
  intros Hds He. cbn zeta. destruct epochs as [|n]; [lia|].
  unfold fit. cbn [seq epochs_loop]. unfold bindD at 1. unfold bindD at 1.
  unfold say at 1. unfold bindD at 1. rewrite run_train_every.
  cbn [world out]. unfold bindD at 1.
  rewrite run_test, test_outcome_Raise by done.
  cbn [world out params grads opt_state trace].
  eexists. split; [done|]. cbn [world out].
  split; [by rewrite state_of_mk|]. split.
  { unfold epoch_lines. cbn zeta. rewrite <- !app_assoc. done. }
  unfold epoch_lines. cbn zeta. split.
  - rewrite events_of_Epoch, events_of_app, !events_of_Of, reports_app.
    change (reports (EvTrain :: ?l)) with (reports l).
    rewrite reports_join_imap by (intros; apply reports_batch_events).
    unfold test_events. rewrite decide_True by (right; by rewrite Hds).
    rewrite app_nil_r. cbn [reports omap].
    apply reports_forward_loss.
  - rewrite elem_of_cons, elem_of_app, !list_elem_of_fmap.
    intros [?|[(e & ? & _)|(e & ? & _)]]; discriminate.
Qed.

(** *** The loop that logs to TensorBoard *)

Lemma run_zero_grad c :
  run zero_grad c =
  (Ok (),
   mkConsole (mkWorld (params (world c)) zero (opt_state (world c))
                      (training (world c)) (trace (world c) ++ [EvZeroGrad]))
             (out c ++ [Of EvZeroGrad])).
Proof. unfold run, zero_grad, emit. cbn. by rewrite drop_app_length. Qed.

Lemma run_call_model model X_ c :
  run (call_model model X_) c =
  (Ok (forward model (params (world c)) (training (world c)) X_),
   mkConsole (mkWorld (params (world c)) (grads (world c)) (opt_state (world c))
                      (training (world c)) (trace (world c) ++ [EvForward]))
             (out c ++ [Of EvForward])).
Proof. unfold run, call_model, emit. cbn. by rewrite drop_app_length. Qed.

Lemma run_call_loss loss_fn pred y c :
  run (call_loss loss_fn pred y) c =
  (Ok (loss_of loss_fn pred y),
   mkConsole (mkWorld (params (world c)) (grads (world c)) (opt_state (world c))
                      (training (world c)) (trace (world c) ++ [EvLoss]))
             (out c ++ [Of EvLoss])).
Proof. unfold run, call_loss, emit. cbn. by rewrite drop_app_length. Qed.

Lemma run_backward (l : Loss) c :
  run (backward l) c =
  (Ok (),
   mkConsole (mkWorld (params (world c))
                      (accumulate (grads (world c)) (gradient l))
                      (opt_state (world c))
                      (training (world c)) (trace (world c) ++ [EvBackward]))
             (out c ++ [Of EvBackward])).
Proof. unfold run, backward, emit. cbn. by rewrite drop_app_length. Qed.

Lemma run_step optimizer c :
  run (step optimizer) c =
  (Ok (),
   mkConsole (mkWorld (update optimizer (opt_state (world c))
                              (params (world c)) (grads (world c))).1
                      (grads (world c))
                      (update optimizer (opt_state (world c))
                              (params (world c)) (grads (world c))).2
                      (training (world c)) (trace (world c) ++ [EvStep]))
             (out c ++ [Of EvStep])).
Proof.
  unfold run, step, emit. destruct (update optimizer _ _ _) as [p o].
  cbn. by rewrite drop_app_length.
Qed.

Lemma run_set_mode (b : bool) c :
  run (set_mode b) c =
  (Ok (),
   mkConsole (mkWorld (params (world c)) (grads (world c)) (opt_state (world c))
                      b (trace (world c) ++ [if b then EvTrain else EvEval]))
             (out c ++ [Of (if b then EvTrain else EvEval)])).
Proof. unfold run, set_mode, emit. cbn. by rewrite drop_app_length. Qed.

Lemma run_truediv (a : F) n c :
  run (truediv a n) c =
  (if decide (n = 0) then Raise ZeroDivisionError else Ok (div a (of_nat n)), c).
Proof.
  unfold run, truediv. case_decide; unfold raiseM, retM;
    rewrite drop_all, app_nil_r; by destruct c.
Qed.

Lemma logged_validation_app (ls1 ls2 : list (line F)) :
  logged_validation (ls1 ++ ls2)
  = logged_validation ls1 ++ logged_validation ls2.
Proof. apply omap_app. Qed.

Lemma logged_validation_Of (evs : list (event F)) :
  logged_validation (Of <$> evs) = [].
Proof. induction evs as [|e evs IH]; [done|]. exact IH. Qed.

Lemma validation_loop_run model loss_fn vbatches rv c :
  ∃ c', validation_loop model loss_fn vbatches rv c =
        (Ok (foldl (λ acc b,
                 add acc (item (batch_loss model loss_fn (params (world c))
                                           (training (world c)) b)))
               rv vbatches), c') ∧
        state_of (world c') = state_of (world c) ∧
        training (world c') = training (world c) ∧
        out c' = out c ++
          (Of <$> mjoin ((λ _, [EvForward; EvLoss]) <$> vbatches)).
Proof.
  revert rv c. induction vbatches as [|[vinputs vlabels] vbatches IH];
    intros rv c.
  - eexists. split; [done|]. cbn. by rewrite app_nil_r.
  - cbn [validation_loop]. unfold bindD at 1. rewrite run_call_model.
    unfold bindD at 1. rewrite run_call_loss.
    cbn [world out params grads opt_state training trace].
    match goal with |- ∃ c', validation_loop _ _ _ ?rv' ?c2 = _ ∧ _ =>
      destruct (IH rv' c2) as (c' & Hrun & Hst & Hmode & Hout) end.
    exists c'. cbn [world out params training] in Hrun, Hst, Hmode, Hout.
    split; [by rewrite Hrun|]. split; [by rewrite Hst|].
    split; [done|]. rewrite Hout. cbn. by rewrite <- !app_assoc.
Qed.

Lemma mod_succ_not_due i : ¬ log_due i → S i mod 1000 = S (i mod 1000).
Proof.
  unfold log_due. intros Hnd.
  pose proof (Nat.mod_upper_bound i 1000 ltac:(lia)) as Hub.
  symmetry. apply (Nat.mod_unique _ _ (i / 1000)); [lia|].
  pose proof (Nat.div_mod_eq i 1000). lia.
Qed.

Lemma mod_succ_due i : log_due i → S i mod 1000 = 0.
Proof.
  unfold log_due. intros Hd.
  symmetry. apply (Nat.mod_unique _ _ (S (i / 1000))); [lia|].
  pose proof (Nat.div_mod_eq i 1000). lia.
Qed.

Lemma logging_pass_train i model loss_fn optimizer (st : P * G * O)
    (batches : list (list X * list nat)) :
  logging_pass true i model loss_fn optimizer st batches
  = foldl (sgd_step model loss_fn optimizer) st batches.
Proof.
  unfold logging_pass. cbn zeta.
  change (sgd_step_in true model loss_fn optimizer)
    with (sgd_step model loss_fn optimizer).
  by rewrite <- foldl_app, take_drop.
Qed.

Lemma logging_pass_cons m0 i model loss_fn optimizer (st : P * G * O)
    (b : list X * list nat) batches :
  logging_pass m0 i model loss_fn optimizer st (b :: batches)
  = logging_pass (if decide (log_due i) then true else m0) (S i)
                 model loss_fn optimizer
                 (sgd_step_in m0 model loss_fn optimizer st b) batches.
Proof.
  case_decide as Hd.
  - rewrite logging_pass_train. unfold logging_pass. cbn zeta.
    unfold log_due in Hd. rewrite Hd. done.
  - unfold logging_pass. cbn zeta. rewrite (mod_succ_not_due i Hd).
    pose proof (Nat.mod_upper_bound i 1000 ltac:(lia)) as Hub.
    replace (1000 - i mod 1000) with (S (1000 - S (i mod 1000))) by lia.
    done.
Qed.

Lemma pass_log_cons trainloader testloader vdraw model loss_fn optimizer
    m0 i epoch (st : P * G * O) (b : list X * list nat) batches :
  pass_log trainloader testloader vdraw model loss_fn optimizer m0 i epoch
           st (b :: batches)
  = (if decide (log_due i)
     then [(epoch * len trainloader + i,
            div (total_loss model loss_fn
                   (sgd_step_in m0 model loss_fn optimizer st b).1.1
                   (iter testloader (vdraw i)))
                (of_nat (len testloader)))]
     else []) ++
    pass_log trainloader testloader vdraw model loss_fn optimizer
             (if decide (log_due i) then true else m0) (S i) epoch
             (sgd_step_in m0 model loss_fn optimizer st b) batches.
Proof.
  unfold pass_log. cbn [length seq]. rewrite filter_cons.
  assert (∀ j, j ∈ filter log_due (seq (S i) (length batches)) →
            take (S j - i) (b :: batches) = b :: take (S j - S i) batches)
    as Htake.
  { intros j [_ Hj%elem_of_seq]%list_elem_of_filter.
    replace (S j - i) with (S (S j - S i)) by lia. done. }
  assert (((λ j, ((epoch * len trainloader + j)%nat,
             div (total_loss model loss_fn
                (logging_pass m0 i model loss_fn optimizer st
                              (take (S j - i) (b :: batches))).1.1
                (iter testloader (vdraw j)))
             (of_nat (len testloader))))
            <$> filter log_due (seq (S i) (length batches)))
          = ((λ j, ((epoch * len trainloader + j)%nat,
             div (total_loss model loss_fn
                (logging_pass (if decide (log_due i) then true else m0) (S i)
                   model loss_fn optimizer
                   (sgd_step_in m0 model loss_fn optimizer st b)
                   (take (S j - S i) batches)).1.1
                (iter testloader (vdraw j)))
             (of_nat (len testloader))))
            <$> filter log_due (seq (S i) (length batches)))) as Hrest.
  { apply list_fmap_ext. intros k j Hj%list_elem_of_lookup_2.
    by rewrite (Htake j Hj), logging_pass_cons. }
  case_decide as Hd.
  - rewrite fmap_cons, Hrest. cbn [app]. do 4 f_equal.
    replace (S i - i) with 1 by lia. cbn [take].
    rewrite logging_pass_cons. unfold logging_pass. cbn zeta.
    rewrite take_0. by rewrite take_nil, drop_nil.
  - by rewrite Hrest.
Qed.

Lemma five_steps_run model loss_fn optimizer inputs labels {A}
    (k : Loss → D F P G O A) c :
  let st1 := sgd_step_in (training (world c)) model loss_fn optimizer
                         (state_of (world c)) (inputs, labels) in
  bindD (run zero_grad) (λ _,
    bindD (run (call_model model inputs)) (λ outputs,
      bindD (run (call_loss loss_fn outputs labels)) (λ loss,
        bindD (run (backward loss)) (λ _,
          bindD (run (step optimizer)) (λ _, k loss))))) c
  = k (batch_loss model loss_fn (params (world c)) (training (world c))
                  (inputs, labels))
      (mkConsole
         (mkWorld st1.1.1 st1.1.2 st1.2 (training (world c))
            (trace (world c) ++
             [EvZeroGrad; EvForward; EvLoss; EvBackward; EvStep]))
         (out c ++
          (Of <$> [EvZeroGrad; EvForward; EvLoss; EvBackward; EvStep]))).
Proof.
  cbn zeta. unfold bindD at 1. rewrite run_zero_grad.
  unfold bindD at 1. rewrite run_call_model.
  unfold bindD at 1. rewrite run_call_loss.
  unfold bindD at 1. rewrite run_backward.
  unfold bindD at 1. rewrite run_step.
  cbn [world out params grads opt_state training trace].
  unfold sgd_step_in, batch_loss, state_of. cbn [fst snd fmap list_fmap].
  by rewrite <- !app_assoc.
Qed.

Lemma validation_block_run trainloader testloader vdraw model loss_fn
    (avg_loss : F) epoch i c :
  len testloader ≠ 0 →
  ∃ c',
    bindD (say (PrintBatch (i + 1))) (λ _,
      bindD (run (set_mode false)) (λ _,
        bindD (validation_loop model loss_fn (iter testloader (vdraw i))
                               (of_nat 0)) (λ running_vloss,
          bindD (run (set_mode true)) (λ _,
            bindD (run (truediv running_vloss (len testloader)))
              (λ avg_vloss,
                bindD (say (AddScalars avg_loss avg_vloss
                              (epoch * len trainloader + i)))
                  (λ _, retD (of_nat 0))))))) c
    = (Ok (of_nat 0), c') ∧
    state_of (world c') = state_of (world c) ∧
    training (world c') = true ∧
    logged_validation (out c') =
      logged_validation (out c) ++
      [(epoch * len trainloader + i,
        div (total_loss model loss_fn (params (world c))
                        (iter testloader (vdraw i)))
            (of_nat (len testloader)))] ∧
    (FinishedTraining ∈ out c' → FinishedTraining ∈ out c).
Proof.
  intros Hlen. unfold bindD at 1. unfold say at 1.
  unfold bindD at 1. rewrite run_set_mode.
  cbn [world out params grads opt_state training trace].
  unfold bindD at 1.
  match goal with |- context [validation_loop _ _ ?vb ?rv ?c1] =>
    destruct (validation_loop_run model loss_fn vb rv c1)
      as (c2 & -> & Hst2 & Hm2 & Hout2) end.
  cbn [world out params grads opt_state training trace] in *.
  unfold bindD at 1. rewrite run_set_mode.
  unfold bindD at 1. rewrite run_truediv, decide_False by done.
  unfold bindD at 1. unfold say at 1. unfold retD.
  eexists. split; [done|].
  cbn [world out params grads opt_state training trace].
  unfold state_of in *. cbn [params grads opt_state] in *.
  split; [done|]. split; [done|]. split.
  - rewrite Hout2, !logged_validation_app, logged_validation_Of.
    change (logged_validation [PrintBatch (i + 1)]) with (@nil (nat * F)).
    change (logged_validation [Of EvEval]) with (@nil (nat * F)).
    change (logged_validation [Of EvTrain]) with (@nil (nat * F)).
    rewrite !app_nil_r. done.
  - rewrite Hout2. rewrite !elem_of_app, !list_elem_of_fmap, !elem_of_cons,
      !elem_of_nil.
    intros [[[[[?|[?|?]]|[?|?]]|(e & ? & _)]|[?|?]]|[?|?]];
      (done || discriminate).
Qed.

Lemma logging_loop_run trainloader testloader vdraw model loss_fn
    optimizer epoch batches i running c :
  len testloader ≠ 0 ∨ length batches < 1000 - i mod 1000 →
  ∃ c', logging_loop trainloader testloader vdraw model loss_fn optimizer
                     epoch i batches running c = (Ok (), c') ∧
        state_of (world c') =
          logging_pass (training (world c)) i model loss_fn optimizer
                       (state_of (world c)) batches ∧
        training (world c') =
          (if decide (1000 - i mod 1000 ≤ length batches) then true
           else training (world c)) ∧
        logged_validation (out c') =
          logged_validation (out c) ++
          pass_log trainloader testloader vdraw model loss_fn optimizer
                   (training (world c)) i epoch (state_of (world c)) batches ∧
        (FinishedTraining ∈ out c' → FinishedTraining ∈ out c).
Proof.
  revert i running c.
  induction batches as [|[inputs labels] batches IH]; intros i running c Hok.
  - eexists. split; [done|]. unfold logging_pass, pass_log. cbn.
    rewrite app_nil_r, take_nil, drop_nil.
    pose proof (Nat.mod_upper_bound i 1000 ltac:(lia)).
    rewrite decide_False by lia. done.
  - cbn [logging_loop]. rewrite five_steps_run.
    set (m0 := training (world c)). set (st0 := state_of (world c)).
    set (b := (inputs, labels)).
    set (st1 := sgd_step_in m0 model loss_fn optimizer st0 b).
    cbn zeta. unfold bindD at 1.
    rewrite logging_pass_cons, pass_log_cons. fold st1.
    pose proof (Nat.mod_upper_bound i 1000 ltac:(lia)) as Hub.
    match goal with |- context [_ ?c1] =>
      match c1 with mkConsole _ _ => set (c1' := c1) end end.
    destruct (decide (i mod 1000 = 999)) as [Hd|Hd].
    + assert (len testloader ≠ 0) as Hlen.
      { destruct Hok as [?|Hlt]; [done|]. cbn [length] in Hlt. lia. }
      destruct (validation_block_run trainloader testloader vdraw model
                  loss_fn
                  (div (add running
                          (item (batch_loss model loss_fn (params (world c)) m0 b)))
                       (of_nat 1000))
                  epoch i c1' Hlen)
        as (c2 & -> & Hst2 & Hm2 & Hlog2 & Hfin2).
      destruct (IH (S i) (of_nat 0) c2 (or_introl Hlen))
        as (c' & Hrun & Hst & Hmode & Hlog & Hfin).
      exists c'. split; [done|]. rewrite Hst2, Hm2 in *.
      destruct (decide (log_due i)) as [_|Hn]; [|done].
      subst c1'. cbn [world out training params] in *.
      rewrite state_of_mk in *.
      split; [done|]. split.
      { rewrite Hmode. cbn [length]. repeat case_decide; (done || lia). }
      split.
      { rewrite Hlog, Hlog2, logged_validation_app, logged_validation_Of,
          app_nil_r, <- app_assoc. done. }
      intros Hin. apply Hfin, Hfin2 in Hin.
      apply elem_of_app in Hin as [?|(e & ? & _)%list_elem_of_fmap];
        [done|discriminate].
    + unfold retD at 1.
      assert (len testloader ≠ 0 ∨ length batches < 1000 - S i mod 1000)
        as Hok'.
      { destruct Hok as [?|Hlt]; [by left|right].
        rewrite (mod_succ_not_due i Hd). cbn [length] in Hlt. lia. }
      destruct (IH (S i)
                  (add running
                     (item (batch_loss model loss_fn (params (world c)) m0 b)))
                  c1' Hok')
        as (c' & Hrun & Hst & Hmode & Hlog & Hfin).
      exists c'. split; [done|].
      destruct (decide (log_due i)) as [Hn|_]; [done|].
      subst c1'. cbn [world out training params] in *.
      rewrite state_of_mk in *.
      split; [done|]. split.
      { rewrite Hmode, (mod_succ_not_due i Hd). cbn [length].
        repeat case_decide; (done || lia). }
      split.
      { rewrite Hlog, logged_validation_app, logged_validation_Of,
          app_nil_r. done. }
      intros Hin. apply Hfin in Hin.
      apply elem_of_app in Hin as [?|(e & ? & _)%list_elem_of_fmap];
        [done|discriminate].
Qed.

Lemma validation_block_abort trainloader testloader vdraw model loss_fn
    (avg_loss : F) epoch i c :
  len testloader = 0 →
  ∃ c',
    bindD (say (PrintBatch (i + 1))) (λ _,
      bindD (run (set_mode false)) (λ _,
        bindD (validation_loop model loss_fn (iter testloader (vdraw i))
                               (of_nat 0)) (λ running_vloss,
          bindD (run (set_mode true)) (λ _,
            bindD (run (truediv running_vloss (len testloader)))
              (λ avg_vloss,
                bindD (say (AddScalars avg_loss avg_vloss
                              (epoch * len trainloader + i)))
                  (λ _, retD (of_nat 0))))))) c
    = (Raise ZeroDivisionError, c') ∧
    state_of (world c') = state_of (world c) ∧
    training (world c') = true ∧
    logged_validation (out c') = logged_validation (out c) ∧
    (FinishedTraining ∈ out c' → FinishedTraining ∈ out c).
Proof.
  intros Hlen. unfold bindD at 1. unfold say at 1.
  unfold bindD at 1. rewrite run_set_mode.
  cbn [world out params grads opt_state training trace].
  unfold bindD at 1.
  match goal with |- context [validation_loop _ _ ?vb ?rv ?c1] =>
    destruct (validation_loop_run model loss_fn vb rv c1)
      as (c2 & -> & Hst2 & Hm2 & Hout2) end.
  cbn [world out params grads opt_state training trace] in *.
  unfold bindD at 1. rewrite run_set_mode.
  unfold bindD at 1. rewrite run_truediv, decide_True by done.
  eexists. split; [done|].
  cbn [world out params grads opt_state training trace].
  unfold state_of in *. cbn [params grads opt_state] in *.
  split; [done|]. split; [done|]. split.
  - rewrite Hout2, !logged_validation_app, logged_validation_Of.
    change (logged_validation [PrintBatch (i + 1)]) with (@nil (nat * F)).
    change (logged_validation [Of EvEval]) with (@nil (nat * F)).
    change (logged_validation [Of EvTrain]) with (@nil (nat * F)).
    rewrite !app_nil_r. done.
  - rewrite Hout2. rewrite !elem_of_app, !list_elem_of_fmap, !elem_of_cons,
      !elem_of_nil.
    intros [[[[?|[?|?]]|[?|?]]|(e & ? & _)]|[?|?]];
      (done || discriminate).
Qed.

Lemma logging_loop_abort trainloader testloader vdraw model loss_fn
    optimizer epoch batches i running c :
  len testloader = 0 → 1000 - i mod 1000 ≤ length batches →
  ∃ c', logging_loop trainloader testloader vdraw model loss_fn optimizer
                     epoch i batches running c
        = (Raise ZeroDivisionError, c') ∧
        state_of (world c') =
          foldl (sgd_step_in (training (world c)) model loss_fn optimizer)
                (state_of (world c)) (take (1000 - i mod 1000) batches) ∧
        training (world c') = true ∧
        logged_validation (out c') = logged_validation (out c) ∧
        (FinishedTraining ∈ out c' → FinishedTraining ∈ out c).
Proof.
  intros Hlen. revert i running c.
  induction batches as [|[inputs labels] batches IH]; intros i running c Hk.
  - pose proof (Nat.mod_upper_bound i 1000 ltac:(lia)). cbn in Hk. lia.
  - cbn [logging_loop]. rewrite five_steps_run.
    set (m0 := training (world c)). set (st0 := state_of (world c)).
    set (b := (inputs, labels)).
    set (st1 := sgd_step_in m0 model loss_fn optimizer st0 b).
    cbn zeta. unfold bindD at 1.
    pose proof (Nat.mod_upper_bound i 1000 ltac:(lia)) as Hub.
    match goal with |- context [_ ?c1] =>
      match c1 with mkConsole _ _ => set (c1' := c1) end end.
    assert (FinishedTraining ∈ out c1' → FinishedTraining ∈ out c)
      as Hfin1.
    { intros [?|(e & ? & _)%list_elem_of_fmap]%elem_of_app;
        [done|discriminate]. }
    assert (logged_validation (out c1') = logged_validation (out c))
      as Hlog1.
    { subst c1'. cbn [out].
      by rewrite logged_validation_app, logged_validation_Of, app_nil_r. }
    assert (state_of (world c1') = st1) as Hst1
      by (subst c1'; cbn [world]; apply state_of_mk).
    destruct (decide (i mod 1000 = 999)) as [Hd|Hd].
    + destruct (validation_block_abort trainloader testloader vdraw model
                  loss_fn
                  (div (add running
                          (item (batch_loss model loss_fn (params (world c)) m0 b)))
                       (of_nat 1000))
                  epoch i c1' Hlen)
        as (c2 & -> & Hst2 & Hm2 & Hlog2 & Hfin2).
      exists c2. split; [done|]. rewrite Hd.
      split; [by rewrite Hst2, Hst1|]. split; [done|].
      split; [by rewrite Hlog2|]. intros Hin. by apply Hfin1, Hfin2.
    + unfold retD at 1.
      assert (1000 - S i mod 1000 ≤ length batches) as Hk'.
      { rewrite (mod_succ_not_due i Hd). cbn [length] in Hk. lia. }
      destruct (IH (S i)
                  (add running
                     (item (batch_loss model loss_fn (params (world c)) m0 b)))
                  c1' Hk')
        as (c' & Hrun & Hst & Hmode & Hlog & Hfin).
      exists c'. split; [done|].
      rewrite Hst1 in Hst. rewrite (mod_succ_not_due i Hd) in Hst.
      replace (1000 - i mod 1000) with (S (1000 - S (i mod 1000))) by lia.
      split; [by rewrite Hst|]. split; [done|].
      split; [by rewrite Hlog|]. intros Hin. by apply Hfin1, Hfin.
Qed.

Lemma short_pass_run trainloader testloader vdraw model loss_fn optimizer
    epoch batches running c :
  length batches < 1000 →
  ∃ c', logging_loop trainloader testloader vdraw model loss_fn optimizer
                     epoch 0 batches running c = (Ok (), c') ∧
        state_of (world c') =
          foldl (sgd_step_in (training (world c)) model loss_fn optimizer)
                (state_of (world c)) batches ∧
        training (world c') = training (world c) ∧
        logged_validation (out c') = logged_validation (out c).
Proof.
  intros Hshort.
  destruct (logging_loop_run trainloader testloader vdraw model loss_fn
              optimizer epoch batches 0 running c)
    as (c' & Hrun & Hst & Hm & Hlog & _); [right; cbn; lia|].
  exists c'. split; [done|]. split; [|split].
  - rewrite Hst. unfold logging_pass. cbn zeta.
    rewrite take_ge, drop_ge by (cbn; lia). done.
  - rewrite Hm. rewrite decide_False by (cbn; lia). done.
  - rewrite Hlog. unfold pass_log.
    destruct (filter log_due (seq 0 (length batches))) as [|j l] eqn:Hf;
      [by rewrite app_nil_r|].
    assert (j ∈ filter log_due (seq 0 (length batches))) as Hj
      by (rewrite Hf; left).
    apply list_elem_of_filter in Hj as [Hd Hj%elem_of_seq].
    unfold log_due in Hd. rewrite Nat.mod_small in Hd by lia. lia.
Qed.

Lemma logging_epochs_run trainloader testloader draws model loss_fn
    optimizer es c :
  len testloader ≠ 0 → training (world c) = true →
  let st := train_passes trainloader (fst ∘ draws) model loss_fn optimizer
                         (state_of (world c)) in
  ∃ c', logging_epochs trainloader testloader draws model loss_fn
                       optimizer es c = (Ok (), c') ∧
        state_of (world c') = st es ∧
        training (world c') = true ∧
        logged_validation (out c') =
          logged_validation (out c) ++
          mjoin (imap (λ n e,
                   pass_log trainloader testloader (draws e).2 model
                            loss_fn optimizer true 0 e (st (take n es))
                            (iter trainloader (draws e).1)) es) ∧
        (FinishedTraining ∈ out c' → FinishedTraining ∈ out c).
Proof.
  intros Hlen. cbn zeta. revert c.
  induction es as [|e es IH]; intros c Hm.
  - eexists. split; [done|]. cbn. by rewrite app_nil_r.
  - cbn [logging_epochs]. unfold bindD at 1.
    destruct (logging_loop_run trainloader testloader (draws e).2 model
                loss_fn optimizer e (iter trainloader (draws e).1) 0
                (of_nat 0) c (or_introl Hlen))
      as (c1 & -> & Hst1 & Hm1 & Hlog1 & Hfin1).
    rewrite Hm in *. rewrite logging_pass_train in Hst1.
    assert (training (world c1) = true) as Hm1'
      by (rewrite Hm1; by case_decide).
    destruct (IH c1 Hm1') as (c' & Hrun & Hst & Hmode & Hlog & Hfin).
    exists c'. split; [done|]. rewrite Hst1 in *.
    split; [done|]. split; [done|]. split.
    + rewrite Hlog, Hlog1, <- app_assoc. rewrite imap_cons.
      cbn [mjoin list_join take train_passes foldl compose]. done.
    + intros Hin. by apply Hfin1, Hfin.
Qed.

Lemma StronglySorted_seq a n : StronglySorted lt (seq a n).
Proof.
  revert a. induction n as [|n IH]; intros a; cbn; constructor; [done|].
  apply Forall_forall. intros x Hx%elem_of_seq. lia.
Qed.

Lemma StronglySorted_filter {A} (R : relation A) (Q : A → Prop)
    `{∀ x, Decision (Q x)} (l : list A) :
  StronglySorted R l → StronglySorted R (filter Q l).
Proof.
  induction 1 as [|x l Hs IH Hall]; [constructor|].
  rewrite filter_cons. case_decide; [|done].
  constructor; [done|]. apply Forall_forall.
  intros y [_ Hy]%list_elem_of_filter.
  by eapply Forall_forall in Hall.
Qed.

Lemma global_steps_sorted L a n :
  StronglySorted lt
    (mjoin ((λ e, (λ j, e * L + j) <$> filter log_due (seq 0 L))
              <$> seq a n)).
Proof.
  revert a. induction n as [|n IH]; intros a; [constructor|].
  cbn [seq fmap list_fmap mjoin list_join].
  apply StronglySorted_app_2; [| |apply IH].
  - intros x1 x2 (j & -> & [_ Hj%elem_of_seq]%list_elem_of_filter)%list_elem_of_fmap
                 (l & Hx2 & (e & -> & He%elem_of_seq)%list_elem_of_fmap)%list_elem_of_join.
    apply list_elem_of_fmap in Hx2 as (j2 & -> & _). nia.
  - apply (StronglySorted_fmap _ lt lt).
    + intros x y. lia.
    + apply StronglySorted_filter, StronglySorted_seq.
Qed.

Lemma pass_log_steps trainloader testloader vdraw model loss_fn optimizer
    m0 i epoch (st : P * G * O) (batches : list (list X * list nat)) :
  (pass_log trainloader testloader vdraw model loss_fn optimizer m0 i
            epoch st batches).*1
  = (λ j, epoch * len trainloader + j)
      <$> filter log_due (seq i (length batches)).
Proof. unfold pass_log. rewrite <- list_fmap_compose. done. Qed.

Lemma logging_epochs_steps trainloader testloader draws model loss_fn
    optimizer es c :
  len testloader ≠ 0 →
  ∃ c', logging_epochs trainloader testloader draws model loss_fn
                       optimizer es c = (Ok (), c') ∧
        logged_steps (out c') =
          logged_steps (out c) ++
          mjoin ((λ e, (λ j, e * len trainloader + j)
                         <$> filter log_due
                               (seq 0 (length (iter trainloader (draws e).1))))
                   <$> es).
Proof.
  intros Hlen. revert c. induction es as [|e es IH]; intros c.
  - eexists. split; [done|]. cbn. by rewrite app_nil_r.
  - cbn [logging_epochs]. unfold bindD at 1.
    destruct (logging_loop_run trainloader testloader (draws e).2 model
                loss_fn optimizer e (iter trainloader (draws e).1) 0
                (of_nat 0) c (or_introl Hlen))
      as (c1 & -> & _ & _ & Hlog1 & _).
    destruct (IH c1) as (c' & Hrun & Hlog).
    exists c'. split; [done|]. rewrite Hlog. unfold logged_steps.
    rewrite Hlog1, fmap_app, pass_log_steps, <- app_assoc. done.
Qed.

Lemma logged_training_run trainloader testloader draws model loss_fn
    optimizer c c1 :
  logging_epochs trainloader testloader draws model loss_fn optimizer
    (seq 0 3) (mkConsole (world c) (out c ++ [PrintLen (len testloader)]))
  = (Ok (), c1) →
  logged_training trainloader testloader draws model loss_fn optimizer c
  = (Ok (), mkConsole (world c1) (out c1 ++ [FinishedTraining; Flush])).
Proof.
  intros Hrun. unfold logged_training. unfold bindD at 1. unfold say at 1.
  unfold bindD at 1. rewrite Hrun. unfold bindD, say. cbn [world out].
  by rewrite <- app_assoc.
Qed.

Lemma logged_validation_closing (ls : list (line F)) :
  logged_validation (ls ++ [FinishedTraining; Flush]) = logged_validation ls.
Proof. rewrite logged_validation_app. apply app_nil_r. Qed.

Lemma logged_validation_opening (ls : list (line F)) n :
  logged_validation (ls ++ [PrintLen n]) = logged_validation ls.
Proof. rewrite logged_validation_app. apply app_nil_r. Qed.

(** X12: entered in training mode with a test set that is not empty,
    the logging cell returns and trains exactly as three passes of
    [train] do: clearing the gradients before the forward pass instead
    of after it, and validating between the batches, change no
    update.  The model is left in training mode and the two closing
    lines are the last ones shown. *)
Theorem logged_training_trains_like_train trainloader testloader draws
    model loss_fn optimizer c :
  dataset testloader ≠ [] → batch_size testloader ≠ 0 →
  training (world c) = true →
  ∃ c', logged_training trainloader testloader draws model loss_fn
                        optimizer c = (Ok (), c') ∧
        state_of (world c') =
          state_after_epochs trainloader (fst ∘ draws) model loss_fn
                             optimizer (state_of (world c)) 3 ∧
        training (world c') = true ∧
        ∃ ls, out c' = ls ++ [FinishedTraining; Flush].
Proof.
  intros Hds Hbs Hm. pose proof (len_pos _ Hds Hbs) as Hlen.
  destruct (logging_epochs_run trainloader testloader draws model loss_fn
              optimizer (seq 0 3)
              (mkConsole (world c) (out c ++ [PrintLen (len testloader)]))
              Hlen Hm)
    as (c1 & Hrun & Hst & Hmode & _ & _).
  eexists. split; [by apply logged_training_run|]. cbn [world out].
  split; [done|]. split; [done|]. by eexists.
Qed.

(** X13: in a run entered in training mode with a test set that is not
    empty, the validation loss logged after batch [j] of
    epoch [e], at global step [e * len(trainloader) + j], is the sum of
    the validation batches' losses in evaluation mode under the
    parameters reached after that batch, divided by
    [len(testloader)]: the average that [test] reports for these
    parameters.  Scalars are logged after the batches whose number is
    999 modulo 1000 and after no other. *)
Theorem logged_validation_at_current_parameters trainloader testloader
    draws model loss_fn optimizer c :
  dataset testloader ≠ [] → batch_size testloader ≠ 0 →
  training (world c) = true →
  let st := state_after_epochs trainloader (fst ∘ draws) model loss_fn
                               optimizer (state_of (world c)) in
  let batches e := iter trainloader (draws e).1 in
  ∃ c', logged_training trainloader testloader draws model loss_fn
                        optimizer c = (Ok (), c') ∧
        logged_validation (out c') =
          logged_validation (out c) ++
          mjoin ((λ e,
                   (λ j, (e * len trainloader + j,
                          div (total_loss model loss_fn
                                 (foldl (sgd_step model loss_fn optimizer)
                                        (st e) (take (S j) (batches e))).1.1
                                 (iter testloader ((draws e).2 j)))
                              (of_nat (len testloader))))
                     <$> filter log_due (seq 0 (length (batches e))))
                   <$> seq 0 3).
Proof.
  intros Hds Hbs Hm. cbn zeta. pose proof (len_pos _ Hds Hbs) as Hlen.
  destruct (logging_epochs_run trainloader testloader draws model loss_fn
              optimizer (seq 0 3)
              (mkConsole (world c) (out c ++ [PrintLen (len testloader)]))
              Hlen Hm)
    as (c1 & Hrun & _ & _ & Hlog & _).
  eexists. split; [by apply logged_training_run|]. cbn [world out] in *.
  rewrite logged_validation_closing, Hlog, logged_validation_opening.
  f_equal. rewrite imap_seq_diag. apply (f_equal mjoin), list_fmap_ext.
  intros k e He. apply lookup_seq in He as [-> Hlt].
  unfold pass_log. apply list_fmap_ext. intros k' j _.
  unfold state_after_epochs. rewrite take_seq, Nat.min_l by lia.
  by rewrite logging_pass_train, Nat.sub_0_r.
Qed.

(** X14: when every training pass draws a valid permutation, the
    global steps [epoch * len(trainloader) + i] at which the cell logs
    are strictly increasing over the whole run, whatever mode the
    model is entered in: no step is logged twice. *)
Theorem logged_steps_increase trainloader testloader draws model loss_fn
    optimizer c :
  dataset testloader ≠ [] → batch_size testloader ≠ 0 →
  batch_size trainloader ≠ 0 →
  (∀ e, valid_draw trainloader (draws e).1) →
  ∃ c' steps,
    logged_training trainloader testloader draws model loss_fn
                    optimizer c = (Ok (), c') ∧
    logged_steps (out c') = logged_steps (out c) ++ steps ∧
    steps = mjoin ((λ e, (λ j, e * len trainloader + j)
                           <$> filter log_due (seq 0 (len trainloader)))
                     <$> seq 0 3) ∧
    StronglySorted lt steps.
Proof.
  intros Hds Hbs Hbt Hv. pose proof (len_pos _ Hds Hbs) as Hlen.
  destruct (logging_epochs_steps trainloader testloader draws model loss_fn
              optimizer (seq 0 3)
              (mkConsole (world c) (out c ++ [PrintLen (len testloader)]))
              Hlen)
    as (c1 & Hrun & Hlog).
  eexists _, _. split; [by apply logged_training_run|]. cbn [world out] in *.
  unfold logged_steps in *.
  rewrite logged_validation_closing, Hlog, logged_validation_opening.
  split; [done|]. split; [|].
  - apply (f_equal mjoin), list_fmap_ext. intros k e _.
    by rewrite length_iter.
  - assert (∀ e, length (iter trainloader (draws e).1) = len trainloader)
      as Hl by (intros e; by apply length_iter).
    cbn [seq fmap list_fmap]. rewrite !Hl.
    apply (global_steps_sorted (len trainloader) 0 3).
Qed.

(** X15: whatever mode the model is in when the cell is entered, the
    first thousand batches are forwarded in that mode: [model.train]
    is first called after the validation that follows batch 999.  With
    at least a thousand batches in the first pass, the state the cell
    ends with is that of a thousand updates in the mode of entry
    followed by the rest of the first pass and two more passes in
    training mode. *)
Theorem first_thousand_batches_in_entry_mode trainloader testloader draws
    model loss_fn optimizer c :
  dataset testloader ≠ [] → batch_size testloader ≠ 0 →
  let b0 := iter trainloader (draws 0).1 in
  1000 ≤ length b0 →
  ∃ c', logged_training trainloader testloader draws model loss_fn
                        optimizer c = (Ok (), c') ∧
        state_of (world c') =
          train_passes trainloader (fst ∘ draws) model loss_fn optimizer
            (foldl (sgd_step model loss_fn optimizer)
               (foldl (sgd_step_in (training (world c)) model loss_fn optimizer)
                      (state_of (world c)) (take 1000 b0))
               (drop 1000 b0))
            [1; 2] ∧
        training (world c') = true.
Proof.
  intros Hds Hbs b0 Hb0. pose proof (len_pos _ Hds Hbs) as Hlen.
  set (c0 := mkConsole (world c) (out c ++ [PrintLen (len testloader)])).
  destruct (logging_loop_run trainloader testloader (draws 0).2 model
              loss_fn optimizer 0 b0 0 (of_nat 0) c0 (or_introl Hlen))
    as (c1 & Hrun1 & Hst1 & Hm1 & _ & _).
  rewrite decide_True in Hm1 by (cbn; lia).
  destruct (logging_epochs_run trainloader testloader draws model loss_fn
              optimizer [1; 2] c1 Hlen Hm1)
    as (c2 & Hrun2 & Hst2 & Hm2 & _ & _).
  eexists. split.
  - apply logged_training_run. cbn [seq logging_epochs]. unfold bindD at 1.
    fold b0. fold c0. rewrite Hrun1. exact Hrun2.
  - cbn [world]. split; [|done]. rewrite Hst2, Hst1. done.
Qed.

(** X16: with an empty test set and at least a thousand batches in
    the first training pass, the cell stops with [ZeroDivisionError]
    at its first validation, in [running_vloss / len(testloader)]:
    exactly a thousand updates have been made, the model has been put
    back in training mode, nothing has been logged and
    ['Finished Training'] is not printed. *)
Theorem logged_training_aborts_on_empty_test_set trainloader testloader
    draws model loss_fn optimizer c :
  dataset testloader = [] →
  let b0 := iter trainloader (draws 0).1 in
  1000 ≤ length b0 →
  ∃ c', logged_training trainloader testloader draws model loss_fn
                        optimizer c = (Raise ZeroDivisionError, c') ∧
        state_of (world c') =
          foldl (sgd_step_in (training (world c)) model loss_fn optimizer)
                (state_of (world c)) (take 1000 b0) ∧
        training (world c') = true ∧
        logged_validation (out c') = logged_validation (out c) ∧
        (FinishedTraining ∈ out c' → FinishedTraining ∈ out c).
Proof.
  intros Hds b0 Hb0. pose proof (len_empty _ Hds) as Hlen.
  set (c0 := mkConsole (world c) (out c ++ [PrintLen (len testloader)])).
  destruct (logging_loop_abort trainloader testloader (draws 0).2 model
              loss_fn optimizer 0 b0 0 (of_nat 0) c0 Hlen)
    as (c1 & Hrun1 & Hst1 & Hm1 & Hlog1 & Hfin1); [cbn; lia|].
  exists c1. split.
  - unfold logged_training. unfold bindD at 1. unfold say at 1.
    unfold bindD at 1. cbn [seq logging_epochs]. unfold bindD at 1.
    fold b0. fold c0. by rewrite Hrun1.
  - split; [exact Hst1|]. split; [done|]. split.
    + rewrite Hlog1. apply logged_validation_opening.
    + intros Hin. apply Hfin1 in Hin.
      apply elem_of_app in Hin as [?|Hin]; [done|].
      apply list_elem_of_singleton in Hin. discriminate.
Qed.

(** X17: when every training pass has fewer than a thousand batches
    the cell never validates: it returns whatever the test loader is,
    also an empty one, logs nothing, never changes the mode of the
    model, and forwards every batch of the three passes in the mode
    found on entry. *)
Theorem short_passes_never_validate trainloader testloader draws model
    loss_fn optimizer c :
  (∀ e, length (iter trainloader (draws e).1) < 1000) →
  ∃ c', logged_training trainloader testloader draws model loss_fn
                        optimizer c = (Ok (), c') ∧
        state_of (world c') =
          foldl (sgd_step_in (training (world c)) model loss_fn optimizer)
                (state_of (world c))
                (iter trainloader (draws 0).1 ++
                 iter trainloader (draws 1).1 ++
                 iter trainloader (draws 2).1) ∧
        training (world c') = training (world c) ∧
        logged_validation (out c') = logged_validation (out c).
Proof.
  intros Hshort.
  set (c0 := mkConsole (world c) (out c ++ [PrintLen (len testloader)])).
  destruct (short_pass_run trainloader testloader (draws 0).2 model loss_fn
              optimizer 0 (iter trainloader (draws 0).1) (of_nat 0) c0
              (Hshort 0))
    as (c1 & Hrun1 & Hst1 & Hm1 & Hlog1).
  destruct (short_pass_run trainloader testloader (draws 1).2 model loss_fn
              optimizer 1 (iter trainloader (draws 1).1) (of_nat 0) c1
              (Hshort 1))
    as (c2 & Hrun2 & Hst2 & Hm2 & Hlog2).
  destruct (short_pass_run trainloader testloader (draws 2).2 model loss_fn
              optimizer 2 (iter trainloader (draws 2).1) (of_nat 0) c2
              (Hshort 2))
    as (c3 & Hrun3 & Hst3 & Hm3 & Hlog3).
  eexists. split.
  - apply logged_training_run. cbn [seq logging_epochs].
    unfold bindD at 1. fold c0. rewrite Hrun1.
    unfold bindD at 1. rewrite Hrun2.
    unfold bindD at 1. rewrite Hrun3. done.
  - cbn [world out]. rewrite !foldl_app.
    rewrite Hst3, Hm2, Hm1, Hst2, Hm1, Hst1, Hm3, Hm2, Hm1.
    split; [done|]. split; [done|].
    rewrite logged_validation_closing, Hlog3, Hlog2, Hlog1.
    apply logged_validation_opening.
Qed.

End Driver.

(** *** Examples *)

Import Fixtures MoreFixtures.

Lemma fit_interleaves_train_and_test_witness :
  let st := state_after_epochs (loader3 false) (fst ∘ no_draws) model_toy
                               loss_toy optimizer_toy (state_of (world console0)) in
  ∃ c', fit_cifar10 (loader3 false) (loader3 true) no_draws model_toy
                    loss_toy optimizer_toy console0 = (Ok (), c') ∧
        state_of (world c') = st 5 ∧
        (0 < 5 → training (world c') = false) ∧
        out c' = out console0 ++
          mjoin ((λ t, epoch_lines 500 (loader3 false) (loader3 true) no_draws
                                   model_toy loss_toy optimizer_toy (st t) t)
                   <$> seq 0 5) ++ [Done].
Proof.
  apply (fit_interleaves_train_and_test 500 5 (loader3 false) (loader3 true)
           no_draws model_toy loss_toy optimizer_toy console0); done.
Defined.

(** Five epochs over two batches each: ten updates. *)
Example fit_counts_ten_updates :
  params (world (fit_cifar10 (loader3 false) (loader3 false) no_draws
                             model_toy loss_toy optimizer_toy console0).2)
  = 17.
Proof. vm_compute. reflexivity. Qed.

Lemma fit_aborts_on_empty_test_set_witness :
  let lines := epoch_lines 100 (loader3 false) loader0 no_draws model_toy
                           loss_toy optimizer_toy (state_of (world console0)) 0 in
  ∃ c', fit_fashion_mnist (loader3 false) loader0 no_draws model_toy
                          loss_toy optimizer_toy console0
          = (Raise ZeroDivisionError, c') ∧
        state_of (world c') =
          state_after_epochs (loader3 false) (fst ∘ no_draws) model_toy
                             loss_toy optimizer_toy (state_of (world console0)) 1 ∧
        out c' = out console0 ++ lines ∧
        reports (events_of lines) = [] ∧
        Done ∉ lines.
Proof.
  apply (fit_aborts_on_empty_test_set 100 5 (loader3 false) loader0 no_draws
           model_toy loss_toy optimizer_toy console0); [done|lia].
Defined.

Lemma logged_training_trains_like_train_witness :
  ∃ c', logged_training loader1000 (loader3 false) no_vdraws model_toy
                        loss_toy optimizer_toy console0 = (Ok (), c') ∧
        state_of (world c') =
          state_after_epochs loader1000 (fst ∘ no_vdraws) model_toy loss_toy
                             optimizer_toy (state_of (world console0)) 3 ∧
        training (world c') = true ∧
        ∃ ls, out c' = ls ++ [FinishedTraining; Flush].
Proof.
  apply (logged_training_trains_like_train loader1000 (loader3 false)
           no_vdraws model_toy loss_toy optimizer_toy console0); done.
Defined.

Lemma logged_validation_at_current_parameters_witness :
  let st := state_after_epochs loader1000 (fst ∘ no_vdraws) model_toy
                               loss_toy optimizer_toy (state_of (world console0)) in
  let batches e := iter loader1000 (no_vdraws e).1 in
  ∃ c', logged_training loader1000 (loader3 false) no_vdraws model_toy
                        loss_toy optimizer_toy console0 = (Ok (), c') ∧
        logged_validation (out c') =
          logged_validation (out console0) ++
          mjoin ((λ e,
                   (λ j, (e * len loader1000 + j,
                          div (total_loss model_toy loss_toy
                                 (foldl (sgd_step model_toy loss_toy optimizer_toy)
                                        (st e) (take (S j) (batches e))).1.1
                                 (iter (loader3 false) ((no_vdraws e).2 j)))
                              (of_nat (len (loader3 false)))))
                     <$> filter log_due (seq 0 (length (batches e))))
                   <$> seq 0 3).
Proof.
  apply (logged_validation_at_current_parameters loader1000 (loader3 false)
           no_vdraws model_toy loss_toy optimizer_toy console0); done.
Defined.

Lemma loader1000_batches draw : length (iter loader1000 draw) = 1000.
Proof.
  rewrite length_iter; [|done|done]. unfold len.
  cbn [dataset batch_size loader1000]. by rewrite length_fmap, length_seq.
Qed.

(** A thousand batches per pass: one entry per epoch, at the steps 999,
    1999 and 2999. *)
Example logged_training_logs_three_steps :
  logged_steps (out (logged_training loader1000 (loader3 false) no_vdraws
                       model_toy loss_toy optimizer_toy console0).2)
  = [999; 1999; 2999].
Proof.
  destruct (logging_epochs_steps loader1000 (loader3 false) no_vdraws
              model_toy loss_toy optimizer_toy (seq 0 3)
              (mkConsole (world console0)
                         (out console0 ++ [PrintLen (len (loader3 false))])))
    as (c1 & Hrun & Hlog); [done|].
  rewrite (logged_training_run _ _ _ _ _ _ _ _ Hrun). cbn [snd out].
  unfold logged_steps in *. rewrite logged_validation_closing, Hlog.
  cbn [seq fmap list_fmap no_vdraws fst]. rewrite !loader1000_batches.
  by vm_compute.
Qed.

Lemma logged_steps_increase_witness :
  ∃ c' steps,
    logged_training loader1000 (loader3 false) no_vdraws model_toy loss_toy
                    optimizer_toy console_eval = (Ok (), c') ∧
    logged_steps (out c') = logged_steps (out console_eval) ++ steps ∧
    steps = mjoin ((λ e, (λ j, e * len loader1000 + j)
                           <$> filter log_due (seq 0 (len loader1000)))
                     <$> seq 0 3) ∧
    StronglySorted lt steps.
Proof.
  apply (logged_steps_increase loader1000 (loader3 false) no_vdraws
           model_toy loss_toy optimizer_toy console_eval); done.
Defined.

Lemma first_thousand_batches_in_entry_mode_witness :
  let b0 := iter loader1000 (no_vdraws 0).1 in
  ∃ c', logged_training loader1000 (loader3 false) no_vdraws model_toy
                        loss_toy optimizer_toy console_eval = (Ok (), c') ∧
        state_of (world c') =
          train_passes loader1000 (fst ∘ no_vdraws) model_toy loss_toy
            optimizer_toy
            (foldl (sgd_step model_toy loss_toy optimizer_toy)
               (foldl (sgd_step_in (training (world console_eval)) model_toy
                                   loss_toy optimizer_toy)
                      (state_of (world console_eval)) (take 1000 b0))
               (drop 1000 b0))
            [1; 2] ∧
        training (world c') = true.
Proof.
  apply (first_thousand_batches_in_entry_mode loader1000 (loader3 false)
           no_vdraws model_toy loss_toy optimizer_toy console_eval);
    [done|done|].
  by rewrite loader1000_batches.
Defined.

Lemma logged_training_aborts_on_empty_test_set_witness :
  let b0 := iter loader1000 (no_vdraws 0).1 in
  ∃ c', logged_training loader1000 loader0 no_vdraws model_toy loss_toy
                        optimizer_toy console0
          = (Raise ZeroDivisionError, c') ∧
        state_of (world c') =
          foldl (sgd_step_in (training (world console0)) model_toy loss_toy
                             optimizer_toy)
                (state_of (world console0)) (take 1000 b0) ∧
        training (world c') = true ∧
        logged_validation (out c') = logged_validation (out console0) ∧
        (FinishedTraining ∈ out c' → FinishedTraining ∈ out console0).
Proof.
  apply (logged_training_aborts_on_empty_test_set loader1000 loader0
           no_vdraws model_toy loss_toy optimizer_toy console0); [done|].
  by rewrite loader1000_batches.
Defined.

Lemma short_passes_never_validate_witness :
  ∃ c', logged_training (loader3 false) loader0 no_vdraws model_toy loss_toy
                        optimizer_toy console_eval = (Ok (), c') ∧
        state_of (world c') =
          foldl (sgd_step_in (training (world console_eval)) model_toy
                             loss_toy optimizer_toy)
                (state_of (world console_eval))
                (iter (loader3 false) (no_vdraws 0).1 ++
                 iter (loader3 false) (no_vdraws 1).1 ++
                 iter (loader3 false) (no_vdraws 2).1) ∧
        training (world c') = training (world console_eval) ∧
        logged_validation (out c') = logged_validation (out console_eval).
Proof.
  apply (short_passes_never_validate (loader3 false) loader0 no_vdraws
           model_toy loss_toy optimizer_toy console_eval).
  intros e. vm_compute. lia.
Defined.

End DriverFacts.

(** * Facts about the class tables *)

Module ClassesFacts.
Import Py Classes.
Local Open Scope nat_scope.

Lemma class_to_idx_snoc (classes : list string) (c : string) :
  class_to_idx (classes ++ [c]) = <[c := length classes]> (class_to_idx classes).
Proof.
  unfold class_to_idx, enumerate. rewrite imap_app, foldl_app. cbn.
  by rewrite Nat.add_0_r.
Qed.

(** X18: the dict built from a class list maps a class to the index of
    its last occurrence in the list, and holds no other key: looking up
    a class that is not listed finds nothing ([KeyError]), and indexing
    the list with the number found gives the class back. *)
Theorem class_to_idx_last_occurrence (classes : list string) (cls : string) :
  (∀ idx, class_to_idx classes !! cls = Some idx ↔
          classes !! idx = Some cls ∧
          ∀ j, idx < j → classes !! j ≠ Some cls) ∧
  (class_to_idx classes !! cls = None ↔ cls ∉ classes) ∧
  (∀ idx, class_to_idx classes !! cls = Some idx →
          index classes (Z.of_nat idx) = Ok cls).
Proof.
  assert (∀ idx, class_to_idx classes !! cls = Some idx ↔
                 classes !! idx = Some cls ∧
                 ∀ j, idx < j → classes !! j ≠ Some cls) as Hiff.
  { induction classes as [|c classes IH] using rev_ind; intros idx.
    - unfold class_to_idx. cbn. rewrite lookup_empty. split; [done|].
      by intros [? _].
    - rewrite class_to_idx_snoc. destruct (decide (c = cls)) as [->|Hne].
      + rewrite lookup_insert_eq. split.
        * intros [= <-]. split; [by rewrite list_lookup_middle|].
          intros j Hj. rewrite lookup_ge_None_2; [done|].
          rewrite length_app. cbn. lia.
        * intros [Hidx Hlast].
          destruct (decide (idx = length classes)) as [->|Hn]; [done|].
          apply lookup_lt_Some in Hidx as Hlt.
          rewrite length_app in Hlt. cbn in Hlt.
          exfalso. apply (Hlast (length classes)); [lia|].
          by rewrite list_lookup_middle.
      + rewrite lookup_insert_ne by done. rewrite IH. split.
        * intros [Hidx Hlast]. split; [by apply lookup_app_l_Some|].
          intros j Hj Hcj. apply lookup_app_Some in Hcj as [Hcj|[_ Hcj]].
          -- by apply (Hlast j).
          -- apply list_lookup_singleton_Some in Hcj as [_ ?]. done.
        * intros [Hidx Hlast].
          apply lookup_app_Some in Hidx as [Hidx|[_ Hidx]].
          -- split; [done|]. intros j Hj Hcj. apply (Hlast j Hj).
             by apply lookup_app_l_Some.
          -- apply list_lookup_singleton_Some in Hidx as [_ ?]. done. }
  split; [exact Hiff|]. split.
  - split.
    + intros Hnone [i Hi]%list_elem_of_lookup.
      assert (∃ k, classes !! k = Some cls ∧
                   ∀ j, k < j → classes !! j ≠ Some cls) as (k & Hk & Hlast).
      { clear Hnone Hiff. revert i Hi.
        induction classes as [|c classes IH] using rev_ind; intros i Hi;
          [done|].
        destruct (decide (c = cls)) as [->|Hne].
        - exists (length classes). split; [by rewrite list_lookup_middle|].
          intros j Hj. rewrite lookup_ge_None_2; [done|].
          rewrite length_app. cbn. lia.
        - apply lookup_app_Some in Hi as [Hi|[_ Hi]].
          + destruct (IH i Hi) as (k & Hk & Hlast). exists k.
            split; [by apply lookup_app_l_Some|].
            intros j Hj Hcj. apply lookup_app_Some in Hcj as [Hcj|[_ Hcj]].
            * by apply (Hlast j).
            * apply list_lookup_singleton_Some in Hcj as [_ ?]. done.
          + apply list_lookup_singleton_Some in Hi as [_ ?]. done. }
      assert (class_to_idx classes !! cls = Some k) as Hsome
        by (apply Hiff; done).
      congruence.
    + intros Hnotin. apply eq_None_not_Some. intros [idx Hl].
      apply Hiff in Hl as [Hl _]. apply Hnotin.
      by eapply list_elem_of_lookup_2.
  - intros idx [Hidx _]%Hiff. unfold index. cbn zeta.
    apply lookup_lt_Some in Hidx as Hlt.
    destruct (decide (Z.of_nat idx < 0)%Z) as [?|_]; [lia|].
    rewrite decide_True by lia.
    by rewrite Nat2Z.id, Hidx.
Qed.

(** The semantic classes are distinct, so that the dict inverts the
    list: [sem_class_to_idx['dog']] is 12 and [sem_classes[12]] is
    ['dog']. *)
Example sem_classes_distinct :
  NoDup sem_classes ∧ sem_class_to_idx !! "dog" = Some 12 ∧
  sem_class_to_idx !! "boat" = Some 4.
Proof.
  split; [apply (bool_decide_unpack (NoDup sem_classes)); by vm_compute|].
  by vm_compute.
Qed.

(** Among the instance classes ['N/A'] stands at ten positions; the
    dict keeps the last one, so that it does not send position 12 back
    to itself. *)
Example inst_classes_repeat_a_name :
  inst_classes !! 12 = Some "N/A" ∧ inst_class_to_idx !! "N/A" = Some 83 ∧
  inst_class_to_idx !! "dog" = Some 18 ∧ inst_class_to_idx !! "pedestrian" = None.
Proof. by vm_compute. Qed.

End ClassesFacts.
